(** * PARAMOUNT: POD / DMD / multiresolution DMD pipeline

    A shallow embedding of [src/PARAMOUNT.py] (classes [Base], [POD], [DMD]).

    Conventions of the embedding.
    - Floating-point numbers are idealised as real numbers ([R]); complex
      numbers are pairs of reals.
    - A two-dimensional array or dataframe is the list of its columns
      (snapshots); every column is the list of its entries.  The code only
      ever slices along the column axis.
    - The working directory is a finite map from paths (lists of path
      components, as built by [pathlib]'s [/]) to persisted artifacts.
    - Python exceptions are values of [exn]; a method that may raise returns
      a [result]. *)

From Stdlib Require Import Reals Lra Lia ZArith List Ascii String Sorted.
From stdpp Require Import gmap strings list fin_maps pretty.

(** ** Exceptions and results *)

Inductive exn : Type :=
  | AttributeError      (* reading an attribute that was never assigned *)
  | TypeError           (* e.g. [None % 2**levels], or a pickle of the wrong kind *)
  | ValueError          (* zero slice step, column-label length mismatch *)
  | IndexError          (* column 0 of an array without columns *)
  | FrameIndexError     (* [df[:, a:b:c]] on a dataframe (only [.iloc] accepts it) *)
  | FileNotFoundError   (* reading or copying a path that does not exist *)
  | ZeroDivisionError.  (* [np.arange] with a zero step *)

Inductive result (A : Type) : Type :=
  | Ok (a : A)
  | Raise (e : exn).
Arguments Ok {A} a.
Arguments Raise {A} e.

(** Sequencing of statements that may raise: [x ← r; k] runs [k] when [r]
    returned normally and propagates the exception otherwise. *)
#[global] Instance result_bind : MBind result := λ A B k r,
  match r with
  | Ok a => k a
  | Raise e => Raise e
  end.
#[global] Instance result_ret : MRet result := λ A a, Ok a.
#[global] Instance result_fmap : FMap result := λ A B f r,
  match r with
  | Ok a => Ok (f a)
  | Raise e => Raise e
  end.

Definition is_ok {A} (r : result A) : bool :=
  match r with Ok _ => true | Raise _ => false end.

(** ** Python sequence operations *)

Module Py.

  (** [a[:stop]], [a[start:]] and [a[start:stop]] for a sequence of length
      [n]: a negative bound counts from the end, and every bound is clipped to
      [0 .. n]. *)
Definition adjust (n i : Z) : nat :=
    Z.to_nat (if (i <? 0)%Z then Z.max (i + n) 0 else Z.min i n).

Definition len {A} (l : list A) : Z := Z.of_nat (length l).

Definition slice_to {A} (stop : Z) (l : list A) : list A :=
    take (adjust (len l) stop) l.

Definition slice_from {A} (start : Z) (l : list A) : list A :=
    drop (adjust (len l) start) l.

Definition slice {A} (start stop : Z) (l : list A) : list A :=
    let a := adjust (len l) start in
    let b := adjust (len l) stop in
    take (b - a) (drop a l).

  (** Every [k]-th element starting with the first one, [k = S k']:
      [wait] counts the elements still to be skipped. *)
Fixpoint every_from {A} (k' wait : nat) (l : list A) : list A :=
    match l with
    | [] => []
    | x :: l' =>
        match wait with
        | O => x :: every_from k' k' l'
        | S w => every_from k' w l'
        end
    end.
Definition every {A} (k' : nat) (l : list A) : list A := every_from k' 0 l.

  (** [a[::step]]: a zero step raises, a negative one walks backwards from
      the last element. *)
Definition slice_step {A} (step : Z) (l : list A) : result (list A) :=
    if (step =? 0)%Z then Raise ValueError
    else if (0 <? step)%Z then Ok (every (Z.to_nat step - 1) l)
    else Ok (every (Z.to_nat (- step) - 1) (reverse l)).

  (** [int(x / y)] for integers [x], [y]: true division followed by
      truncation towards zero. *)
Definition int_div (x y : Z) : Z := Z.quot x y.

  (** [range(n)] *)
Definition range (n : nat) : list nat := seq 0 n.

  (** [x < y] on floats *)
Definition Rltb (x y : R) : bool := if Rlt_dec x y then true else false.

  (** [np.where(cond)[0]]: the positions of the true entries, ascending;
      [i] is the position of the head. *)
Fixpoint where_from (i : nat) (cond : list bool) : list nat :=
    match cond with
    | [] => []
    | c :: cond' =>
        if c then i :: where_from (S i) cond' else where_from (S i) cond'
    end.
Definition where_ (cond : list bool) : list nat := where_from 0 cond.

End Py.

(** ** Real and complex scalars, vectors and matrices *)

Abbreviation Cplx := (R * R)%type.

Module Cx.
Local Open Scope R_scope.

Definition of_R (x : R) : Cplx := (x, 0).
Definition re (z : Cplx) : R := fst z.
Definition im (z : Cplx) : R := snd z.
Definition i1 : Cplx := (0, 1).
Definition zero : Cplx := (0, 0).
Definition add (z w : Cplx) : Cplx := (re z + re w, im z + im w).
Definition mul (z w : Cplx) : Cplx :=
    (re z * re w - im z * im w, re z * im w + im z * re w).
  (** complex divided by a real scalar *)
Definition div_R (z : Cplx) (r : R) : Cplx := (re z / r, im z / r).
  (** complex times a real scalar *)
Definition mul_R (z : Cplx) (r : R) : Cplx := (re z * r, im z * r).
Definition abs (z : Cplx) : R := sqrt (re z * re z + im z * im z).
Definition exp (z : Cplx) : Cplx := (Rtrigo_def.exp (re z) * cos (im z),
                                 Rtrigo_def.exp (re z) * sin (im z)).

  (** Principal argument in (-PI, PI]. *)
Definition arg (z : Cplx) : R :=
    if Rlt_dec 0 (re z) then atan (im z / re z)
    else if Rlt_dec (re z) 0 then
      (if Rle_dec 0 (im z) then atan (im z / re z) + PI
       else atan (im z / re z) - PI)
    else if Rlt_dec 0 (im z) then PI / 2
    else if Rlt_dec (im z) 0 then - (PI / 2)
    else 0.

  (** Principal logarithm ([np.log] on a complex array).  At [z = 0] numpy
      yields an infinite real part; [ln] is then 0 here. *)
Definition log (z : Cplx) : Cplx := (ln (abs z), arg z).
End Cx.

Abbreviation vect A := (list A).
(** A matrix is the list of its columns. *)
Abbreviation matrix A := (list (list A)).

Module Mat.
Section Ops.
Context {A : Type} (zero : A) (add mul : A → A → A).

Definition ncols (m : matrix A) : nat := length m.
Definition nrows (m : matrix A) : nat := length (hd [] m).

Definition vadd (x y : vect A) : vect A := zip_with add x y.
Definition vscale (c : A) (x : vect A) : vect A := map (mul c) x.
Definition zeros (n : nat) : vect A := replicate n zero.

    (** [m @ x]: the combination of the columns of [m] with coefficients [x]. *)
Fixpoint mat_vec_from (acc : vect A) (m : matrix A) (x : vect A) : vect A :=
      match m, x with
      | c :: m', a :: x' => mat_vec_from (vadd acc (vscale a c)) m' x'
      | _, _ => acc
      end.
Definition mat_vec (m : matrix A) (x : vect A) : vect A :=
      mat_vec_from (zeros (nrows m)) m x.

    (** [m @ n], column by column. *)
Definition matmul (m n : matrix A) : matrix A := map (mat_vec m) n.

    (** Row [i] of [m]. *)
Definition row (i : nat) (m : matrix A) : vect A :=
      map (λ c, nth i c zero) m.
Definition transpose (m : matrix A) : matrix A :=
      map (λ i, row i m) (seq 0 (nrows m)).

    (** [diag(d)] *)
Definition diag (d : vect A) : matrix A :=
      imap (λ i x, <[i := x]> (zeros (length d))) d.

    (** Element-wise combination of two matrices of the same shape. *)
Definition zip2 (f : A → A → A) (m n : matrix A) : matrix A :=
      zip_with (zip_with f) m n.
End Ops.

Definition map2 {A B} (f : A → B) (m : matrix A) : matrix B := map (map f) m.
End Mat.

Definition Rmatmul := Mat.matmul 0%R Rplus Rmult.
Definition Rtranspose := Mat.transpose 0%R.
Definition Rdiag := Mat.diag 0%R.
Definition Cmatmul := Mat.matmul Cx.zero Cx.add Cx.mul.
Definition to_complex (m : matrix R) : matrix Cplx := Mat.map2 Cx.of_R m.

(** ** class Base *)

(** An instance attribute: [None] when it was never assigned (reading it
    raises [AttributeError]), [Some v] when it holds the Python value [v];
    the Python value [None] is [Some None]. *)
Definition attr (A : Type) : Type := option (option A).

(** [try: self.a  except: self.a = None] *)
Definition ensure_attr {A} (a : attr A) : attr A :=
  match a with
  | None => Some None
  | Some v => Some v
  end.

(** The value of an attribute that is known to be assigned. *)
Definition attr_value {A} (a : attr A) : option A :=
  match a with
  | Some v => v
  | None => None
  end.

(** The configuration carried by a [Base] / [POD] / [DMD] object. *)
Record Self : Type := mkSelf {
  dt : option R;
  t0 : option R;
  data_skip : attr Z;
  data_cutoff : attr Z;
  data_cutin : attr Z
}.

(** A freshly constructed object: none of the attributes exists. *)
Definition new_self : Self :=
  {| dt := None; t0 := None; data_skip := None; data_cutoff := None;
     data_cutin := None |}.

(** The two containers the pipeline passes around: a dask array, which is
    indexed as [df[:, a:b]], and a dask dataframe, which accepts column
    slices only through [df.iloc[:, a:b]]. *)
Inductive frame : Type :=
  | DaskArray (m : matrix R)
  | DaskFrame (m : matrix R).

Definition cols (df : frame) : matrix R :=
  match df with
  | DaskArray m => m
  | DaskFrame m => m
  end.

Definition with_cols (df : frame) (m : matrix R) : frame :=
  match df with
  | DaskArray _ => DaskArray m
  | DaskFrame _ => DaskFrame m
  end.

Module Base.

Definition set_data_cutin (self : Self) (v : option Z) : Self :=
    {| dt := dt self; t0 := t0 self; data_skip := data_skip self;
       data_cutoff := data_cutoff self; data_cutin := Some v |}.

Definition set_data_cutoff (self : Self) (v : option Z) : Self :=
    {| dt := dt self; t0 := t0 self; data_skip := data_skip self;
       data_cutoff := Some v; data_cutin := data_cutin self |}.

Definition set_data_skip (self : Self) (v : option Z) : Self :=
    {| dt := dt self; t0 := t0 self; data_skip := Some v;
       data_cutoff := data_cutoff self; data_cutin := data_cutin self |}.

  (** [set_time(dt, t0)] *)
Definition set_time (self : Self) (dt_arg : R) (t0_arg : R) : Self :=
    let skip := ensure_attr (data_skip self) in
    {| dt := Some (match attr_value skip with
                   | Some k => (dt_arg * IZR k)%R
                   | None => dt_arg
                   end);
       t0 := Some t0_arg;
       data_skip := skip;
       data_cutoff := data_cutoff self;
       data_cutin := data_cutin self |}.

  (** The three [try / except] blocks opening [data_decimate]. *)
Definition decimate_defaults (self : Self) : Self :=
    {| dt := dt self; t0 := t0 self;
       data_skip := ensure_attr (data_skip self);
       data_cutoff := ensure_attr (data_cutoff self);
       data_cutin := ensure_attr (data_cutin self) |}.

  (** [df[:, :: skip]]: the one slice of [data_decimate] without an [.iloc]
      fallback. *)
Definition stride (df : frame) (k : Z) (m : matrix R) : result (matrix R) :=
    match df with
    | DaskArray _ => Py.slice_step k m
    | DaskFrame _ => Raise FrameIndexError
    end.

  (** [data_decimate(df, X1, X2)]; the percentages are integers. *)
Definition data_decimate (self : Self) (df : frame) (X1 X2 : bool)
    : Self * result frame :=
    let self := decimate_defaults self in
    (self,
     let c0 := cols df in
     let c1 := match attr_value (data_cutoff self) with
               | Some p => Py.slice_to (Py.int_div (Py.len c0 * p) 100) c0
               | None => c0
               end in
     let c2 := match attr_value (data_cutin self) with
               | Some p => Py.slice_from (Py.int_div (Py.len c1 * p) 100) c1
               | None => c1
               end in
     c3 ← match attr_value (data_skip self) with
          | Some k => stride df k c2
          | None => Ok c2
          end;
     let c4 := if X1 then Py.slice_to (-1) c3 else c3 in
     let c5 := if X2 then Py.slice_from 1 c4 else c4 in
     Ok (with_cols df c5)).

  (** *** correlate *)
Section Correlate.
Local Open Scope R_scope.

Definition rsum (l : list R) : R := foldr Rplus 0 l.
    (** [np.mean] *)
Definition mean (v : list R) : R := rsum v / INR (length v).
    (** [v - np.mean(v)] *)
Definition centered (v : list R) : list R := map (λ x, x - mean v) v.
    (** [np.std] (population standard deviation, [ddof = 0]) *)
Definition std (v : list R) : R :=
      sqrt (mean (map (λ x, x * x) (centered v))).

    (** Entry [k] of [signal.correlate(a, b, mode="full")]:
        the sum over [l] of [a[l] * b[l - k + len(b) - 1]], where [b] is 0
        outside its range. *)
Definition xcorr_at (a b : list R) (k : nat) : R :=
      rsum (imap (λ l x,
                    if (k <=? l + (length b - 1))%nat
                    then x * nth (l + (length b - 1) - k) b 0
                    else 0) a).
Definition xcorr (a b : list R) : list R :=
      map (xcorr_at a b) (seq 0 (length a + length b - 1)).

    (** [max(int(len(v1) * 0.01), 5)] *)
Definition window (n : nat) : nat := Nat.max (n / 100) 5.

    (** [.rolling(window=w, center=True, closed="both").mean()] at row [i]:
        the fixed-window bounds are [i + 1 + offset - w - 1] (closed on the
        left as well) and [i + 1 + offset], [offset = (w - 1) // 2], clipped
        to the series; a window holding fewer than [w] observations yields
        NaN ([None]). *)
Definition rolling_mean_at (w : nat) (c : list R) (i : nat) : option R :=
      let stop := Nat.min (i + 1 + (w - 1) / 2) (length c) in
      let start := (i + 1 + (w - 1) / 2 - w - 1)%nat in
      let obs := take (stop - start) (drop start c) in
      if (w <=? length obs)%nat then Some (mean obs) else None.
Definition rolling_mean (w : nat) (c : list R) : list (option R) :=
      map (rolling_mean_at w c) (seq 0 (length c)).

    (** [.argmax()] skipping NaN: the first position of the largest value;
        [None] when every entry is NaN. *)
Fixpoint argmax_from (best : option (nat * R)) (i : nat)
             (l : list (option R)) : option nat :=
      match l with
      | [] => fst <$> best
      | None :: l' => argmax_from best (S i) l'
      | Some x :: l' =>
          match best with
          | Some (j, y) =>
              if Rlt_dec y x then argmax_from (Some (i, x)) (S i) l'
              else argmax_from best (S i) l'
          | None => argmax_from (Some (i, x)) (S i) l'
          end
      end.
Definition argmax (l : list (option R)) : option nat := argmax_from None 0 l.

    (** [correlate(v1, v2)].  An all-NaN smoothed series makes [argmax]
        answer -1, which indexes the last entry of [corr]. *)
Definition correlate (v1 v2 : list R) : result (R * R) :=
      if decide (v1 = [] ∨ v2 = []) then Raise ValueError else
      let corr := map (λ x, x / INR (length v1) / std v1 / std v2)
                      (xcorr (centered v1) (centered v2)) in
      let corr_smooth := rolling_mean (window (length v1)) corr in
      let lagindex := match argmax corr_smooth with
                      | Some i => i
                      | None => (length corr - 1)%nat
                      end in
      let corrcoef := nth (Z.to_nat (Py.int_div (Py.len corr) 2)) corr 0 in
      let corrcoef_adj := nth lagindex corr 0 in
      Ok (corrcoef, corrcoef_adj).
End Correlate.

End Base.

(** ** The working directory *)

(** A path relative to [Path.cwd()], one string per component. *)
Abbreviation path := (list string).

(** What the pipeline persists: parquet datasets and pickled objects. *)
Inductive artifact : Type :=
  | Table (m : matrix R)       (* a parquet dataset (itself a directory) *)
  | PickleSeries (v : vect R)   (* [s.pkl], the coordinate files *)
  | PickleMatrix (m : matrix R)  (* [Atilde.pkl] *)
  | PickleComplex (v : vect Cplx). (* [b.pkl], [lambda.pkl] *)

Record store : Type := mkStore {
  files : gmap path artifact;
  dirs : gset path   (* directories made by [ensure_dir] / [os.makedirs] *)
}.

Module FS.

Definition write (p : path) (a : artifact) (st : store) : store :=
    {| files := <[p := a]> (files st); dirs := dirs st |}.

Definition is_table (a : artifact) : bool :=
    match a with Table _ => true | _ => false end.

  (** [p.exists()]: an explicit directory, a file, or an ancestor of a file. *)
Definition exists_ (p : path) (st : store) : bool :=
    bool_decide (p ∈ dirs st)
    || existsb (λ k, bool_decide (p `prefix_of` k)) (elements (dom (files st))).

  (** [p.is_dir()]: as above, but a pickle is not a directory. *)
Definition is_dir (p : path) (st : store) : bool :=
    bool_decide (p ∈ dirs st)
    || existsb (λ kv, bool_decide (p `prefix_of` kv.1)
                      && (is_table kv.2 || negb (bool_decide (kv.1 = p))))
               (map_to_list (files st)).

  (** [os.makedirs(p)]: [p] and all its ancestors. *)
Definition makedirs (p : path) (st : store) : store :=
    {| files := files st;
       dirs := dirs st ∪ list_to_set (map (λ n, take n p) (seq 1 (length p))) |}.

  (** [shutil.rmtree(p)] *)
Definition rmtree (p : path) (st : store) : result store :=
    if exists_ p st then
      Ok {| files := filter (λ kv, ¬ p `prefix_of` kv.1) (files st);
            dirs := filter (λ d, ¬ p `prefix_of` d) (dirs st) |}
    else Raise FileNotFoundError.

  (** [shutil.move(src, dst)] of one persisted dataset *)
Definition move (src dst : path) (st : store) : result store :=
    match files st !! src with
    | Some a => Ok {| files := <[dst := a]> (delete src (files st));
                      dirs := dirs st |}
    | None => Raise FileNotFoundError
    end.

  (** [shutil.copy(src, dstdir)]: the copy keeps the file name. *)
Definition copy (src dstdir : path) (st : store) : result store :=
    match files st !! src, last src with
    | Some a, Some name => Ok (write (dstdir ++ [name]) a st)
    | _, _ => Raise FileNotFoundError
    end.

  (** [dd.read_parquet(p)] *)
Definition read_parquet (p : path) (st : store) : result (matrix R) :=
    match files st !! p with
    | Some (Table m) => Ok m
    | Some _ => Raise TypeError
    | None => Raise FileNotFoundError
    end.

Definition to_parquet (m : matrix R) (p : path) (st : store) : store :=
    write p (Table m) st.

End FS.

(** Modelled from the spec: [utils.saveit], [utils.loadit] and
    [utils.ensure_dir] live in [src/utils], which is not part of the sources.
    The spec lists [s.pkl], [Atilde.pkl], [lambda.pkl] and [b.pkl] as opaque
    serialized objects that one stage writes and a later stage reads back, so
    [saveit] stores the object under the path, [loadit] returns the object
    stored there, and [ensure_dir] makes the directory (and its parents) if
    it is missing. *)
Module utils.

Definition saveit (a : artifact) (p : path) (st : store) : store :=
    FS.write p a st.

Definition loadit (p : path) (st : store) : result artifact :=
    match files st !! p with
    | Some a => Ok a
    | None => Raise FileNotFoundError
    end.

Definition ensure_dir (p : path) (st : store) : store :=
    FS.makedirs p st.

Definition load_series (p : path) (st : store) : result (vect R) :=
    a ← loadit p st;
    match a with PickleSeries v => Ok v | _ => Raise TypeError end.

Definition load_matrix (p : path) (st : store) : result (matrix R) :=
    a ← loadit p st;
    match a with PickleMatrix m => Ok m | _ => Raise TypeError end.

Definition load_complex (p : path) (st : store) : result (vect Cplx) :=
    a ← loadit p st;
    match a with PickleComplex v => Ok v | _ => Raise TypeError end.

End utils.

(** ** External collaborators

    The dense linear-algebra routines of dask and numpy and the answers typed
    at the overwrite prompt are parameters of the model. *)
Class External : Type := {
  (** [da.linalg.svd(a)]: [(u, s, v)] with [v] the (modes x snapshots) factor *)
  svd : matrix R → matrix R * vect R * matrix R;
  (** [np.linalg.eig(a)]: eigenvalues and eigenvectors *)
  eig : matrix R → vect Cplx * matrix Cplx;
  (** [np.linalg.lstsq(phi, init, rcond=None)[0]] *)
  lstsq : matrix Cplx → vect R → vect Cplx;
  (** the answer to "folder already exists! overwrite existing files? [y/n]"
      for a variable under a path: [true] for "y" *)
  overwrite : path → string → bool
}.

(** [for x in l: body], threading the state and stopping at the first
    exception. *)
Fixpoint for_each {A S} (l : list A) (body : A → S → result S) (s : S)
  : result S :=
  match l with
  | [] => Ok s
  | x :: l' => s' ← body x s; for_each l' body s'
  end.

(** [a[idx]] for an index array [idx]: out of range raises. *)
Definition take_indices {A} (idx : list nat) (l : list A) : result (list A) :=
  match mapM (λ i, l !! i) idx with
  | Some r => Ok r
  | None => Raise IndexError
  end.

(** ** class POD *)

Module POD.
Section WithExternal.
Context {ext : External}.

    (** [list.remove(x)]: drops the first occurrence. *)
Fixpoint list_remove (x : string) (l : list string) : list string :=
      match l with
      | [] => []
      | y :: l' => if decide (x = y) then l' else y :: list_remove x l'
      end.

    (** [get_folderlist(path)] makes [path] when it is missing; [var in
        get_folderlist(path)] then asks whether [path / var] is a folder. *)
Definition get_folderlist_has (p : path) (var : string) (st : store)
      : bool * store :=
      let st := if FS.is_dir p st then st else FS.makedirs p st in
      (FS.is_dir (p ++ [var]) st, st).

    (** The first loop of [overwrite_guard]: ask for every variable whose
        folder exists, remove the folder on "y", remember the variable
        otherwise. *)
Fixpoint guard_loop (p : path) (vars remove_vars : list string)
             (st : store) : result (list string * store) :=
      match vars with
      | [] => Ok (remove_vars, st)
      | var :: vars' =>
          let '(found, st) := get_folderlist_has p var st in
          if found then
            if overwrite p var then
              st ← FS.rmtree (p ++ [var]) st;
              guard_loop p vars' remove_vars st
            else guard_loop p vars' (remove_vars ++ [var]) st
          else guard_loop p vars' remove_vars st
      end.

Definition overwrite_guard (p : path) (variables : list string)
               (st : store) : result (list string * store) :=
      '(remove_vars, st) ← guard_loop p variables [] st;
      Ok (foldl (λ vs var, list_remove var vs) variables remove_vars, st).

    (** [try: copy x.pkl; copy y.pkl; copy z.pkl  except: pass] *)
Definition copy_coordinates (src dst : path) (st : store) : store :=
      match FS.copy (src ++ ["x.pkl"]) dst st with
      | Raise _ => st
      | Ok st1 =>
          match FS.copy (src ++ ["y.pkl"]) dst st1 with
          | Raise _ => st1
          | Ok st2 =>
              match FS.copy (src ++ ["z.pkl"]) dst st2 with
              | Raise _ => st2
              | Ok st3 => st3
              end
          end
      end.

    (** [df.values]: only a dataframe has it. *)
Definition values (df : frame) : result (matrix R) :=
      match df with
      | DaskFrame m => Ok m
      | DaskArray _ => Raise AttributeError
      end.

    (** The snapshot matrix of a variable as a dask dataframe, or the
        in-memory one. *)
Definition load_frame (path_parquet : path) (in_memory_df : option frame)
               (var : string) (st : store) : result frame :=
      match in_memory_df with
      | None => DaskFrame <$> FS.read_parquet (path_parquet ++ [var]) st
      | Some df => Ok df
      end.

    (** The body of the loop of [svd_save_usv] for one variable. *)
Definition svd_var (path_parquet path_pod : path) (dmd_X1 : bool)
               (in_memory_df : option frame) (var : string)
               (s : Self * store) : result (Self * store) :=
      let '(self, st) := s in
      df ← load_frame path_parquet in_memory_df var st;
      let '(self, r) := Base.data_decimate self df dmd_X1 false in
      df ← r;
      a ← values df;
      let '(u, sv, v) := svd a in
      let st := FS.to_parquet u (path_pod ++ [var; "u"]) st in
      let st := FS.to_parquet v (path_pod ++ [var; "v"]) st in
      let st := utils.saveit (PickleSeries sv) (path_pod ++ [var; "s.pkl"]) st in
      Ok (self, st).

    (** [svd_save_usv(variables, path_parquet, path_pod, dmd_X1, in_memory_df)] *)
Definition svd_save_usv (self : Self) (variables : list string)
               (path_parquet path_pod : path) (dmd_X1 : bool)
               (in_memory_df : option frame) (st : store)
      : result (Self * store) :=
      '(variables, st) ← match in_memory_df with
                         | None => overwrite_guard path_pod variables st
                         | Some _ => Ok (variables, st)
                         end;
      let st := copy_coordinates path_parquet path_pod st in
      for_each variables (svd_var path_parquet path_pod dmd_X1 in_memory_df)
               (self, st).

End WithExternal.
End POD.

(** ** class DMD *)

Module DMD.
Section WithExternal.
Context {ext : External}.

    (** [df.compute_chunk_sizes()] and [df[:, 0]] exist on arrays only. *)
Definition as_array (df : frame) : result (matrix R) :=
      match df with
      | DaskArray m => Ok m
      | DaskFrame _ => Raise AttributeError
      end.

Definition first_column (df : frame) : result (vect R) :=
      match df with
      | DaskArray (c :: _) => Ok c
      | DaskArray [] => Raise IndexError
      | DaskFrame _ => Raise FrameIndexError
      end.

    (** The snapshot matrix of a variable as a dask array, or the in-memory
        one. *)
Definition load_array (path_parquet : path) (in_memory_df : option frame)
               (var : string) (st : store) : result frame :=
      match in_memory_df with
      | None => DaskArray <$> FS.read_parquet (path_parquet ++ [var]) st
      | Some df => Ok df
      end.

    (** [u.T @ df2 @ v.T @ diag(s ** -1)] *)
Definition Atilde_of (u : matrix R) (s : vect R) (v df2 : matrix R)
      : matrix R :=
      Rmatmul (Rmatmul (Rmatmul (Rtranspose u) df2) (Rtranspose v))
              (Rdiag (map Rinv s)).

    (** The body of the loop of [save_Atilde] for one variable. *)
Definition Atilde_var (path_parquet path_pod path_dmd : path)
               (in_memory_df : option frame) (var : string)
               (s : Self * store) : result (Self * store) :=
      let '(self, st) := s in
      df ← load_array path_parquet in_memory_df var st;
      let '(self, r) := Base.data_decimate self df false true in
      df2 ← r;
      df2 ← as_array df2;
      u ← FS.read_parquet (path_pod ++ [var; "u"]) st;
      sv ← utils.load_series (path_pod ++ [var; "s.pkl"]) st;
      v ← FS.read_parquet (path_pod ++ [var; "v"]) st;
      Ok (self, utils.saveit (PickleMatrix (Atilde_of u sv v df2))
                             (path_dmd ++ [var; "Atilde.pkl"]) st).

    (** [save_Atilde(variables, path_parquet, path_pod, path_dmd, in_memory_df)] *)
Definition save_Atilde (self : Self) (variables : list string)
               (path_parquet path_pod path_dmd : path)
               (in_memory_df : option frame) (st : store)
      : result (Self * store) :=
      '(variables, st) ← match in_memory_df with
                         | None => POD.overwrite_guard path_dmd variables st
                         | Some _ => Ok (variables, st)
                         end;
      let st := POD.copy_coordinates path_parquet path_dmd st in
      for_each variables (Atilde_var path_parquet path_pod path_dmd in_memory_df)
               (self, st).

    (** The two ways to compute the modes: [u @ eigvecs], and
        [df2 @ v.T @ diag(s ** -1) @ eigvecs]. *)
Definition phi_projection (u : matrix R) (eigvecs : matrix Cplx) : matrix Cplx :=
      Cmatmul (to_complex u) eigvecs.

Definition phi_exact (df2 v : matrix R) (sv : vect R) (eigvecs : matrix Cplx)
      : matrix Cplx :=
      Cmatmul (to_complex (Rmatmul (Rmatmul df2 (Rtranspose v))
                                   (Rdiag (map Rinv sv))))
              eigvecs.

    (** The body of the loop of [save_modes] for one variable. *)
Definition modes_var (path_parquet path_dmd path_pod : path)
               (projection_method : bool) (in_memory_df : option frame)
               (var : string) (s : Self * store) : result (Self * store) :=
      let '(self, st) := s in
      Atilde ← utils.load_matrix (path_dmd ++ [var; "Atilde.pkl"]) st;
      let '(Lambda, eigvecs) := eig Atilde in
      u ← FS.read_parquet (path_pod ++ [var; "u"]) st;
      v ← FS.read_parquet (path_pod ++ [var; "v"]) st;
      df ← load_array path_parquet in_memory_df var st;
      '(self, phi) ←
        (if projection_method then
           Ok (self, phi_projection u eigvecs)
         else
           let '(self, r) := Base.data_decimate self df false true in
           df2 ← r;
           sv ← utils.load_series (path_pod ++ [var; "s.pkl"]) st;
           Ok (self, phi_exact (cols df2) v sv eigvecs));
      let st := FS.to_parquet (Mat.map2 Cx.re phi)
                              (path_dmd ++ [var; "modes_real"]) st in
      let st := FS.to_parquet (Mat.map2 Cx.im phi)
                              (path_dmd ++ [var; "modes_imag"]) st in
      init ← first_column df;
      let b := lstsq phi init in
      let st := utils.saveit (PickleComplex b) (path_dmd ++ [var; "b.pkl"]) st in
      let st := utils.saveit (PickleComplex Lambda)
                             (path_dmd ++ [var; "lambda.pkl"]) st in
      Ok (self, st).

    (** [save_modes(variables, path_parquet, path_dmd, path_pod,
        projection_method, in_memory_df)] *)
Definition save_modes (self : Self) (variables : list string)
               (path_parquet path_dmd path_pod : path)
               (projection_method : bool) (in_memory_df : option frame)
               (st : store) : result (Self * store) :=
      for_each variables
               (modes_var path_parquet path_dmd path_pod projection_method
                          in_memory_df)
               (self, st).

    (** [self.dt] *)
Definition get_dt (self : Self) : result R :=
      match dt self with
      | Some d => Ok d
      | None => Raise AttributeError
      end.

    (** [np.log(eigs) / dt] *)
Definition omega_of (d : R) (eigs : vect Cplx) : vect Cplx :=
      map (λ l, Cx.div_R (Cx.log l) d) eigs.

    (** [np.arange(0, end, frame_skip) * dt] *)
Definition time_axis (d : R) (end_ frame_skip : Z) : result (list R) :=
      if (frame_skip =? 0)%Z then Raise ZeroDivisionError
      else Ok (map (λ i, (IZR (Z.of_nat i * frame_skip) * d)%R)
                   (seq 0 (Z.to_nat (- ((- end_) `div` frame_skip))))).

    (** [phi_real + 1j * phi_imag] *)
Definition recombine (phi_real phi_imag : matrix R) : matrix Cplx :=
      Mat.zip2 Cx.add (to_complex phi_real)
               (Mat.map2 (Cx.mul Cx.i1) (to_complex phi_imag)).

    (** One column of [dynamics]: [b * np.exp(omega * t)] *)
Definition dynamics_at (b omega : vect Cplx) (t : R) : vect Cplx :=
      zip_with Cx.mul b (map (λ w, Cx.exp (Cx.mul_R w t)) omega).

    (** [da.matmul(phi, dynamics).real] *)
Definition prediction_of (phi : matrix Cplx) (b omega : vect Cplx)
               (time : list R) : matrix R :=
      Mat.map2 Cx.re (Cmatmul phi (map (dynamics_at b omega) time)).

    (** The body of the loop of [save_prediction] for one variable; [end] is
        a local that the first variable may assign for the later ones. *)
Definition prediction_var (self : Self) (path_dmd : path)
               (frame_skip : Z) (var : string) (s : option Z * store)
      : result (option Z * store) :=
      let '(end_, st) := s in
      b ← utils.load_complex (path_dmd ++ [var; "b.pkl"]) st;
      eigs ← utils.load_complex (path_dmd ++ [var; "lambda.pkl"]) st;
      d ← get_dt self;
      let omega := omega_of d eigs in
      phi_real ← FS.read_parquet (path_dmd ++ [var; "modes_real"]) st;
      phi_imag ← FS.read_parquet (path_dmd ++ [var; "modes_imag"]) st;
      let phi := recombine phi_real phi_imag in
      let e := match end_ with
               | None => Py.len phi
               | Some e => e
               end in
      time ← time_axis d e frame_skip;
      Ok (Some e,
          FS.to_parquet (prediction_of phi b omega time)
                        (path_dmd ++ [var; "prediction"]) st).

    (** [save_prediction(variables, path_dmd, end, frame_skip)] *)
Definition save_prediction (self : Self) (variables : list string)
               (path_dmd : path) (end_ : option Z) (frame_skip : Z)
               (st : store) : result store :=
      snd <$> for_each variables (prediction_var self path_dmd frame_skip)
                       (end_, st).

    (** *** Multiresolution DMD *)

    (** [f"level_{level}"] *)
Definition level_dir (level : nat) : string := "level_" +:+ pretty level.

    (** [np.where(np.abs(omega) < rho * 2 * np.pi)[0]] with
        [omega = np.log(eigs) / dt] and [rho = 1 / (dt * slice_size)] *)
Definition slow_mask (d : R) (slice_size : nat) (eigs : vect Cplx)
      : list nat :=
      let omega := omega_of d eigs in
      let rho := (1 / (d * INR slice_size))%R in
      Py.where_ (map (λ w, Py.Rltb (Cx.abs w) (rho * 2 * PI)) omega).

    (** The slow-mode filter of one segment: rewrite [b.pkl], [lambda.pkl],
        [modes_real] and [modes_imag] of [var] restricted to [slow_mask]. *)
Definition slow_filter (self : Self) (path_dmd : path) (var : string)
               (slice_size : nat) (st : store) : result store :=
      eigs ← utils.load_complex (path_dmd ++ [var; "lambda.pkl"]) st;
      d ← get_dt self;
      let mask := slow_mask d slice_size eigs in
      b ← utils.load_complex (path_dmd ++ [var; "b.pkl"]) st;
      b' ← take_indices mask b;
      let st := utils.saveit (PickleComplex b') (path_dmd ++ [var; "b.pkl"]) st in
      eigs' ← take_indices mask eigs;
      let st := utils.saveit (PickleComplex eigs')
                             (path_dmd ++ [var; "lambda.pkl"]) st in
      phi_real ← FS.read_parquet (path_dmd ++ [var; "modes_real"]) st;
      phi_imag ← FS.read_parquet (path_dmd ++ [var; "modes_imag"]) st;
      phi_real ← take_indices mask phi_real;
      phi_imag ← take_indices mask phi_imag;
      let st := FS.to_parquet phi_real (path_dmd ++ [var; "modes_real_2"]) st in
      let st := FS.to_parquet phi_imag (path_dmd ++ [var; "modes_imag_2"]) st in
      st ← FS.rmtree (path_dmd ++ [var; "modes_real"]) st;
      st ← FS.rmtree (path_dmd ++ [var; "modes_imag"]) st;
      st ← FS.move (path_dmd ++ [var; "modes_real_2"])
                   (path_dmd ++ [var; "modes_real"]) st;
      FS.move (path_dmd ++ [var; "modes_imag_2"])
              (path_dmd ++ [var; "modes_imag"]) st.

    (** [df.iloc[:, i * slice_size : (i + 1) * slice_size]] *)
Definition segment_of (df : matrix R) (slice_size i : nat) : matrix R :=
      Py.slice (Z.of_nat (i * slice_size)) (Z.of_nat ((i + 1) * slice_size)) df.

    (** The body of the loop over the segments of one level. *)
Definition segment_step (variables : list string)
               (path_parquet path_mrdmd : path) (var : string)
               (level slice_size : nat) (df : matrix R) (i : nat)
               (s : Self * store) : result (Self * store) :=
      let '(self, st) := s in
      let df_i := segment_of df slice_size i in
      let path_pod := path_mrdmd ++ [level_dir level; pretty i] in
      let path_dmd := path_mrdmd ++ [level_dir level; pretty i] in
      '(self, st) ← POD.svd_save_usv self variables path_parquet path_pod true
                                     (Some (DaskFrame df_i)) st;
      '(self, st) ← save_Atilde self variables path_parquet path_pod path_dmd
                                (Some (DaskArray df_i)) st;
      '(self, st) ← save_modes self variables path_parquet path_dmd path_pod
                               true (Some (DaskArray df_i)) st;
      st ← slow_filter self path_dmd var slice_size st;
      st ← save_prediction self variables path_dmd
                           (Some (Z.of_nat slice_size)) 1 st;
      Ok (self, st).

    (** The body of the loop over the levels: [df] is the local dataframe
        that the loop reads, overwrites and persists. *)
Definition level_step (variables : list string)
               (path_parquet path_mrdmd : path) (var : string) (level : nat)
               (s : Self * store * matrix R)
      : result (Self * store * matrix R) :=
      let '(self, st, df) := s in
      df ← match level with
           | O => Ok df
           | S l =>
               FS.read_parquet
                 (path_mrdmd ++ [level_dir l; var; "level_prediction"]) st
           end;
      let slice_size := (length df / 2 ^ level)%nat in
      _ ← get_dt self;
      '(self, st) ← for_each (Py.range (2 ^ level))
                             (segment_step variables path_parquet path_mrdmd
                                           var level slice_size df)
                             (self, st);
      preds ← mapM (λ i, FS.read_parquet
                           (path_mrdmd
                              ++ [level_dir level; pretty i; var; "prediction"])
                           st)
                   (Py.range (2 ^ level));
      let df_new := concat preds in
      if decide (length df_new = length df) then
        let df := Mat.zip2 Rminus df df_new in
        Ok (self,
            FS.to_parquet df
              (path_mrdmd ++ [level_dir level; var; "level_prediction"]) st,
            df)
      else Raise ValueError.

    (** [utils.ensure_dir] for every level and segment *)
Definition make_level_dirs (path_mrdmd : path) (levels : nat) (st : store)
      : store :=
      foldl (λ st level,
               foldl (λ st i,
                        utils.ensure_dir
                          (path_mrdmd ++ [level_dir level; pretty i]) st)
                     st (Py.range (2 ^ level)))
            st (Py.range levels).

    (** [df.iloc[:, : end - end % 2**levels]] *)
Definition truncate_columns (levels : nat) (e : Z) (df : matrix R)
      : matrix R :=
      Py.slice_to (e - e `mod` 2 ^ Z.of_nat levels) df.

    (** The body of the loop of [multires] for one variable. *)
Definition multires_var (variables : list string)
               (path_parquet path_mrdmd : path) (levels : nat)
               (end_ : option Z) (var : string) (s : Self * store)
      : result (Self * store) :=
      let '(self, st) := s in
      let st := make_level_dirs path_mrdmd levels st in
      df ← FS.read_parquet (path_parquet ++ [var]) st;
      e ← match end_ with
          | Some e => Ok e
          | None => Raise TypeError
          end;
      let df := truncate_columns levels e df in
      '(self, st, _) ← for_each (Py.range levels)
                                (level_step variables path_parquet path_mrdmd var)
                                (self, st, df);
      Ok (self, st).

    (** [multires(variables, path_parquet, path_mrdmd, levels, end)] *)
Definition multires (self : Self) (variables : list string)
               (path_parquet path_mrdmd : path) (levels : nat)
               (end_ : option Z) (st : store) : result (Self * store) :=
      for_each variables
               (multires_var variables path_parquet path_mrdmd levels end_)
               (self, st).

    (** The [while True] loop of [multires_predict] that counts the
        [level_<n>] folders; [fuel] bounds the number of iterations. *)
Fixpoint count_levels (fuel : nat) (path_mrdmd : path) (levels : nat)
             (st : store) : nat :=
      match fuel with
      | O => levels
      | S fuel' =>
          if FS.exists_ (path_mrdmd ++ [level_dir levels]) st
          then count_levels fuel' path_mrdmd (S levels) st
          else levels
      end.

    (** Every existing [level_<n>] is an entry of the store or an ancestor of
        one, so this many iterations reach a missing one. *)
Definition discover_levels (path_mrdmd : path) (st : store) : nat :=
      count_levels (S (size (files st) + size (dirs st))) path_mrdmd 0 st.

    (** The body of the loop of [multires_predict] for one variable. *)
Definition multires_predict_var (path_mrdmd : path) (var : string)
               (st : store) : result store :=
      let levels := discover_levels path_mrdmd st in
      predictions ← mapM (λ level,
                            FS.read_parquet
                              (path_mrdmd
                                 ++ [level_dir level; var; "level_prediction"])
                              st)
                         (Py.range levels);
      prediction_df ← match predictions with
                      | [] => Raise IndexError
                      | p0 :: ps => Ok (foldl (Mat.zip2 Rplus) p0 ps)
                      end;
      st ← for_each (Py.range levels)
             (λ level st,
                st ← FS.copy (path_mrdmd ++ [level_dir 0; pretty 0%nat; "x.pkl"])
                             (path_mrdmd ++ [level_dir level]) st;
                FS.copy (path_mrdmd ++ [level_dir 0; pretty 0%nat; "y.pkl"])
                        (path_mrdmd ++ [level_dir level]) st)
             st;
      Ok (FS.to_parquet prediction_df (path_mrdmd ++ [var; "prediction"]) st).

    (** [multires_predict(variables, path_mrdmd)] *)
Definition multires_predict (variables : list string) (path_mrdmd : path)
               (st : store) : result store :=
      for_each variables (multires_predict_var path_mrdmd) st.

End WithExternal.
End DMD.

(** ** Reference definitions used by the properties *)

(** The decimation as the specification words it: the cutoff and the cutin
    column counts are both percentages of the column count of the input
    matrix. *)
Definition decimate_pct_of_total (cutoff cutin : Z) (m : matrix R) : matrix R :=
  let n := Py.len m in
  Py.slice_from (Py.int_div (n * cutin) 100)
                (Py.slice_to (Py.int_div (n * cutoff) 100) m).

(** A matrix with [n] columns of one entry each, column [i] holding [i]. *)
Definition ramp (n : nat) : matrix R := map (λ i, [INR i]) (seq 0 n).

(** The columns of [m] at the positions [idx]. *)
Definition columns_at (idx : list nat) (m : matrix R) : matrix R :=
  map (λ i, nth i m []) idx.

(** A series is non-constant when two of its entries differ. *)
Definition nonconstant (v : list R) : Prop :=
  ∃ x y, x ∈ v ∧ y ∈ v ∧ x ≠ y.

(** The sum of the squares of the entries. *)
Definition sumsq (a : list R) : R := Base.rsum (map (λ x, x * x)%R a).

(** Two samples up, two samples down. *)
Definition square_wave : list R := [1; 1; -1; -1]%R.

(** *** Closed forms of the external routines on one-mode problems

    On a matrix with a single column, a 1 x 1 matrix and a single-column
    least-squares problem the routines have closed forms; elsewhere this
    instance answers with empty factors.  It serves to run the pipeline on
    concrete one-mode data. *)
Module OneMode.
Local Open Scope R_scope.

(** Euclidean norm *)
Definition norm (x : vect R) : R := sqrt (sumsq x).

(** A singular value decomposition of the one-column matrix [x]:
    [x = (x / |x|) * |x| * 1]. *)
Definition svd1 (a : matrix R) : matrix R * vect R * matrix R :=
  match a with
  | [x] => ([map (λ e, e / norm x) x], [norm x], [[1]])
  | _ => ([], [], [])
  end.

(** The eigenpair of a 1 x 1 matrix. *)
Definition eig1 (a : matrix R) : vect Cplx * matrix Cplx :=
  match a with
  | [[x]] => ([Cx.of_R x], [[Cx.of_R 1]])
  | _ => ([], [])
  end.

(** The least-squares solution of [p * b = y] for one complex column [p]:
    [b = (conj(p) . y) / (conj(p) . p)]. *)
Definition lstsq1 (phi : matrix Cplx) (y : vect R) : vect Cplx :=
  match phi with
  | [p] =>
      [Cx.div_R
         (foldr Cx.add Cx.zero
                (zip_with (λ z e, Cx.mul (Cx.re z, - Cx.im z) (Cx.of_R e)) p y))
         (Base.rsum (map (λ z, Cx.re z * Cx.re z + Cx.im z * Cx.im z) p))]
  | _ => []
  end.

(** The routines above, and a user who answers "y" at every prompt. *)
Definition external : External :=
  {| svd := svd1; eig := eig1; lstsq := lstsq1; overwrite := λ _ _, true |}.
End OneMode.

(** *** Footprints of the loops over the variables *)

(** Two configurations decimate alike. *)
Definition same_decimation (s1 s2 : Self) : Prop :=
  ∀ df a b, snd (Base.data_decimate s1 df a b) = snd (Base.data_decimate s2 df a b).

(** What a loop over the variables leaves alone: the decimation settings,
    the directories, and every file outside the set [W] of written paths. *)
Definition framed (W : path → Prop) (self : Self) (st : store)
    (s : Self * store) : Prop :=
  same_decimation s.1 self
  ∧ dirs s.2 = dirs st
  ∧ ∀ q, ¬ W q → files s.2 !! q = files st !! q.

(** The paths written by the SVD stage for the variables [vs]. *)
Definition svd_outputs (pod : path) (vs : list string) (q : path) : Prop :=
  ∃ var name, var ∈ vs ∧ name ∈ ["u"; "v"; "s.pkl"] ∧ q = pod ++ [var; name].

(** The paths written by [save_Atilde] for the variables [vs]. *)
Definition Atilde_outputs (dmd : path) (vs : list string) (q : path) : Prop :=
  ∃ var, var ∈ vs ∧ q = dmd ++ [var; "Atilde.pkl"].

(** The paths written by [save_modes] for the variables [vs]. *)
Definition modes_outputs (dmd : path) (vs : list string) (q : path) : Prop :=
  ∃ var name, var ∈ vs
    ∧ name ∈ ["modes_real"; "modes_imag"; "b.pkl"; "lambda.pkl"]
    ∧ q = dmd ++ [var; name].

(** The modes of a variable as [save_modes] computes them. *)
Definition modes_of {ext : External} (projection_method : bool) (u v df2 : matrix R)
    (sv : vect R) (Atilde : matrix R) : matrix Cplx :=
  if projection_method then DMD.phi_projection u (eig Atilde).2
  else DMD.phi_exact df2 v sv (eig Atilde).2.

(** The instants [np.arange(0, end, frame_skip) * dt]. *)
Definition instants (d : R) (e f : Z) : list R :=
  map (λ i, (IZR (Z.of_nat i * f) * d)%R)
      (seq 0 (Z.to_nat (- ((- e) `div` f)))).

Definition prediction_outputs (dmd : path) (vs : list string) (q : path) : Prop :=
  ∃ var, var ∈ vs ∧ q = dmd ++ [var; "prediction"].

(** *** Small concrete data sets *)

(** One variable [p] of one spatial point and two snapshots, 1 then 2, with
    its coordinate files. *)
Definition geometric_store : store :=
  {| files := <[ ["data"; "x.pkl"] := PickleSeries [0%R] ]>
              (<[ ["data"; "y.pkl"] := PickleSeries [0%R] ]>
               {[ ["data"; "p"] := Table [[1%R]; [2%R]] ]});
     dirs := ∅ |}.

(** One variable [p] of two spatial points and a single snapshot. *)
Definition narrow_store : store :=
  {| files := {[ ["data"; "p"] := Table [[3%R; 4%R]] ]}; dirs := ∅ |}.

(** The artifacts of a one-mode decomposition of [p]: reduced operator 2,
    unit basis, amplitude 1, eigenvalue 2, mode 1. *)
Definition one_mode_store : store :=
  {| files := <[ ["dmd"; "p"; "Atilde.pkl"] := PickleMatrix [[2%R]] ]>
              (<[ ["usv"; "p"; "u"] := Table [[1%R]] ]>
               (<[ ["usv"; "p"; "v"] := Table [[1%R]] ]>
                (<[ ["dmd"; "p"; "b.pkl"] := PickleComplex [Cx.of_R 1] ]>
                 (<[ ["dmd"; "p"; "lambda.pkl"] := PickleComplex [Cx.of_R 2] ]>
                  (<[ ["dmd"; "p"; "modes_real"] := Table [[1%R]] ]>
                   (<[ ["dmd"; "p"; "modes_imag"] := Table [[0%R]] ]>
                    {[ ["data"; "p"] := Table [[1%R]; [2%R]] ]}))))));
     dirs := ∅ |}.

(** The [end] that [save_prediction] works with: the argument, or, when it
    is [None], the number of modes of the first variable. *)
Definition effective_end (end_ : option Z) (variables : list string)
    (Re Im : string → matrix R) : Z :=
  match end_, variables with
  | Some e, _ => e
  | None, var :: _ => Py.len (DMD.recombine (Re var) (Im var))
  | None, [] => 0
  end.

(** The default configuration with a unit timestep: [set_time(1, 0)]. *)
Definition unit_self : Self := Base.set_time new_self 1 0.

(** One variable [p] of one spatial point and twelve snapshots. *)
Definition twelve_store : store :=
  {| files := {[ ["data"; "p"] := Table (ramp 12) ]}; dirs := ∅ |}.

(** The table that a run left under [p]. *)
Definition table_at (p : path) (r : result store) : option (matrix R) :=
  match r with
  | Ok st => match files st !! p with Some (Table m) => Some m | _ => None end
  | Raise _ => None
  end.

(** The number of columns of the table that a run left under [p]. *)
Definition table_width (p : path) (r : result (Self * store)) : option nat :=
  match r with
  | Ok (_, st) =>
      match files st !! p with Some (Table m) => Some (length m) | _ => None end
  | Raise _ => None
  end.

(** The input of a level: the local dataframe at level 0, the table that
    the level before persisted otherwise. *)
Definition level_input (path_mrdmd : path) (var : string) (level : nat)
    (st : store) (df : matrix R) : result (matrix R) :=
  match level with
  | O => Ok df
  | S l => FS.read_parquet
             (path_mrdmd ++ [DMD.level_dir l; var; "level_prediction"]) st
  end.

(** The answers of [overwrite_guard] for a variable whose folder exists
    under [p]: declined ("n") and approved ("y"). *)
Definition declined {ext : External} (p : path) (st : store) (var : string) : bool :=
  FS.is_dir (p ++ [var]) st && negb (overwrite p var).
Definition approved {ext : External} (p : path) (st : store) (var : string) : bool :=
  FS.is_dir (p ++ [var]) st && overwrite p var.


(** The dot product of two series. *)
Definition dot (a b : list R) : R := Base.rsum (zip_with Rmult a b).

(** The level-0 table [[1, 2]] of a variable [p] and the coordinate files
    of segment 0, as a one-level run leaves them. *)
Definition one_level_store : store :=
  {| files := <[ ["mr"; "level_0"; "0"; "x.pkl"] := PickleSeries [0%R] ]>
              (<[ ["mr"; "level_0"; "0"; "y.pkl"] := PickleSeries [0%R] ]>
               {[ ["mr"; "level_0"; "p"; "level_prediction"]
                  := Table [[1%R]; [2%R]] ]});
     dirs := ∅ |}.






(** The names of the artifacts that the stages keep in a variable's
    folder. *)
Definition artifact_names : list string :=
  ["u"; "v"; "s.pkl"; "Atilde.pkl"; "modes_real"; "modes_imag"; "b.pkl";
   "lambda.pkl"; "prediction"].


(** [folder.split("_")[0]]: the part of a name before its first
    underscore, the whole name when it has none. *)
Fixpoint before_underscore (s : string) : string :=
  match s with
  | EmptyString => EmptyString
  | String c s' =>
      if Ascii.eqb c "_"%char then EmptyString else String c (before_underscore s')
  end.

(** [files.iterdir()]: the names of the entries directly under [p].  The
    order of [iterdir] is unspecified, so the entries form a set. *)
Definition iterdir (p : path) (st : store) : gset string :=
  set_omap (λ q, if decide (p `prefix_of` q) then q !! length p else None)
           (dirs st ∪ dom (files st)).

(** [get_folderlist(path, boolPrint, ignoreStack, onlyStack)]; the printing
    is left out. *)
Definition get_folderlist (p : path) (ignoreStack onlyStack : bool)
    (st : store) : gset string * store :=
  let st := if FS.is_dir p st then st else FS.makedirs p st in
  let folderlist :=
    filter (λ f, FS.is_dir (p ++ [f]) st = true) (iterdir p st) in
  let folderlist :=
    if ignoreStack
    then filter (λ f, before_underscore f ≠ "stack") folderlist
    else folderlist in
  let folderlist :=
    if onlyStack
    then filter (λ f, before_underscore f = "stack") folderlist
    else folderlist in
  (folderlist, st).


(** Every file outside the folder [root] is in [st'] what it is in [st]. *)
Definition only_under (root : path) (st st' : store) : Prop :=
  ∀ q, ¬ root `prefix_of` q → files st' !! q = files st !! q.


(** * Properties *)

(** ** Timestep and decimation settings *)

(** C10: [set_time] stores [dt * data_skip] when the [data_skip] attribute
    currently holds a number and [dt] when it is missing or [None]; so
    calling [set_data_skip] before [set_time] gives the timestep
    [dt * data_skip], calling it afterwards leaves [dt], and the frequencies
    [log(Lambda) / self.dt] computed downstream differ accordingly. *)
Theorem set_time_effective_timestep (self : Self) (d t : R) (k : Z) (eigs : vect Cplx) :
  dt (Base.set_time self d t)
    = Some (match attr_value (data_skip self) with
            | Some k' => (d * IZR k')%R
            | None => d
            end)
  ∧ dt (Base.set_time (Base.set_data_skip self (Some k)) d t)
    = Some (d * IZR k)%R
  ∧ dt (Base.set_time (Base.set_data_skip self None) d t) = Some d
  ∧ dt (Base.set_time new_self d t) = Some d
  ∧ dt (Base.set_data_skip (Base.set_time new_self d t) (Some k)) = Some d
  ∧ (d' ← DMD.get_dt
             (Base.set_time (Base.set_data_skip new_self (Some k)) d t);
     Ok (DMD.omega_of d' eigs))
    = Ok (map (λ l, Cx.div_R (Cx.log l) (d * IZR k)) eigs)
  ∧ (d' ← DMD.get_dt
             (Base.set_data_skip (Base.set_time new_self d t) (Some k));
     Ok (DMD.omega_of d' eigs))
    = Ok (map (λ l, Cx.div_R (Cx.log l) d) eigs).
Proof.
  repeat split; try reflexivity.
  destruct self as [? ? [[?|]|] ? ?]; reflexivity.
Qed.

(** C6 (as the code has it): on an array, [data_decimate] applies the cutoff,
    then the cutin, then the stride; the cutoff count is a percentage of the
    column count of the input, the cutin count a percentage of the column
    count that the cutoff left; and for every 100-column array a cutoff of
    50 followed by a stride of 2 yields exactly the columns 0, 2, ..., 48. *)
Theorem data_decimate_cutoff_cutin_stride
    (self self' : Self) (m m100 : matrix R) (p q k : Z)
    (Hk : (0 < k)%Z)
    (Hcutin : attr_value (data_cutin self') = None)
    (H100 : length m100 = 100%nat) :
  (let kept := Py.slice_to (Py.int_div (Py.len m * p) 100) m in
   snd (Base.data_decimate
          (Base.set_data_skip
             (Base.set_data_cutin (Base.set_data_cutoff self (Some p)) (Some q))
             (Some k))
          (DaskArray m) false false)
   = Ok (DaskArray
           (Py.every (Z.to_nat k - 1)
              (Py.slice_from (Py.int_div (Py.len kept * q) 100) kept))))
  ∧ snd (Base.data_decimate
           (Base.set_data_skip (Base.set_data_cutoff self' (Some 50%Z))
                               (Some 2%Z))
           (DaskArray m100) false false)
    = Ok (DaskArray (columns_at (map (λ j, 2 * j)%nat (seq 0 25)) m100)).
Proof.
  split.
  - cbn. unfold Py.slice_step.
    destruct (Z.eqb_spec k 0) as [->|_]; [lia|].
    destruct (Z.ltb_spec 0 k); [reflexivity | lia].
  - unfold Base.data_decimate; cbn [snd].
    replace (attr_value (data_cutin (Base.decimate_defaults _))) with (@None Z)
      by (cbn; destruct self' as [? ? ? ? [[?|]|]]; cbn in *; congruence).
    do 100 (destruct m100 as [|? m100]; [discriminate H100|]).
    destruct m100; [|discriminate H100].
    reflexivity.
Qed.

Lemma data_decimate_cutoff_cutin_stride_witness :
  (0 < 2)%Z
  ∧ attr_value (data_cutin new_self) = None
  ∧ length (ramp 100) = 100%nat
  ∧ snd (Base.data_decimate
           (Base.set_data_skip (Base.set_data_cutoff new_self (Some 50%Z))
                               (Some 2%Z))
           (DaskArray (ramp 100)) false false)
    = Ok (DaskArray (columns_at (map (λ j, 2 * j)%nat (seq 0 25)) (ramp 100))).
Proof.
  split; [lia|]. split; [reflexivity|]. split; [reflexivity|].
  apply (data_decimate_cutoff_cutin_stride
           new_self new_self (ramp 8) (ramp 100) 50 50 2);
    [lia | reflexivity | reflexivity].
Defined.

(** C6, counterexample: with 100 columns, a cutoff of 50 and a cutin of 50
    the code keeps the columns 25 .. 49 (the cutin count is 50 % of the 50
    columns left), whereas a cutin count of 50 % of the 100 input columns
    would leave no column at all. *)
Lemma cutin_is_not_a_percentage_of_the_total :
  let self := Base.set_data_cutin (Base.set_data_cutoff new_self (Some 50%Z))
                                  (Some 50%Z) in
  snd (Base.data_decimate self (DaskArray (ramp 100)) false false)
    = Ok (DaskArray (columns_at (seq 25 25) (ramp 100)))
  ∧ snd (Base.data_decimate self (DaskArray (ramp 100)) false false)
    ≠ Ok (DaskArray (decimate_pct_of_total 50 50 (ramp 100))).
Proof.
  split; [reflexivity|].
  intros Heq.
  assert (Hlen : ∀ a b : matrix R,
             Ok (DaskArray a) = Ok (DaskArray b) → length a = length b)
    by (intros a b [= ->]; reflexivity).
  apply Hlen in Heq. vm_compute in Heq. discriminate Heq.
Qed.

(** ** Loops over the variables and the store *)

Section Loops.
Context {A S : Type}.

Lemma for_each_post (l : list A) (body : A → S → result S)
    (Inv : S → Prop) (Dom : A → Prop) (Post : A → S → Prop) :
  (∀ x, x ∈ l → Dom x) →
  (∀ x s, x ∈ l → Inv s →
     ∃ s', body x s = Ok s' ∧ Inv s' ∧ Post x s'
           ∧ ∀ y, Dom y → Post y s → Post y s') →
  ∀ s, Inv s →
    ∃ s', for_each l body s = Ok s' ∧ Inv s'
          ∧ (∀ x, x ∈ l → Post x s')
          ∧ ∀ y, Dom y → Post y s → Post y s'.
Proof.
  intros Hdom Hbody.
  assert (Hgen : ∀ k s, k ⊆ l → Inv s →
            ∃ s', for_each k body s = Ok s' ∧ Inv s'
                  ∧ (∀ x, x ∈ k → Post x s')
                  ∧ ∀ y, Dom y → Post y s → Post y s').
  { induction k as [|x k IH]; intros s Hk Hs.
    - exists s. repeat split; [assumption | | auto]. intros x Hx. inversion Hx.
    - destruct (Hbody x s) as (s1 & Hrun & Hinv1 & Hpost1 & Hkeep1);
        [apply Hk; left | assumption |].
      destruct (IH s1) as (s2 & Hrun2 & Hinv2 & Hpost2 & Hkeep2);
        [intros y Hy; apply Hk; right; exact Hy | assumption |].
      exists s2. cbn. rewrite Hrun. cbn. repeat split; try assumption.
      + intros y Hy. apply elem_of_cons in Hy as [->|Hy]; [|auto].
        apply Hkeep2; [apply Hdom, Hk; left | assumption].
      + intros y Hy Hp. auto. }
  intros s Hs. apply Hgen; done.
Qed.
End Loops.

Section Paths.
Lemma path_snoc_inj (p q : path) (a b : string) :
  p ++ [a] = q ++ [b] → p = q ∧ a = b.
Proof. intros Heq. apply app_inj_tail in Heq. exact Heq. Qed.

Lemma path_snoc2_inj (p q : path) (a b c d : string) :
  p ++ [a; b] = q ++ [c; d] → p = q ∧ a = c ∧ b = d.
Proof.
  intros Heq. apply app_inj_2 in Heq as [-> [= -> ->]]; done.
Qed.

Lemma path_snoc12_last (p q : path) (a c d : string) :
  p ++ [a] = q ++ [c; d] → a = d.
Proof.
  change (q ++ [c; d]) with (q ++ [c] ++ [d]). rewrite app_assoc.
  intros Heq. apply app_inj_tail in Heq. tauto.
Qed.
End Paths.

Section Decimate.
Lemma ensure_attr_idem {A} (a : attr A) : ensure_attr (ensure_attr a) = ensure_attr a.
Proof. destruct a; reflexivity. Qed.

Lemma decimate_defaults_idem (self : Self) :
  Base.decimate_defaults (Base.decimate_defaults self) = Base.decimate_defaults self.
Proof.
  unfold Base.decimate_defaults; cbn. rewrite !ensure_attr_idem. reflexivity.
Qed.

Lemma data_decimate_fst (self : Self) (df : frame) (a b : bool) :
  fst (Base.data_decimate self df a b) = Base.decimate_defaults self.
Proof. reflexivity. Qed.

Lemma data_decimate_defaults (self : Self) (df : frame) (a b : bool) :
  snd (Base.data_decimate (Base.decimate_defaults self) df a b)
  = snd (Base.data_decimate self df a b).
Proof.
  unfold Base.data_decimate. cbn [snd]. rewrite decimate_defaults_idem. reflexivity.
Qed.

Lemma same_decimation_step (s1 s2 : Self) (df : frame) (a b : bool) :
  same_decimation s1 s2 →
  same_decimation (fst (Base.data_decimate s1 df a b)) s2.
Proof.
  intros Hs df' a' b'. rewrite data_decimate_fst, data_decimate_defaults. apply Hs.
Qed.
End Decimate.

Section StoreFacts.
Lemma files_write (p q : path) (a : artifact) (st : store) :
  files (FS.write p a st) !! q = if decide (p = q) then Some a else files st !! q.
Proof. unfold FS.write; cbn. apply lookup_insert. Qed.

Lemma files_write_eq (p : path) (a : artifact) (st : store) :
  files (FS.write p a st) !! p = Some a.
Proof. rewrite files_write, decide_True; done. Qed.

Lemma files_write_ne (p q : path) (a : artifact) (st : store) :
  p ≠ q → files (FS.write p a st) !! q = files st !! q.
Proof. intros. rewrite files_write, decide_False; done. Qed.
End StoreFacts.

(** Decide whether two paths built by appending components can be equal. *)
Ltac path_neq :=
  let H := fresh in
  intros H;
  first
    [ apply path_snoc2_inj in H as (_ & _ & H); discriminate H
    | apply path_snoc2_inj in H as (_ & H & _); congruence
    | apply path_snoc12_last in H; subst; set_solver
    | symmetry in H; apply path_snoc12_last in H; subst; set_solver ].


Section DecimateFlags.
Lemma data_decimate_X1 (self : Self) (df : frame) :
  snd (Base.data_decimate self df true false)
  = (λ d, with_cols d (Py.slice_to (-1) (cols d)))
      <$> snd (Base.data_decimate self df false false).
Proof.
  unfold Base.data_decimate; cbn [snd].
  destruct (match attr_value (data_skip (Base.decimate_defaults self)) with
            | Some k => _ | None => _ end) as [c3|e]; [|reflexivity].
  destruct df; reflexivity.
Qed.

Lemma data_decimate_X2 (self : Self) (df : frame) :
  snd (Base.data_decimate self df false true)
  = (λ d, with_cols d (Py.slice_from 1 (cols d)))
      <$> snd (Base.data_decimate self df false false).
Proof.
  unfold Base.data_decimate; cbn [snd].
  destruct (match attr_value (data_skip (Base.decimate_defaults self)) with
            | Some k => _ | None => _ end) as [c3|e]; [|reflexivity].
  destruct df; reflexivity.
Qed.
End DecimateFlags.

Ltac store_unfold :=
  unfold utils.load_series, utils.load_matrix, utils.load_complex,
    utils.loadit, FS.read_parquet, utils.saveit, FS.to_parquet.

(** Close a goal about a lookup after some writes, given the lookups before. *)
Ltac store_lookup :=
  store_unfold; rewrite ?files_write;
  repeat case_decide; try done;
  try (match goal with
       | H : _ ++ _ = _ ++ _ |- _ => exfalso; revert H; path_neq
       end).


Section Loops2.
Context {ext : External}.

Lemma framed_refl (W : path → Prop) (self : Self) (st : store) :
  framed W self st (self, st).
Proof. repeat split; done. Qed.

Lemma load_frame_frame (pq : path) (mem : option frame) (var : string)
    (st st' : store) :
  files st' !! (pq ++ [var]) = files st !! (pq ++ [var]) →
  POD.load_frame pq mem var st' = POD.load_frame pq mem var st.
Proof.
  intros Heq. unfold POD.load_frame, FS.read_parquet.
  destruct mem; [reflexivity|]. rewrite Heq. reflexivity.
Qed.

Lemma load_array_frame (pq : path) (mem : option frame) (var : string)
    (st st' : store) :
  files st' !! (pq ++ [var]) = files st !! (pq ++ [var]) →
  DMD.load_array pq mem var st' = DMD.load_array pq mem var st.
Proof.
  intros Heq. unfold DMD.load_array, FS.read_parquet.
  destruct mem; [reflexivity|]. rewrite Heq. reflexivity.
Qed.

Lemma svd_loop_spec
    (self : Self) (variables : list string) (pq pod : path) (flag : bool)
    (mem : option frame) (st : store) (X D : string → matrix R)
    (Hnames : ∀ var, var ∈ variables → var ∉ ["u"; "v"; "s.pkl"])
    (HX : ∀ var, var ∈ variables →
            POD.load_frame pq mem var st = Ok (DaskFrame (X var)))
    (HD : ∀ var, var ∈ variables →
            snd (Base.data_decimate self (DaskFrame (X var)) flag false)
            = Ok (DaskFrame (D var))) :
  ∃ s',
    for_each variables (POD.svd_var pq pod flag mem) (self, st) = Ok s'
    ∧ framed (svd_outputs pod variables) self st s'
    ∧ ∀ var, var ∈ variables →
        files s'.2 !! (pod ++ [var; "u"]) = Some (Table (svd (D var)).1.1)
        ∧ files s'.2 !! (pod ++ [var; "v"]) = Some (Table (svd (D var)).2)
        ∧ files s'.2 !! (pod ++ [var; "s.pkl"])
          = Some (PickleSeries (svd (D var)).1.2).
Proof.
  pose (Post := λ (var : string) (s : Self * store),
         files s.2 !! (pod ++ [var; "u"]) = Some (Table (svd (D var)).1.1)
         ∧ files s.2 !! (pod ++ [var; "v"]) = Some (Table (svd (D var)).2)
         ∧ files s.2 !! (pod ++ [var; "s.pkl"])
           = Some (PickleSeries (svd (D var)).1.2)).
  destruct (for_each_post variables (POD.svd_var pq pod flag mem)
              (framed (svd_outputs pod variables) self st)
              (λ var, var ∈ variables) Post)
    with (s := (self, st)) as (s' & Hrun & Hfr & Hpost & _).
  - done.
  - intros var [self0 st0] Hvar (Hdec & Hdirs & Hfr). cbn [fst snd] in *.
    assert (Hl : POD.load_frame pq mem var st0 = Ok (DaskFrame (X var))).
    { rewrite <- (HX var Hvar). apply load_frame_frame, Hfr.
      intros (var' & name & Hvar' & Hname & Heq).
      apply path_snoc12_last in Heq. subst name.
      apply (Hnames var Hvar), Hname. }
    unfold POD.svd_var. rewrite Hl. cbn [mbind result_bind].
    pose proof (Hdec (DaskFrame (X var)) flag false) as Hd.
    rewrite (HD var Hvar) in Hd.
    destruct (Base.data_decimate self0 (DaskFrame (X var)) flag false)
      as [self1 r] eqn:Hrun.
    cbn [snd] in Hd. subst r. cbn [mbind result_bind POD.values].
    destruct (svd (D var)) as [[u sv] v] eqn:Hsvd.
    eexists. split; [reflexivity|].
    assert (Hself1 : self1 = fst (Base.data_decimate self0 (DaskFrame (X var)) flag false))
      by (rewrite Hrun; reflexivity).
    split; [|split].
    + repeat split; cbn [fst snd].
      * rewrite Hself1. apply same_decimation_step, Hdec.
      * exact Hdirs.
      * intros q Hq. store_unfold.
        rewrite !files_write_ne; [auto|intros Hq'; apply Hq; rewrite <- Hq'..];
          exists var; eexists; (split; [done|]); (split; [|done]); set_solver.
    + unfold Post; cbn [fst snd]. rewrite Hsvd; cbn [fst snd].
      repeat split; store_lookup.
    + intros var' Hvar' (Hu & Hv & Hs). unfold Post in *; cbn [fst snd] in *.
      destruct (decide (var' = var)) as [->|Hne].
      * rewrite Hsvd. cbn [fst snd]. repeat split; store_lookup.
      * repeat split; store_lookup.
  - apply framed_refl.
  - exists s'. repeat split; try apply Hfr; try done; apply (Hpost var); done.
Qed.

Lemma Atilde_loop_spec
    (self : Self) (variables : list string) (pq pod dmd : path)
    (mem : option frame) (st : store)
    (X X2 U V : string → matrix R) (S : string → vect R)
    (Hnames : ∀ var, var ∈ variables → var ≠ "Atilde.pkl")
    (HX : ∀ var, var ∈ variables →
            DMD.load_array pq mem var st = Ok (DaskArray (X var)))
    (HD : ∀ var, var ∈ variables →
            snd (Base.data_decimate self (DaskArray (X var)) false true)
            = Ok (DaskArray (X2 var)))
    (HU : ∀ var, var ∈ variables →
            files st !! (pod ++ [var; "u"]) = Some (Table (U var)))
    (HS : ∀ var, var ∈ variables →
            files st !! (pod ++ [var; "s.pkl"]) = Some (PickleSeries (S var)))
    (HV : ∀ var, var ∈ variables →
            files st !! (pod ++ [var; "v"]) = Some (Table (V var))) :
  ∃ s',
    for_each variables (DMD.Atilde_var pq pod dmd mem) (self, st) = Ok s'
    ∧ framed (Atilde_outputs dmd variables) self st s'
    ∧ ∀ var, var ∈ variables →
        files s'.2 !! (dmd ++ [var; "Atilde.pkl"])
        = Some (PickleMatrix (DMD.Atilde_of (U var) (S var) (V var) (X2 var))).
Proof.
  pose (Post := λ (var : string) (s : Self * store),
         files s.2 !! (dmd ++ [var; "Atilde.pkl"])
         = Some (PickleMatrix (DMD.Atilde_of (U var) (S var) (V var) (X2 var)))).
  destruct (for_each_post variables (DMD.Atilde_var pq pod dmd mem)
              (framed (Atilde_outputs dmd variables) self st)
              (λ var, var ∈ variables) Post)
    with (s := (self, st)) as (s' & Hrun & Hfr & Hpost & _).
  - done.
  - intros var [self0 st0] Hvar (Hdec & Hdirs & Hfr). cbn [fst snd] in *.
    assert (Hout : ∀ name, name ≠ "Atilde.pkl" →
              ¬ Atilde_outputs dmd variables (pod ++ [var; name])).
    { intros name Hname (var' & _ & Heq).
      apply path_snoc2_inj in Heq as (_ & _ & ?). done. }
    assert (Hl : DMD.load_array pq mem var st0 = Ok (DaskArray (X var))).
    { rewrite <- (HX var Hvar). apply load_array_frame, Hfr.
      intros (var' & Hvar' & Heq).
      apply path_snoc12_last in Heq. apply (Hnames var Hvar), Heq. }
    unfold DMD.Atilde_var. rewrite Hl. cbn [mbind result_bind].
    pose proof (Hdec (DaskArray (X var)) false true) as Hd.
    rewrite (HD var Hvar) in Hd.
    destruct (Base.data_decimate self0 (DaskArray (X var)) false true)
      as [self1 r] eqn:Hrun.
    cbn [snd] in Hd. subst r. cbn [mbind result_bind DMD.as_array].
    unfold utils.load_series, utils.loadit, FS.read_parquet.
    rewrite !Hfr by (apply Hout; done).
    rewrite (HU var Hvar), (HS var Hvar), (HV var Hvar).
    cbn [mbind result_bind].
    eexists. split; [reflexivity|].
    assert (Hself1 : self1 = fst (Base.data_decimate self0 (DaskArray (X var)) false true))
      by (rewrite Hrun; reflexivity).
    split; [|split].
    + repeat split; cbn [fst snd].
      * rewrite Hself1. apply same_decimation_step, Hdec.
      * exact Hdirs.
      * intros q Hq. unfold utils.saveit. rewrite files_write_ne; [auto|].
        intros Hq'. apply Hq. exists var. done.
    + unfold Post; cbn [fst snd]. unfold utils.saveit. apply files_write_eq.
    + intros var' Hvar' HP. unfold Post in *; cbn [fst snd] in *.
      unfold utils.saveit. rewrite files_write. case_decide as Heq; [|done].
      apply path_snoc2_inj in Heq as (_ & -> & _). reflexivity.
  - apply framed_refl.
  - exists s'. repeat split; try apply Hfr; done.
Qed.

Lemma modes_loop_spec
    (self : Self) (variables : list string) (pq dmd pod : path)
    (proj : bool) (mem : option frame) (st : store)
    (A U V X2 rest : string → matrix R) (S x0 : string → vect R)
    (Hnames : ∀ var, var ∈ variables →
                var ∉ ["modes_real"; "modes_imag"; "b.pkl"; "lambda.pkl"])
    (HX : ∀ var, var ∈ variables →
            DMD.load_array pq mem var st = Ok (DaskArray (x0 var :: rest var)))
    (HA : ∀ var, var ∈ variables →
            files st !! (dmd ++ [var; "Atilde.pkl"]) = Some (PickleMatrix (A var)))
    (HU : ∀ var, var ∈ variables →
            files st !! (pod ++ [var; "u"]) = Some (Table (U var)))
    (HV : ∀ var, var ∈ variables →
            files st !! (pod ++ [var; "v"]) = Some (Table (V var)))
    (HS : proj = false → ∀ var, var ∈ variables →
            files st !! (pod ++ [var; "s.pkl"]) = Some (PickleSeries (S var)))
    (HD : proj = false → ∀ var, var ∈ variables →
            snd (Base.data_decimate self (DaskArray (x0 var :: rest var))
                                    false true)
            = Ok (DaskArray (X2 var))) :
  ∃ s',
    for_each variables (DMD.modes_var pq dmd pod proj mem) (self, st) = Ok s'
    ∧ framed (modes_outputs dmd variables) self st s'
    ∧ ∀ var, var ∈ variables →
        let phi := modes_of proj (U var) (V var) (X2 var) (S var) (A var) in
        files s'.2 !! (dmd ++ [var; "modes_real"])
          = Some (Table (Mat.map2 Cx.re phi))
        ∧ files s'.2 !! (dmd ++ [var; "modes_imag"])
          = Some (Table (Mat.map2 Cx.im phi))
        ∧ files s'.2 !! (dmd ++ [var; "b.pkl"])
          = Some (PickleComplex (lstsq phi (x0 var)))
        ∧ files s'.2 !! (dmd ++ [var; "lambda.pkl"])
          = Some (PickleComplex (eig (A var)).1).
Proof.
  pose (Post := λ (var : string) (s : Self * store),
         let phi := modes_of proj (U var) (V var) (X2 var) (S var) (A var) in
         files s.2 !! (dmd ++ [var; "modes_real"])
           = Some (Table (Mat.map2 Cx.re phi))
         ∧ files s.2 !! (dmd ++ [var; "modes_imag"])
           = Some (Table (Mat.map2 Cx.im phi))
         ∧ files s.2 !! (dmd ++ [var; "b.pkl"])
           = Some (PickleComplex (lstsq phi (x0 var)))
         ∧ files s.2 !! (dmd ++ [var; "lambda.pkl"])
           = Some (PickleComplex (eig (A var)).1)).
  destruct (for_each_post variables (DMD.modes_var pq dmd pod proj mem)
              (framed (modes_outputs dmd variables) self st)
              (λ var, var ∈ variables) Post)
    with (s := (self, st)) as (s' & Hrun & Hfr & Hpost & _).
  - done.
  - intros var [self0 st0] Hvar (Hdec & Hdirs & Hfr). cbn [fst snd] in *.
    assert (Hout : ∀ p name,
              name ∉ ["modes_real"; "modes_imag"; "b.pkl"; "lambda.pkl"] →
              ¬ modes_outputs dmd variables (p ++ [var; name])).
    { intros p name Hname (var' & name' & _ & Hname' & Heq).
      apply path_snoc2_inj in Heq as (_ & _ & ->). done. }
    assert (Hl : DMD.load_array pq mem var st0
                 = Ok (DaskArray (x0 var :: rest var))).
    { rewrite <- (HX var Hvar). apply load_array_frame, Hfr.
      intros (var' & name & Hvar' & Hname & Heq).
      apply path_snoc12_last in Heq. subst name.
      apply (Hnames var Hvar), Hname. }
    unfold DMD.modes_var.
    unfold utils.load_matrix, utils.load_series, utils.loadit, FS.read_parquet.
    rewrite !Hfr by (apply Hout; set_solver).
    rewrite (HA var Hvar), (HU var Hvar), (HV var Hvar), Hl.
    cbn [mbind result_bind].
    destruct (eig (A var)) as [Lambda W] eqn:Heig.
    cbn [mbind result_bind].
    assert (Hfin : ∀ self1 phi,
              same_decimation self1 self →
              phi = modes_of proj (U var) (V var) (X2 var) (S var) (A var) →
              ∃ s',
                (let st1 := FS.to_parquet (Mat.map2 Cx.re phi)
                              (dmd ++ [var; "modes_real"]) st0 in
                 let st2 := FS.to_parquet (Mat.map2 Cx.im phi)
                              (dmd ++ [var; "modes_imag"]) st1 in
                 let b := lstsq phi (x0 var) in
                 let st3 := utils.saveit (PickleComplex b)
                              (dmd ++ [var; "b.pkl"]) st2 in
                 let st4 := utils.saveit (PickleComplex Lambda)
                              (dmd ++ [var; "lambda.pkl"]) st3 in
                 Ok (self1, st4)) = Ok s'
                ∧ framed (modes_outputs dmd variables) self st s'
                ∧ Post var s'
                ∧ ∀ y, y ∈ variables → Post y (self0, st0) → Post y s').
    { intros self1 phi Hdec1 Hphi. cbn zeta.
      eexists. split; [reflexivity|].
      assert (HL : Lambda = (eig (A var)).1) by (rewrite Heig; reflexivity).
      split; [|split].
      + repeat split; cbn [fst snd]; [exact Hdec1 | exact Hdirs |].
        intros q Hq. store_unfold.
        rewrite !files_write_ne; [auto|intros Hq'; apply Hq; rewrite <- Hq'..];
          exists var; eexists; (split; [done|]); (split; [|done]); set_solver.
      + unfold Post; cbn [fst snd]. cbn zeta. rewrite <- Hphi, <- HL.
        repeat split; store_lookup.
      + intros var' Hvar' (H1 & H2 & H3 & H4).
        unfold Post in *; cbn [fst snd] in *. cbn zeta in *.
        destruct (decide (var' = var)) as [->|Hne].
        * rewrite <- Hphi, <- HL. repeat split; store_lookup.
        * repeat split; store_lookup. }
    destruct proj.
    + cbn [mbind result_bind DMD.first_column].
      apply Hfin; [exact Hdec|]. unfold modes_of. rewrite Heig. reflexivity.
    + pose proof (Hdec (DaskArray (x0 var :: rest var)) false true) as Hd.
      rewrite (HD eq_refl var Hvar) in Hd.
      destruct (Base.data_decimate self0 (DaskArray (x0 var :: rest var))
                                   false true) as [self1 r] eqn:Hrun.
      cbn [snd] in Hd. subst r. cbn [mbind result_bind].
      rewrite (HS eq_refl var Hvar).
      cbn [mbind result_bind cols DMD.first_column].
      apply Hfin; [|unfold modes_of; rewrite Heig; reflexivity].
      replace self1 with
        (fst (Base.data_decimate self0 (DaskArray (x0 var :: rest var))
                                 false true)) by (rewrite Hrun; reflexivity).
      apply same_decimation_step, Hdec.
  - apply framed_refl.
  - exists s'. repeat split; try apply Hfr; try done; apply (Hpost var); done.
Qed.

Lemma prediction_loop_spec
    (self : Self) (variables : list string) (dmd : path) (e f : Z) (d : R)
    (st : store) (B L : string → vect Cplx) (Re Im : string → matrix R)
    (Hf : f ≠ 0%Z)
    (Hdt : dt self = Some d)
    (HB : ∀ var, var ∈ variables →
            files st !! (dmd ++ [var; "b.pkl"]) = Some (PickleComplex (B var)))
    (HL : ∀ var, var ∈ variables →
            files st !! (dmd ++ [var; "lambda.pkl"])
            = Some (PickleComplex (L var)))
    (HR : ∀ var, var ∈ variables →
            files st !! (dmd ++ [var; "modes_real"]) = Some (Table (Re var)))
    (HI : ∀ var, var ∈ variables →
            files st !! (dmd ++ [var; "modes_imag"]) = Some (Table (Im var))) :
  ∃ st',
    for_each variables (DMD.prediction_var self dmd f) (Some e, st)
    = Ok (Some e, st')
    ∧ dirs st' = dirs st
    ∧ (∀ q, ¬ prediction_outputs dmd variables q →
            files st' !! q = files st !! q)
    ∧ ∀ var, var ∈ variables →
        files st' !! (dmd ++ [var; "prediction"])
        = Some (Table (DMD.prediction_of (DMD.recombine (Re var) (Im var))
                         (B var) (DMD.omega_of d (L var)) (instants d e f))).
Proof.
  pose (Inv := λ s : option Z * store,
         s.1 = Some e ∧ dirs s.2 = dirs st
         ∧ ∀ q, ¬ prediction_outputs dmd variables q →
                files s.2 !! q = files st !! q).
  pose (Post := λ (var : string) (s : option Z * store),
         files s.2 !! (dmd ++ [var; "prediction"])
         = Some (Table (DMD.prediction_of (DMD.recombine (Re var) (Im var))
                          (B var) (DMD.omega_of d (L var)) (instants d e f)))).
  destruct (for_each_post variables (DMD.prediction_var self dmd f) Inv
              (λ var, var ∈ variables) Post)
    with (s := (Some e, st)) as ([en st'] & Hrun & (Hen & Hdirs & Hfr) & Hpost & _).
  - done.
  - intros var [en st0] Hvar (Hen & Hdirs & Hfr). cbn [fst snd] in *. subst en.
    assert (Hout : ∀ name, name ≠ "prediction" →
              ¬ prediction_outputs dmd variables (dmd ++ [var; name])).
    { intros name Hname (var' & _ & Heq).
      apply path_snoc2_inj in Heq as (_ & _ & ?). done. }
    unfold DMD.prediction_var, DMD.get_dt, DMD.time_axis.
    unfold utils.load_complex, utils.loadit, FS.read_parquet.
    rewrite !Hfr by (apply Hout; done).
    rewrite (HB var Hvar), (HL var Hvar), (HR var Hvar), (HI var Hvar), Hdt.
    cbn [mbind result_bind].
    destruct (Z.eqb_spec f 0) as [?|_]; [done|].
    cbn [mbind result_bind].
    eexists. split; [reflexivity|]. split; [|split].
    + repeat split; cbn [fst snd]; [exact Hdirs|].
      intros q Hq. unfold FS.to_parquet. rewrite files_write_ne; [auto|].
      intros Hq'. apply Hq. exists var. done.
    + unfold Post; cbn [fst snd]. unfold FS.to_parquet. apply files_write_eq.
    + intros var' Hvar' HP. unfold Post in *; cbn [fst snd] in *.
      unfold FS.to_parquet. rewrite files_write. case_decide as Heq; [|done].
      apply path_snoc2_inj in Heq as (_ & -> & _). reflexivity.
  - repeat split; done.
  - cbn [fst snd] in *. subst en. exists st'. repeat split; auto.
Qed.
End Loops2.

(** ** The stages of the pipeline *)

Section Stages.
Context {ext : External}.

(** C9 (as the code has it): the loop of [svd_save_usv] checks no column
    count and knows no [InsufficientData] error: for every variable whose
    snapshot matrix it can load and decimate, whatever the number of columns
    left (also fewer than 2), it hands the decimated matrix to the SVD
    routine and persists the factors [u], [v] and [s]. *)
Theorem svd_save_usv_any_width
    (self : Self) (variables : list string) (pq pod : path) (flag : bool)
    (mem : option frame) (st : store) (X D : string → matrix R)
    (Hnames : ∀ var, var ∈ variables → var ∉ ["u"; "v"; "s.pkl"])
    (HX : ∀ var, var ∈ variables →
            POD.load_frame pq mem var st = Ok (DaskFrame (X var)))
    (HD : ∀ var, var ∈ variables →
            snd (Base.data_decimate self (DaskFrame (X var)) flag false)
            = Ok (DaskFrame (D var))) :
  ∃ s',
    for_each variables (POD.svd_var pq pod flag mem) (self, st) = Ok s'
    ∧ ∀ var, var ∈ variables →
        files s'.2 !! (pod ++ [var; "u"]) = Some (Table (svd (D var)).1.1)
        ∧ files s'.2 !! (pod ++ [var; "v"]) = Some (Table (svd (D var)).2)
        ∧ files s'.2 !! (pod ++ [var; "s.pkl"])
          = Some (PickleSeries (svd (D var)).1.2).
Proof.
  destruct (svd_loop_spec self variables pq pod flag mem st X D Hnames HX HD)
    as (s' & Hrun & _ & Hpost).
  exists s'. split; assumption.
Qed.

(** C3: for every variable, [svd_save_usv] with [dmd_X1 = True] followed by
    [save_Atilde] persists [U.T @ X2 @ V.T @ diag(1 / S)], where [U], [S],
    [V] are the SVD factors of the decimated snapshot matrix without its last
    column and [X2] is the decimated snapshot matrix without its first
    column. *)
Theorem save_Atilde_formula
    (self : Self) (variables : list string) (pq pod dmd : path)
    (mem1 mem2 : option frame) (st : store) (X D : string → matrix R)
    (Hnames : ∀ var, var ∈ variables →
                var ∉ ["u"; "v"; "s.pkl"; "Atilde.pkl"])
    (HX1 : ∀ var, var ∈ variables →
             POD.load_frame pq mem1 var st = Ok (DaskFrame (X var)))
    (HX2 : ∀ var, var ∈ variables →
             DMD.load_array pq mem2 var st = Ok (DaskArray (X var)))
    (HDf : ∀ var, var ∈ variables →
             snd (Base.data_decimate self (DaskFrame (X var)) false false)
             = Ok (DaskFrame (D var)))
    (HDa : ∀ var, var ∈ variables →
             snd (Base.data_decimate self (DaskArray (X var)) false false)
             = Ok (DaskArray (D var))) :
  ∃ s1 s2,
    for_each variables (POD.svd_var pq pod true mem1) (self, st) = Ok s1
    ∧ for_each variables (DMD.Atilde_var pq pod dmd mem2) s1 = Ok s2
    ∧ ∀ var, var ∈ variables →
        let X1 := Py.slice_to (-1) (D var) in
        let X2 := Py.slice_from 1 (D var) in
        let U := (svd X1).1.1 in
        let S := (svd X1).1.2 in
        let V := (svd X1).2 in
        files s2.2 !! (dmd ++ [var; "Atilde.pkl"])
        = Some (PickleMatrix
                  (Rmatmul (Rmatmul (Rmatmul (Rtranspose U) X2) (Rtranspose V))
                           (Rdiag (map Rinv S)))).
Proof.
  destruct (svd_loop_spec self variables pq pod true mem1 st X
              (λ var, Py.slice_to (-1) (D var)))
    as ([self1 st1] & Hrun1 & (Hdec1 & _ & Hfr1) & Hpost1).
  - intros var Hvar. pose proof (Hnames var Hvar). set_solver.
  - exact HX1.
  - intros var Hvar. rewrite data_decimate_X1, (HDf var Hvar). reflexivity.
  - cbn [fst snd] in *.
    destruct (Atilde_loop_spec self1 variables pq pod dmd mem2 st1 X
                (λ var, Py.slice_from 1 (D var))
                (λ var, (svd (Py.slice_to (-1) (D var))).1.1)
                (λ var, (svd (Py.slice_to (-1) (D var))).2)
                (λ var, (svd (Py.slice_to (-1) (D var))).1.2))
      as (s2 & Hrun2 & _ & Hpost2).
    + intros var Hvar. pose proof (Hnames var Hvar). set_solver.
    + intros var Hvar. rewrite <- (HX2 var Hvar). apply load_array_frame, Hfr1.
      intros (var' & name & Hvar' & Hname & Heq).
      apply path_snoc12_last in Heq. subst name.
      pose proof (Hnames var Hvar). set_solver.
    + intros var Hvar. rewrite Hdec1, data_decimate_X2, (HDa var Hvar).
      reflexivity.
    + intros var Hvar. apply (Hpost1 var Hvar).
    + intros var Hvar. apply (Hpost1 var Hvar).
    + intros var Hvar. apply (Hpost1 var Hvar).
    + exists (self1, st1), s2. repeat split; [assumption..|].
      intros var Hvar. cbn zeta. apply (Hpost2 var Hvar).
Qed.

(** C4: for every variable, [save_modes] persists as [b] the least-squares
    solution of [Phi b = x0], where [x0] is the first column of the snapshot
    matrix as loaded, before any decimation, whatever the decimation
    settings; [Phi] is persisted as its real and imaginary parts. *)
Theorem save_modes_amplitudes
    (self : Self) (variables : list string) (pq dmd pod : path)
    (proj : bool) (mem : option frame) (st : store)
    (A U V X2 rest : string → matrix R) (S x0 : string → vect R)
    (Hnames : ∀ var, var ∈ variables →
                var ∉ ["modes_real"; "modes_imag"; "b.pkl"; "lambda.pkl"])
    (HX : ∀ var, var ∈ variables →
            DMD.load_array pq mem var st = Ok (DaskArray (x0 var :: rest var)))
    (HA : ∀ var, var ∈ variables →
            files st !! (dmd ++ [var; "Atilde.pkl"]) = Some (PickleMatrix (A var)))
    (HU : ∀ var, var ∈ variables →
            files st !! (pod ++ [var; "u"]) = Some (Table (U var)))
    (HV : ∀ var, var ∈ variables →
            files st !! (pod ++ [var; "v"]) = Some (Table (V var)))
    (HS : proj = false → ∀ var, var ∈ variables →
            files st !! (pod ++ [var; "s.pkl"]) = Some (PickleSeries (S var)))
    (HD : proj = false → ∀ var, var ∈ variables →
            snd (Base.data_decimate self (DaskArray (x0 var :: rest var))
                                    false true)
            = Ok (DaskArray (X2 var))) :
  ∃ s',
    DMD.save_modes self variables pq dmd pod proj mem st = Ok s'
    ∧ ∀ var, var ∈ variables →
        let W := (eig (A var)).2 in
        let Phi := if proj then Cmatmul (to_complex (U var)) W
                   else Cmatmul
                          (to_complex
                             (Rmatmul (Rmatmul (X2 var) (Rtranspose (V var)))
                                      (Rdiag (map Rinv (S var)))))
                          W in
        files s'.2 !! (dmd ++ [var; "b.pkl"])
          = Some (PickleComplex (lstsq Phi (x0 var)))
        ∧ files s'.2 !! (dmd ++ [var; "modes_real"])
          = Some (Table (Mat.map2 Cx.re Phi))
        ∧ files s'.2 !! (dmd ++ [var; "modes_imag"])
          = Some (Table (Mat.map2 Cx.im Phi)).
Proof.
  destruct (modes_loop_spec self variables pq dmd pod proj mem st
              A U V X2 rest S x0 Hnames HX HA HU HV HS HD)
    as (s' & Hrun & _ & Hpost).
  exists s'. split; [exact Hrun|].
  intros var Hvar. destruct (Hpost var Hvar) as (Hr & Hi & Hb & _).
  unfold modes_of, DMD.phi_projection, DMD.phi_exact in *.
  cbn zeta in *. destruct proj; auto.
Qed.

Lemma Cx_exp_zero (w : Cplx) : Cx.exp (Cx.mul_R w 0) = Cx.of_R 1.
Proof.
  unfold Cx.exp, Cx.mul_R, Cx.of_R; cbn [Cx.re Cx.im fst snd].
  rewrite !Rmult_0_r, exp_0, cos_0, sin_0. f_equal; lra.
Qed.

Lemma Cx_mul_one (z : Cplx) : Cx.mul z (Cx.of_R 1) = z.
Proof.
  destruct z as [x y]. unfold Cx.mul, Cx.of_R; cbn [Cx.re Cx.im fst snd].
  f_equal; lra.
Qed.

(** At the instant 0 the dynamics are the amplitudes. *)
Lemma dynamics_at_zero (b omega : vect Cplx) :
  length b = length omega → DMD.dynamics_at b omega 0 = b.
Proof.
  unfold DMD.dynamics_at. revert omega.
  induction b as [|z b IH]; intros [|w omega] Hlen; try discriminate; [reflexivity|].
  cbn [map zip_with]. rewrite Cx_exp_zero, Cx_mul_one. f_equal.
  apply IH. cbn in Hlen. lia.
Qed.

Lemma prediction_var_end_none (self : Self) (dmd : path) (f : Z) (var : string)
    (st : store) (b l : vect Cplx) (re im : matrix R) :
  files st !! (dmd ++ [var; "b.pkl"]) = Some (PickleComplex b) →
  files st !! (dmd ++ [var; "lambda.pkl"]) = Some (PickleComplex l) →
  files st !! (dmd ++ [var; "modes_real"]) = Some (Table re) →
  files st !! (dmd ++ [var; "modes_imag"]) = Some (Table im) →
  DMD.prediction_var self dmd f var (None, st)
  = DMD.prediction_var self dmd f var
      (Some (Py.len (DMD.recombine re im)), st).
Proof.
  intros Hb Hl Hr Hi. unfold DMD.prediction_var.
  unfold utils.load_complex, utils.loadit, FS.read_parquet.
  rewrite Hb, Hl, Hr, Hi. reflexivity.
Qed.

(** C5: for every variable and every frame skip [f], [save_prediction]
    persists [Re(Phi @ dynamics)] whose column [i] of [dynamics] is
    [b * exp(omega * t_i)] with [t_i = i * f * dt] and
    [omega = log(Lambda) / dt]; its first column, when there is one, is
    [Re(Phi @ b)]. *)
Theorem save_prediction_dynamics
    (self : Self) (variables : list string) (dmd : path) (end_ : option Z)
    (f : Z) (d : R) (st : store) (B L : string → vect Cplx)
    (Re Im : string → matrix R)
    (Hf : f ≠ 0%Z)
    (Hdt : dt self = Some d)
    (HB : ∀ var, var ∈ variables →
            files st !! (dmd ++ [var; "b.pkl"]) = Some (PickleComplex (B var)))
    (HL : ∀ var, var ∈ variables →
            files st !! (dmd ++ [var; "lambda.pkl"])
            = Some (PickleComplex (L var)))
    (HR : ∀ var, var ∈ variables →
            files st !! (dmd ++ [var; "modes_real"]) = Some (Table (Re var)))
    (HI : ∀ var, var ∈ variables →
            files st !! (dmd ++ [var; "modes_imag"]) = Some (Table (Im var)))
    (Hlen : ∀ var, var ∈ variables → length (B var) = length (L var)) :
  ∃ st',
    DMD.save_prediction self variables dmd end_ f st = Ok st'
    ∧ ∀ var, var ∈ variables →
        let n := Z.to_nat (- ((- effective_end end_ variables Re Im) `div` f)) in
        let Phi := DMD.recombine (Re var) (Im var) in
        let omega := map (λ l, Cx.div_R (Cx.log l) d) (L var) in
        let dynamics :=
          map (λ i, zip_with Cx.mul (B var)
                      (map (λ w, Cx.exp (Cx.mul_R w (IZR (Z.of_nat i * f) * d)))
                           omega))
              (seq 0 n) in
        let prediction := Mat.map2 Cx.re (Cmatmul Phi dynamics) in
        files st' !! (dmd ++ [var; "prediction"]) = Some (Table prediction)
        ∧ head prediction
          = match n with
            | O => None
            | S _ => Some (map Cx.re
                             (Mat.mat_vec Cx.zero Cx.add Cx.mul Phi (B var)))
            end.
Proof.
  set (e := effective_end end_ variables Re Im).
  assert (Hstart : snd <$> for_each variables (DMD.prediction_var self dmd f)
                                    (end_, st)
                   = snd <$> for_each variables (DMD.prediction_var self dmd f)
                                      (Some e, st)).
  { subst e. destruct end_ as [e0|]; [reflexivity|].
    destruct variables as [|var vs]; [reflexivity|].
    cbn [for_each effective_end].
    rewrite (prediction_var_end_none self dmd f var st (B var) (L var)
               (Re var) (Im var)); auto using list_elem_of_here. }
  destruct (prediction_loop_spec self variables dmd e f d st B L Re Im
              Hf Hdt HB HL HR HI) as (st' & Hrun & _ & _ & Hpost).
  exists st'. split.
  - unfold DMD.save_prediction. rewrite Hstart, Hrun. reflexivity.
  - intros var Hvar. cbn zeta. split.
    { rewrite (Hpost var Hvar). unfold DMD.prediction_of, instants.
      rewrite map_map. reflexivity. }
    destruct (Z.to_nat _) as [|n]; [reflexivity|].
    cbn [seq map head Mat.map2 Cmatmul Mat.matmul].
    do 2 f_equal.
    change (Z.of_nat 0 * f)%Z with 0%Z. rewrite Rmult_0_l.
    change (zip_with Cx.mul (B var)
              (map (λ w, Cx.exp (Cx.mul_R w 0))
                   (map (λ l, Cx.div_R (Cx.log l) d) (L var))))
      with (DMD.dynamics_at (B var) (DMD.omega_of d (L var)) 0).
    rewrite dynamics_at_zero; [reflexivity|].
    unfold DMD.omega_of. rewrite length_map. apply Hlen, Hvar.
Qed.

End Stages.

(** *** The stages on concrete data *)

Section StageWitnesses.
Local Open Scope R_scope.

(** Discharge a hypothesis about every variable of a one-element list. *)
Ltac one_variable :=
  let var := fresh "var" in
  let Hvar := fresh "Hvar" in
  intros var Hvar; apply list_elem_of_singleton in Hvar; subst var;
  try set_solver; try (vm_compute; reflexivity).

Lemma svd_save_usv_any_width_witness :
  ∃ s',
    for_each ["p"] (POD.svd_var (ext := OneMode.external) ["data"] ["usv"]
                                false None)
             (new_self, narrow_store) = Ok s'
    ∧ ∀ var, var ∈ ["p"] →
        files s'.2 !! (["usv"] ++ [var; "u"])
          = Some (Table (OneMode.svd1 [[3; 4]]).1.1)
        ∧ files s'.2 !! (["usv"] ++ [var; "v"])
          = Some (Table (OneMode.svd1 [[3; 4]]).2)
        ∧ files s'.2 !! (["usv"] ++ [var; "s.pkl"])
          = Some (PickleSeries (OneMode.svd1 [[3; 4]]).1.2).
Proof.
  apply (svd_save_usv_any_width (ext := OneMode.external) new_self ["p"]
           ["data"] ["usv"] false None narrow_store
           (λ _, [[3; 4]]) (λ _, [[3; 4]])); one_variable.
Defined.

Lemma save_Atilde_formula_witness :
  ∃ s1 s2,
    for_each ["p"] (POD.svd_var (ext := OneMode.external) ["data"] ["usv"]
                                true None)
             (new_self, geometric_store) = Ok s1
    ∧ for_each ["p"] (DMD.Atilde_var ["data"] ["usv"] ["dmd"] None) s1 = Ok s2
    ∧ ∀ var, var ∈ ["p"] →
        let X1 := Py.slice_to (-1) [[1]; [2]] in
        let X2 := Py.slice_from 1 [[1]; [2]] in
        let U := (OneMode.svd1 X1).1.1 in
        let S := (OneMode.svd1 X1).1.2 in
        let V := (OneMode.svd1 X1).2 in
        files s2.2 !! (["dmd"] ++ [var; "Atilde.pkl"])
        = Some (PickleMatrix
                  (Rmatmul (Rmatmul (Rmatmul (Rtranspose U) X2) (Rtranspose V))
                           (Rdiag (map Rinv S)))).
Proof.
  apply (save_Atilde_formula (ext := OneMode.external) new_self ["p"]
           ["data"] ["usv"] ["dmd"] None None geometric_store
           (λ _, [[1]; [2]]) (λ _, [[1]; [2]])); one_variable.
Defined.

Lemma save_modes_amplitudes_witness :
  ∃ s',
    DMD.save_modes (ext := OneMode.external) new_self ["p"] ["data"] ["dmd"]
                   ["usv"] true None one_mode_store = Ok s'
    ∧ ∀ var, var ∈ ["p"] →
        let W := (OneMode.eig1 [[2]]).2 in
        let Phi := Cmatmul (to_complex [[1]]) W in
        files s'.2 !! (["dmd"] ++ [var; "b.pkl"])
          = Some (PickleComplex (OneMode.lstsq1 Phi [1]))
        ∧ files s'.2 !! (["dmd"] ++ [var; "modes_real"])
          = Some (Table (Mat.map2 Cx.re Phi))
        ∧ files s'.2 !! (["dmd"] ++ [var; "modes_imag"])
          = Some (Table (Mat.map2 Cx.im Phi)).
Proof.
  apply (save_modes_amplitudes (ext := OneMode.external) new_self ["p"]
           ["data"] ["dmd"] ["usv"] true None one_mode_store
           (λ _, [[2]]) (λ _, [[1]]) (λ _, [[1]]) (λ _, []) (λ _, [[2]])
           (λ _, []) (λ _, [1]));
    try discriminate; one_variable.
Defined.

Lemma save_prediction_dynamics_witness :
  ∃ st',
    DMD.save_prediction (Base.set_time new_self 1 0) ["p"] ["dmd"] (Some 2%Z)
                        1 one_mode_store = Ok st'
    ∧ ∀ var, var ∈ ["p"] →
        let Phi := DMD.recombine [[1]] [[0]] in
        let omega := map (λ l, Cx.div_R (Cx.log l) 1) [Cx.of_R 2] in
        let dynamics :=
          map (λ i, zip_with Cx.mul [Cx.of_R 1]
                      (map (λ w, Cx.exp (Cx.mul_R w (IZR (Z.of_nat i * 1) * 1)))
                           omega))
              (seq 0 2) in
        let prediction := Mat.map2 Cx.re (Cmatmul Phi dynamics) in
        files st' !! (["dmd"] ++ [var; "prediction"]) = Some (Table prediction)
        ∧ head prediction
          = Some (map Cx.re
                      (Mat.mat_vec Cx.zero Cx.add Cx.mul Phi [Cx.of_R 1])).
Proof.
  apply (save_prediction_dynamics (Base.set_time new_self 1 0) ["p"] ["dmd"]
           (Some 2%Z) 1 1 one_mode_store
           (λ _, [Cx.of_R 1]) (λ _, [Cx.of_R 2]) (λ _, [[1]]) (λ _, [[0]]));
    [lia | reflexivity | one_variable..].
Defined.

Lemma norm_3_4 : OneMode.norm [3; 4] = 5.
Proof.
  unfold OneMode.norm, sumsq, Base.rsum. cbn.
  replace (3 * 3 + (4 * 4 + 0)) with (5 * 5) by lra.
  apply sqrt_square. lra.
Qed.

(** C9, counterexample: on a snapshot matrix with a single column (3, 4)
    [svd_save_usv] raises nothing; it returns normally and persists the
    factors [u = (3/5, 4/5)], [s = (5)] and [v = (1)]. *)
Lemma svd_save_usv_one_column_succeeds :
  Mat.ncols [[3; 4]] = 1%nat
  ∧ ∃ self' st',
      POD.svd_save_usv (ext := OneMode.external) new_self ["p"] ["data"]
                       ["usv"] false None narrow_store = Ok (self', st')
      ∧ files st' !! ["usv"; "p"; "s.pkl"] = Some (PickleSeries [5])
      ∧ files st' !! ["usv"; "p"; "u"] = Some (Table [[3/5; 4/5]])
      ∧ files st' !! ["usv"; "p"; "v"] = Some (Table [[1]]).
Proof.
  split; [reflexivity|].
  assert (Hg : POD.overwrite_guard (ext := OneMode.external) ["usv"] ["p"]
                                   narrow_store
               = Ok (["p"], FS.makedirs ["usv"] narrow_store))
    by (vm_compute; reflexivity).
  unfold POD.svd_save_usv. rewrite Hg. cbn [mbind result_bind].
  assert (Hc : POD.copy_coordinates ["data"] ["usv"]
                                    (FS.makedirs ["usv"] narrow_store)
               = FS.makedirs ["usv"] narrow_store) by (vm_compute; reflexivity).
  rewrite Hc. cbn [for_each mbind result_bind]. unfold POD.svd_var.
  assert (Hl : POD.load_frame ["data"] None "p"
                              (FS.makedirs ["usv"] narrow_store)
               = Ok (DaskFrame [[3; 4]])) by (vm_compute; reflexivity).
  rewrite Hl. cbn [mbind result_bind].
  change (Base.data_decimate new_self (DaskFrame [[3; 4]]) false false)
    with (Base.decimate_defaults new_self, Ok (DaskFrame [[3; 4]])).
  cbn [mbind result_bind POD.values svd OneMode.external OneMode.svd1].
  rewrite norm_3_4.
  eexists _, _. split; [reflexivity|].
  unfold utils.saveit, FS.to_parquet.
  repeat split; reflexivity.
Qed.

End StageWitnesses.

(** ** The slow-mode filter *)

Section SlowFilter.











End SlowFilter.


(** ** Multiresolution DMD *)

Section Multires.
Local Open Scope R_scope.

(** *** The truncation and the segments *)

Lemma adjust_nonneg (n i : Z) : (0 ≤ i ≤ n)%Z → Py.adjust n i = Z.to_nat i.
Proof.
  intros H. unfold Py.adjust.
  destruct (Z.ltb_spec i 0); [lia|]. f_equal. lia.
Qed.

Lemma segment_of_take_drop (df : matrix R) (s i : nat) :
  ((i + 1) * s ≤ length df)%nat →
  DMD.segment_of df s i = take s (drop (i * s) df).
Proof.
  intros H. unfold DMD.segment_of, Py.slice, Py.len.
  rewrite !adjust_nonneg by lia. rewrite !Nat2Z.id.
  f_equal. lia.
Qed.

Lemma concat_segments (df : matrix R) (s k : nat) :
  (k * s ≤ length df)%nat →
  concat (map (DMD.segment_of df s) (Py.range k)) = take (k * s) df.
Proof.
  unfold Py.range. induction k as [|k IH]; intros H.
  - by rewrite take_0.
  - rewrite seq_S, map_app, concat_app, IH by lia. cbn [map concat plus].
    rewrite app_nil_r, segment_of_take_drop by lia.
    replace (S k * s)%nat with (k * s + s)%nat by lia.
    by rewrite take_take_drop.
Qed.

Lemma truncate_columns_take (df : matrix R) (levels : nat) (e : Z) :
  (0 ≤ e ≤ Py.len df)%Z →
  DMD.truncate_columns levels e df
  = take (Z.to_nat (e - e `mod` 2 ^ Z.of_nat levels)) df.
Proof.
  intros H. unfold DMD.truncate_columns, Py.slice_to.
  assert (0 < 2 ^ Z.of_nat levels)%Z by (apply Z.pow_pos_nonneg; lia).
  pose proof (Z.mod_pos_bound e (2 ^ Z.of_nat levels) ltac:(lia)).
  pose proof (Z.mod_le e (2 ^ Z.of_nat levels) ltac:(lia) ltac:(lia)).
  rewrite adjust_nonneg by lia. reflexivity.
Qed.

Lemma truncated_width (levels : nat) (e : Z) :
  (0 ≤ e)%Z →
  Z.to_nat (e - e `mod` 2 ^ Z.of_nat levels)
  = (Z.to_nat (e `div` 2 ^ Z.of_nat levels) * 2 ^ levels)%nat.
Proof.
  intros H.
  assert (0 < 2 ^ Z.of_nat levels)%Z by (apply Z.pow_pos_nonneg; lia).
  pose proof (Z.div_mod e (2 ^ Z.of_nat levels) ltac:(lia)).
  pose proof (Z.div_pos e (2 ^ Z.of_nat levels) ltac:(lia) ltac:(lia)).
  apply Nat2Z.inj. rewrite Nat2Z.inj_mul, Nat2Z.inj_pow, !Z2Nat.id; [|lia|].
  - change (Z.of_nat 2) with 2%Z. lia.
  - pose proof (Z.mod_le e (2 ^ Z.of_nat levels) ltac:(lia) ltac:(lia)). lia.
Qed.

(** [ensure_dir] makes directories only. *)
Lemma files_make_level_dirs (mr : path) (levels : nat) (st : store) :
  files (DMD.make_level_dirs mr levels st) = files st.
Proof.
  unfold DMD.make_level_dirs. generalize (Py.range levels). intros l.
  revert st. induction l as [|x l IH]; intros st; [reflexivity|].
  cbn [foldl]. rewrite IH. generalize (Py.range (2 ^ x)). intros l2.
  clear. revert st. induction l2 as [|y l2 IH]; intros st; [reflexivity|].
  cbn [foldl]. rewrite IH. reflexivity.
Qed.

(** X3: with the default [end=None] the truncation [end - end % 2**levels]
    raises a [TypeError] as soon as the variable has been read. *)
Lemma multires_end_none_raises {ext : External} (self : Self)
    (variables : list string) (pq mr : path) (levels : nat) (var : string)
    (st : store) (m : matrix R) :
  files st !! (pq ++ [var]) = Some (Table m) →
  DMD.multires_var variables pq mr levels None var (self, st) = Raise TypeError.
Proof.
  intros Hm. unfold DMD.multires_var, FS.read_parquet.
  rewrite files_make_level_dirs, Hm. reflexivity.
Qed.

(** C7 (as the code has it): given [end] between 0 and the number of
    columns, level 0 of [multires] works on the first
    [end - end mod 2^levels] columns of the snapshot matrix, a multiple of
    [2^levels]; and at a level [L < levels], whose input [d] has that many
    columns, the [2^L] segments [d[:, i*s : (i+1)*s]] with
    [s = len(d) / 2^L] are contiguous, of [s] columns each, and together
    they are [d]. *)
Theorem multires_truncation_and_segments
    (df : matrix R) (levels : nat) (e : Z) :
  (0 ≤ e ≤ Py.len df)%Z →
  let df0 := DMD.truncate_columns levels e df in
  let n := Z.to_nat (e - e `mod` 2 ^ Z.of_nat levels) in
  df0 = take n df
  ∧ length df0 = n
  ∧ n = (Z.to_nat (e `div` 2 ^ Z.of_nat levels) * 2 ^ levels)%nat
  ∧ ∀ (d : matrix R) (L : nat),
      length d = n → (L < levels)%nat →
      let s := (length d / 2 ^ L)%nat in
      (2 ^ L * s = length d)%nat
      ∧ (∀ i, (i < 2 ^ L)%nat →
              DMD.segment_of d s i = take s (drop (i * s) d)
              ∧ length (DMD.segment_of d s i) = s)
      ∧ concat (map (DMD.segment_of d s) (Py.range (2 ^ L))) = d.
Proof.
  intros He df0 n.
  assert (Hn : n = (Z.to_nat (e `div` 2 ^ Z.of_nat levels) * 2 ^ levels)%nat)
    by (apply truncated_width; lia).
  assert (Hdf0 : df0 = take n df) by (apply truncate_columns_take; lia).
  assert (Hlen : length df0 = n).
  { rewrite Hdf0, length_take. unfold Py.len in He.
    assert (0 < 2 ^ Z.of_nat levels)%Z by (apply Z.pow_pos_nonneg; lia).
    pose proof (Z.mod_pos_bound e (2 ^ Z.of_nat levels) ltac:(lia)).
    subst n. lia. }
  split; [assumption|]. split; [assumption|]. split; [assumption|].
  intros d L Hd HL s.
  assert (Hs : (2 ^ L * s = length d)%nat).
  { subst s. rewrite Hd, Hn.
    replace (2 ^ levels)%nat with (2 ^ (levels - L) * 2 ^ L)%nat
      by (rewrite <- Nat.pow_add_r; f_equal; lia).
    rewrite Nat.mul_assoc, Nat.div_mul by (apply Nat.pow_nonzero; lia). lia. }
  split; [assumption|]. split.
  - intros i Hi.
    assert (Hle : ((i + 1) * s ≤ length d)%nat) by nia.
    rewrite segment_of_take_drop by assumption.
    split; [reflexivity|]. rewrite length_take, length_drop. nia.
  - rewrite concat_segments by lia. apply take_ge. lia.
Qed.

Lemma multires_truncation_and_segments_witness :
  let df0 := DMD.truncate_columns 2 12 (ramp 12) in
  let n := Z.to_nat (12 - 12 `mod` 2 ^ Z.of_nat 2) in
  df0 = take n (ramp 12)
  ∧ length df0 = n
  ∧ n = (Z.to_nat (12 `div` 2 ^ Z.of_nat 2) * 2 ^ 2)%nat
  ∧ ∀ (d : matrix R) (L : nat),
      length d = n → (L < 2)%nat →
      let s := (length d / 2 ^ L)%nat in
      (2 ^ L * s = length d)%nat
      ∧ (∀ i, (i < 2 ^ L)%nat →
              DMD.segment_of d s i = take s (drop (i * s) d)
              ∧ length (DMD.segment_of d s i) = s)
      ∧ concat (map (DMD.segment_of d s) (Py.range (2 ^ L))) = d.
Proof.
  apply (multires_truncation_and_segments (ramp 12) 2 12).
  vm_compute. split; discriminate.
Defined.

Lemma not_a_power_of_two_12 (k : nat) : (2 ^ k)%nat ≠ 12%nat.
Proof.
  destruct (le_lt_dec 4 k) as [H|H].
  - pose proof (Nat.pow_le_mono_r 2 4 k ltac:(lia) H) as Hp.
    change (2 ^ 4)%nat with 16%nat in Hp. lia.
  - do 4 (destruct k as [|k]; [cbn; lia|]). lia.
Qed.

(** C7, counterexample: with 12 snapshots, [levels = 2] and [end = 12] the
    level-0 input keeps all 12 columns, and so does the level-0 table that
    the run persists; 12 is a multiple of 4 and no power of 2. *)
Lemma multires_level_0_not_a_power_of_two :
  length (DMD.truncate_columns 2 12 (ramp 12)) = 12%nat
  ∧ table_width ["mr"; "level_0"; "p"; "level_prediction"]
      (DMD.multires (ext := OneMode.external) unit_self ["p"]
                    ["data"] ["mr"] 2 (Some 12%Z) twelve_store)
    = Some 12%nat
  ∧ ∀ k, (2 ^ k)%nat ≠ 12%nat.
Proof.
  split; [reflexivity|]. split; [vm_compute; reflexivity|].
  apply not_a_power_of_two_12.
Qed.

(** *** What a level persists and what [multires_predict] sums *)

Lemma bind_Ok {A B} (r : result A) (k : A → result B) (b : B) :
  r ≫= k = Ok b → ∃ a, r = Ok a ∧ k a = Ok b.
Proof. destruct r as [a|e]; cbn; [eauto|discriminate]. Qed.

Lemma mapM_Ok {A B} (f : A → result B) (l : list A) (r : list B) :
  mapM f l = Ok r → Forall2 (λ x y, f x = Ok y) l r.
Proof.
  revert r. induction l as [|x l IH]; intros r H; cbn in H.
  - injection H as <-. constructor.
  - apply bind_Ok in H as (y & Hy & H).
    apply bind_Ok in H as (k & Hk & H).
    injection H as <-. constructor; [exact Hy|]. by apply IH.
Qed.

Lemma read_parquet_Ok (p : path) (st : store) (m : matrix R) :
  FS.read_parquet p st = Ok m → files st !! p = Some (Table m).
Proof.
  unfold FS.read_parquet.
  destruct (files st !! p) as [[| | |]|]; intros H; try discriminate H.
  by injection H as ->.
Qed.

(** X1: a level that returns has subtracted the concatenation of its segments'
    predictions from its input, and what it persists as [level_prediction]
    is that difference, the residual that the next level reads. *)
Lemma level_step_persists_residual {ext : External} (variables : list string)
    (pq mr : path) (var : string) (level : nat) (self self' : Self)
    (st st' : store) (df df' : matrix R) :
  DMD.level_step variables pq mr var level (self, st, df) = Ok (self', st', df') →
  ∃ d preds,
    level_input mr var level st df = Ok d
    ∧ Forall2 (λ i P, files st' !! (mr ++ [DMD.level_dir level; pretty i; var;
                                           "prediction"])
                      = Some (Table P))
              (Py.range (2 ^ level)) preds
    ∧ length (concat preds) = length d
    ∧ df' = Mat.zip2 Rminus d (concat preds)
    ∧ length df' = length d
    ∧ files st' !! (mr ++ [DMD.level_dir level; var; "level_prediction"])
      = Some (Table df').
Proof.
  unfold DMD.level_step. intros H.
  apply bind_Ok in H as (d & Hd & H).
  apply bind_Ok in H as (dt & _ & H).
  apply bind_Ok in H as ([self1 st1] & Hseg & H).
  apply bind_Ok in H as (preds & Hpreds & H).
  destruct (decide _) as [Hlen|]; [|discriminate].
  injection H as <- <- <-.
  exists d, preds. split; [exact Hd|].
  split.
  { apply mapM_Ok in Hpreds. eapply Forall2_impl; [exact Hpreds|].
    intros i P HP. cbn beta in HP. apply read_parquet_Ok in HP.
    unfold FS.to_parquet. rewrite files_write_ne; [exact HP|].
    intros Heq. apply app_inv_head in Heq. discriminate Heq. }
  split; [exact Hlen|]. split; [reflexivity|]. split.
  { unfold Mat.zip2. rewrite length_zip_with. lia. }
  unfold FS.to_parquet. apply files_write_eq.
Qed.

(** X2: [multires_predict] persists the element-wise sum of the
    [level_prediction] tables of the levels it discovers. *)
Lemma multires_predict_var_sums (mr : path) (var : string)
    (st st' : store) :
  DMD.multires_predict_var mr var st = Ok st' →
  ∃ p0 ps,
    Forall2 (λ level P,
               files st !! (mr ++ [DMD.level_dir level; var;
                                   "level_prediction"])
               = Some (Table P))
            (Py.range (DMD.discover_levels mr st)) (p0 :: ps)
    ∧ files st' !! (mr ++ [var; "prediction"])
      = Some (Table (foldl (Mat.zip2 Rplus) p0 ps)).
Proof.
  unfold DMD.multires_predict_var. intros H.
  apply bind_Ok in H as (preds & Hpreds & H).
  apply bind_Ok in H as (sum & Hsum & H).
  apply bind_Ok in H as (st1 & _ & H).
  injection H as <-.
  destruct preds as [|p0 ps]; [discriminate Hsum|]. injection Hsum as <-.
  exists p0, ps. split.
  - apply mapM_Ok in Hpreds. eapply Forall2_impl; [exact Hpreds|].
    intros level P HP. by apply read_parquet_Ok in HP.
  - unfold FS.to_parquet. apply files_write_eq.
Qed.

(** *** The decomposition of a geometric sequence

    One spatial point with the snapshots 1 and 2, one level, a unit
    timestep.  The single mode has the eigenvalue 2, it is slow
    ([ln 2 < PI]), and its prediction reproduces the data. *)

Lemma norm_1 : OneMode.norm [1] = 1.
Proof.
  unfold OneMode.norm, sumsq, Base.rsum. cbn.
  replace (1 * 1 + 0) with (1 * 1) by lra. apply sqrt_square. lra.
Qed.

Lemma svd1_unit : OneMode.svd1 [[1]] = ([[1]], [1], [[1]]).
Proof.
  unfold OneMode.svd1. cbn [map]. rewrite norm_1.
  replace (1 / 1) with 1 by lra. reflexivity.
Qed.

Ltac mat_cbv :=
  cbv [DMD.Atilde_of DMD.phi_projection DMD.recombine DMD.prediction_of
       DMD.dynamics_at DMD.omega_of
       Rmatmul Rtranspose Rdiag Cmatmul to_complex
       Mat.matmul Mat.transpose Mat.diag Mat.map2 Mat.zip2
       Mat.mat_vec Mat.mat_vec_from Mat.nrows Mat.row Mat.zeros Mat.vadd
       Mat.vscale OneMode.lstsq1 Base.rsum
       Cx.of_R Cx.re Cx.im Cx.zero Cx.i1 Cx.add Cx.mul Cx.div_R Cx.mul_R
       map length hd seq nth imap replicate zip_with list_insert insert compose
       foldr fst snd].

Lemma Atilde_unit : DMD.Atilde_of [[1]] [1] [[1]] [[2]] = [[2]].
Proof. mat_cbv. do 2 f_equal. field. Qed.

Lemma phi_unit : DMD.phi_projection [[1]] [[(1, 0)]] = [[(1, 0)]].
Proof. mat_cbv. do 2 f_equal. f_equal; lra. Qed.

Lemma lstsq1_unit : OneMode.lstsq1 [[(1, 0)]] [1] = [(1, 0)].
Proof. mat_cbv. f_equal. f_equal; field. Qed.

Lemma log_2 : Cx.log (2, 0) = (ln 2, 0).
Proof.
  unfold Cx.log, Cx.abs, Cx.arg. cbn [Cx.re Cx.im fst snd].
  replace (2 * 2 + 0 * 0) with (2 * 2) by lra.
  rewrite sqrt_square by lra.
  destruct (Rlt_dec 0 2) as [_|H]; [|lra].
  replace (0 / 2) with 0 by lra. by rewrite atan_0.
Qed.

Lemma ln_2_bounds : 0 < ln 2 < 1.
Proof.
  split.
  - rewrite <- ln_1. apply ln_increasing; lra.
  - apply Rlt_le_trans with (ln (exp 1)); [|rewrite ln_exp; lra].
    apply ln_increasing; [lra|].
    pose proof (exp_ineq1 1 ltac:(lra)). lra.
Qed.

Lemma slow_mask_geometric : DMD.slow_mask 1 2 [(2, 0)] = [0%nat].
Proof.
  unfold DMD.slow_mask, DMD.omega_of. cbn [map]. rewrite log_2.
  unfold Py.where_, Py.where_from, Py.Rltb.
  match goal with |- context [Rlt_dec ?x ?y] => destruct (Rlt_dec x y) as [|H] end;
    [reflexivity|].
  exfalso. apply H. unfold Cx.abs, Cx.div_R. cbn [Cx.re Cx.im fst snd].
  replace (ln 2 / 1 * (ln 2 / 1) + 0 / 1 * (0 / 1)) with (ln 2 * ln 2) by field.
  pose proof ln_2_bounds. rewrite sqrt_square by lra.
  change (INR 2) with (1 + 1). 
  pose proof PI2_1. lra.
Qed.

Lemma prediction_geometric :
  DMD.prediction_of (DMD.recombine [[1]] [[0]]) [(1, 0)]
                    (DMD.omega_of 1 [(2, 0)]) (instants 1 2 1)
  = [[1]; [2]].
Proof.
  unfold DMD.omega_of. cbn [map]. rewrite log_2.
  change (instants 1 2 1) with [0 * 1; 1 * 1].
  mat_cbv. unfold Cx.exp. cbn [Cx.re Cx.im fst snd].
  replace (ln 2 / 1 * (0 * 1)) with 0 by field.
  replace (ln 2 / 1 * (1 * 1)) with (ln 2) by field.
  replace (0 / 1 * (0 * 1)) with 0 by field.
  replace (0 / 1 * (1 * 1)) with 0 by field.
  rewrite exp_0, cos_0, sin_0, exp_ln by lra.
  repeat (apply (f_equal2 (@cons (list R))); [|try reflexivity]);
    (apply (f_equal2 (@cons R)); [lra|reflexivity]).
Qed.

Lemma residual_geometric : Mat.zip2 Rminus [[1]; [2]] [[1]; [2]] = [[0]; [0]].
Proof.
  mat_cbv.
  repeat (apply (f_equal2 (@cons (list R))); [|try reflexivity]);
    (apply (f_equal2 (@cons R)); [lra|reflexivity]).
Qed.

Lemma level_loop_geometric :
  ∃ self' st1,
    for_each (Py.range 1)
      (DMD.level_step (ext := OneMode.external) ["p"] ["data"] ["mr"] "p")
      (unit_self, DMD.make_level_dirs ["mr"] 1 geometric_store, [[1]; [2]])
    = Ok (self', st1, [[0]; [0]])
    ∧ files st1 !! ["mr"; "level_0"; "0"; "p"; "prediction"]
      = Some (Table [[1]; [2]])
    ∧ files st1 !! ["mr"; "level_0"; "p"; "level_prediction"]
      = Some (Table [[0]; [0]])
    ∧ table_at ["mr"; "p"; "prediction"]
               (DMD.multires_predict ["p"] ["mr"] st1)
      = Some [[0]; [0]].
Proof.
  set (st0 := DMD.make_level_dirs ["mr"] 1 geometric_store).
  change (Py.range 1) with [0%nat]. cbn [for_each].
  unfold DMD.level_step. cbn [mbind result_bind].
  change (length _ `div` 2 ^ 0)%nat with 2%nat.
  change (DMD.get_dt unit_self) with (Ok 1). cbn [mbind result_bind].
  change (Py.range (2 ^ 0)) with [0%nat]. cbn [for_each].
  unfold DMD.segment_step.
  change (DMD.segment_of [[1]; [2]] 2 0) with [[1]; [2]].
  change (["mr"] ++ [DMD.level_dir 0; pretty 0%nat]) with ["mr"; "level_0"; "0"].
  set (seg := ["mr"; "level_0"; "0"]).
  (* SVD *)
  unfold POD.svd_save_usv. cbn [mbind result_bind for_each]. 
  set (stc := POD.copy_coordinates ["data"] seg st0).
  unfold POD.svd_var at 1. cbn [POD.load_frame mbind result_bind].
  change (Base.data_decimate unit_self (DaskFrame [[1]; [2]]) true false)
    with (Base.decimate_defaults unit_self, Ok (DaskFrame [[1]])).
  cbn [mbind result_bind POD.values svd OneMode.external].
  rewrite svd1_unit. cbn [mbind result_bind].
  match goal with |- context [DMD.save_Atilde _ _ _ _ _ _ ?st] =>
    set (st1 := st) end.
  set (self1 := Base.decimate_defaults unit_self).
  (* Atilde *)
  unfold DMD.save_Atilde. cbn [mbind result_bind for_each].
  set (st1c := POD.copy_coordinates ["data"] seg st1).
  unfold DMD.Atilde_var at 1. cbn [DMD.load_array mbind result_bind].
  change (Base.data_decimate self1 (DaskArray [[1]; [2]]) false true)
    with (self1, Ok (DaskArray [[2]])).
  cbn [mbind result_bind DMD.as_array].
  assert (Hu : FS.read_parquet (seg ++ ["p"; "u"]) st1c = Ok [[1]])
    by (vm_compute; reflexivity).
  assert (Hs : utils.load_series (seg ++ ["p"; "s.pkl"]) st1c = Ok [1])
    by (vm_compute; reflexivity).
  assert (Hv : FS.read_parquet (seg ++ ["p"; "v"]) st1c = Ok [[1]])
    by (vm_compute; reflexivity).
  rewrite Hu, Hs, Hv. cbn [mbind result_bind]. rewrite Atilde_unit.
  match goal with |- context [DMD.save_modes _ _ _ _ _ _ _ ?st] =>
    set (st2 := st) end.
  (* modes *)
  unfold DMD.save_modes. cbn [mbind result_bind for_each].
  unfold DMD.modes_var at 1.
  assert (HA : utils.load_matrix (seg ++ ["p"; "Atilde.pkl"]) st2 = Ok [[2]])
    by (vm_compute; reflexivity).
  assert (Hu2 : FS.read_parquet (seg ++ ["p"; "u"]) st2 = Ok [[1]])
    by (vm_compute; reflexivity).
  assert (Hv2 : FS.read_parquet (seg ++ ["p"; "v"]) st2 = Ok [[1]])
    by (vm_compute; reflexivity).
  rewrite HA. cbn [mbind result_bind eig OneMode.external OneMode.eig1].
  rewrite Hu2, Hv2. cbn [mbind result_bind DMD.load_array DMD.first_column].
  change (Cx.of_R 2) with (2, 0). change (Cx.of_R 1) with (1, 0).
  rewrite phi_unit. cbn [lstsq OneMode.external]. rewrite lstsq1_unit.
  change (Mat.map2 Cx.re [[(1, 0)]]) with [[1]].
  change (Mat.map2 Cx.im [[(1, 0)]]) with [[0]].
  match goal with |- context [DMD.slow_filter _ _ _ _ ?st] => set (st3 := st) end.
  assert (Hf : DMD.slow_filter self1 seg "p" 2 st3 = Ok st3).
  { unfold DMD.slow_filter.
    assert (Hl : utils.load_complex (seg ++ ["p"; "lambda.pkl"]) st3
                 = Ok [(2, 0)]) by (vm_compute; reflexivity).
    assert (Hb : utils.load_complex (seg ++ ["p"; "b.pkl"]) st3
                 = Ok [(1, 0)]) by (vm_compute; reflexivity).
    rewrite Hl, Hb. cbn [mbind result_bind].
    change (DMD.get_dt self1) with (Ok 1). cbn [mbind result_bind].
    rewrite slow_mask_geometric.
    vm_compute. reflexivity. }
  rewrite Hf. cbn [mbind result_bind].
  (* prediction *)
  unfold DMD.save_prediction. cbn [for_each mbind result_bind].
  unfold DMD.prediction_var at 1.
  assert (Hl : utils.load_complex (seg ++ ["p"; "lambda.pkl"]) st3
               = Ok [(2, 0)]) by (vm_compute; reflexivity).
  assert (Hb : utils.load_complex (seg ++ ["p"; "b.pkl"]) st3
               = Ok [(1, 0)]) by (vm_compute; reflexivity).
  assert (Hre : FS.read_parquet (seg ++ ["p"; "modes_real"]) st3 = Ok [[1]])
    by (vm_compute; reflexivity).
  assert (Him : FS.read_parquet (seg ++ ["p"; "modes_imag"]) st3 = Ok [[0]])
    by (vm_compute; reflexivity).
  rewrite Hl, Hb. cbn [mbind result_bind].
  change (DMD.get_dt self1) with (Ok 1). cbn [mbind result_bind].
  rewrite Hre, Him. cbn [mbind result_bind].
  change (DMD.time_axis 1 (Z.of_nat 2) 1) with (Ok (instants 1 2 1)).
  cbn [mbind result_bind]. rewrite prediction_geometric.
  cbn [fmap result_fmap mbind result_bind snd].
  match goal with |- context [FS.to_parquet [[1]; [2]] ?p st3] =>
    set (st4 := FS.to_parquet [[1]; [2]] p st3) end.
  match goal with |- context [mapM ?f ?l] =>
    assert (Hm : mapM f l = Ok [[[1]; [2]]]) by (vm_compute; reflexivity);
    rewrite Hm end.
  cbn [mbind result_bind concat app].
  destruct (decide _) as [_|Hn]; [|by exfalso; apply Hn].
  rewrite residual_geometric. cbn [mbind result_bind].
  eexists _, _. split; [reflexivity|].
  repeat split; vm_compute; reflexivity.
Qed.

(** C1 (code defect): on one spatial point with the snapshots 1 and 2, one
    level, [end = 2] and a unit timestep, the slow-mode prediction of level 0
    reproduces the data, so the final residual is zero; [multires] persists
    that residual, not the prediction, as [level_prediction], and
    [multires_predict] returns it: its output plus the final residual is
    zero, not the truncated snapshot matrix. *)
Theorem multires_predict_returns_residual :
  ∃ self' st1 st2 residual,
    DMD.truncate_columns 1 2 [[1]; [2]] = [[1]; [2]]
    ∧ DMD.multires (ext := OneMode.external) unit_self ["p"] ["data"] ["mr"] 1
                   (Some 2%Z) geometric_store = Ok (self', st1)
    ∧ for_each (Py.range 1)
        (DMD.level_step (ext := OneMode.external) ["p"] ["data"] ["mr"] "p")
        (unit_self, DMD.make_level_dirs ["mr"] 1 geometric_store,
         DMD.truncate_columns 1 2 [[1]; [2]])
      = Ok (self', st1, residual)
    ∧ residual = [[0]; [0]]
    ∧ files st1 !! ["mr"; "level_0"; "0"; "p"; "prediction"]
      = Some (Table [[1]; [2]])
    ∧ files st1 !! ["mr"; "level_0"; "p"; "level_prediction"]
      = Some (Table residual)
    ∧ DMD.multires_predict ["p"] ["mr"] st1 = Ok st2
    ∧ files st2 !! ["mr"; "p"; "prediction"] = Some (Table [[0]; [0]])
    ∧ Mat.zip2 Rplus [[0]; [0]] residual
      ≠ DMD.truncate_columns 1 2 [[1]; [2]].
Proof.
  destruct level_loop_geometric as (self' & st1 & Hloop & Hp & Hlp & Hout).
  destruct (DMD.multires_predict ["p"] ["mr"] st1) as [st2|e] eqn:Hpred;
    [|discriminate Hout].
  exists self', st1, st2, [[0]; [0]].
  change (DMD.truncate_columns 1 2 [[1]; [2]]) with [[1]; [2]].
  split; [reflexivity|]. split.
  { unfold DMD.multires. cbn [for_each]. unfold DMD.multires_var.
    unfold FS.read_parquet at 1. rewrite files_make_level_dirs.
    change (files geometric_store !! (["data"] ++ ["p"]))
      with (Some (Table [[1]; [2]])).
    cbn [mbind result_bind].
    change (DMD.truncate_columns 1 2 [[1]; [2]]) with [[1]; [2]].
    rewrite Hloop. reflexivity. }
  split; [exact Hloop|]. split; [reflexivity|].
  split; [exact Hp|]. split; [exact Hlp|]. split; [exact Hpred|]. split.
  { unfold table_at in Hout.
    destruct (files st2 !! ["mr"; "p"; "prediction"]) as [[m| | |]|];
      try discriminate Hout.
    congruence. }
  cbv [Mat.zip2 zip_with]. intros H. injection H as H _. lra.
Qed.

End Multires.

(** ** Correlation *)

Section CorrelateFacts.
Local Open Scope R_scope.

Lemma sumsq_cons (x : R) (a : list R) : sumsq (x :: a) = x * x + sumsq a.
Proof. reflexivity. Qed.

Lemma sumsq_nonneg (a : list R) : 0 <= sumsq a.
Proof.
    induction a as [|x a IH]; [unfold sumsq; cbn; lra|].
    rewrite sumsq_cons. nra.
Qed.

Lemma sumsq_pos (a : list R) (x : R) : x ∈ a → x ≠ 0 → 0 < sumsq a.
Proof.
    induction 1 as [x a|x y a _ IH]; intros Hx; rewrite sumsq_cons.
    - pose proof (sumsq_nonneg a). nra.
    - specialize (IH Hx). nra.
Qed.

  (** A non-constant series has an entry off its mean. *)
Lemma centered_nonzero (v : list R) :
    nonconstant v → ∃ a, a ∈ Base.centered v ∧ a ≠ 0.
Proof.
    intros (x & y & Hx & Hy & Hxy).
    destruct (Req_dec x (Base.mean v)) as [Hm|Hm].
    - exists (y - Base.mean v). split; [|lra].
      unfold Base.centered. apply list_elem_of_fmap. eauto.
    - exists (x - Base.mean v). split; [|lra].
      unfold Base.centered. apply list_elem_of_fmap. eauto.
Qed.

Lemma nonconstant_length (v : list R) : nonconstant v → (2 ≤ length v)%nat.
Proof.
    intros (x & y & Hx & Hy & Hxy).
    destruct v as [|a [|b v]]; cbn; [| |lia].
    - inversion Hx.
    - apply list_elem_of_singleton in Hx, Hy. congruence.
Qed.

  (** Pairing every entry with the entry at its own position sums the
      squares; [p] is the part of the series already consumed. *)
Lemma rsum_imap_diag (p a : list R) :
    Base.rsum (imap (λ l x, x * nth (length p + l) (p ++ a) 0) a) = sumsq a.
Proof.
    revert p. induction a as [|x a IH]; intros p; [reflexivity|].
    rewrite sumsq_cons, <- (IH (p ++ [x])), imap_cons.
    change (Base.rsum (?y :: ?l)) with (y + Base.rsum l).
    rewrite Nat.add_0_r, app_nth2, Nat.sub_diag by lia. cbn [nth].
    do 2 f_equal. apply imap_ext. intros i y _. cbn.
    rewrite length_app, <- app_assoc. cbn. do 2 f_equal. lia.
Qed.

  (** The centre of the full autocorrelation is the sum of squares. *)
Lemma xcorr_at_zero_lag (a : list R) :
    Base.xcorr_at a a (length a - 1) = sumsq a.
Proof.
    unfold Base.xcorr_at. rewrite <- (rsum_imap_diag [] a).
    f_equal. apply imap_ext. intros i x _. cbn.
    destruct (Nat.leb_spec (length a - 1) (i + (length a - 1))); [|lia].
    do 2 f_equal. lia.
Qed.

  (** C8 (as the code has it): for every non-constant series [v],
      [correlate(v, v)] returns, and its first component, the zero-lag
      correlation read at the centre of the normalised full
      cross-correlation, is 1. *)
Theorem correlate_self_zero_lag (v : list R) (Hv : nonconstant v) :
    fst <$> Base.correlate v v = Ok 1.
Proof.
    pose proof (nonconstant_length v Hv) as Hlen.
    destruct (centered_nonzero v Hv) as (a & Ha & Ha0).
    pose proof (sumsq_pos _ _ Ha Ha0) as Hpos.
    unfold Base.correlate.
    destruct (decide _) as [[->| ->]|_]; [cbn in Hlen; lia..|].
    cbn [fmap result_fmap fst]. f_equal.
    set (n := length v) in *.
    assert (Hc : length (Base.centered v) = n)
      by (unfold Base.centered; apply length_map).
    unfold Base.xcorr. rewrite Hc.
    unfold Py.len. rewrite !length_map, length_seq.
    replace (Z.to_nat (Py.int_div (Z.of_nat (n + n - 1)) 2)) with (n - 1)%nat.
    2:{ unfold Py.int_div. rewrite Z.quot_div_nonneg by lia.
        rewrite <- (Z.div_unique (Z.of_nat (n + n - 1)) 2 (Z.of_nat n - 1) 1)
          by lia.
        lia. }
    rewrite map_map.
    erewrite nth_indep by (rewrite length_map, length_seq; lia).
    rewrite (map_nth (λ k, Base.xcorr_at _ _ k / INR n / Base.std v / Base.std v)
                     _ 0%nat).
    rewrite seq_nth by lia. cbn [Nat.add].
    rewrite <- Hc at 1. rewrite xcorr_at_zero_lag.
    unfold Base.std, Base.mean. rewrite length_map, Hc.
    fold (sumsq (Base.centered v)).
    assert (Hn : 0 < INR n) by (apply lt_0_INR; lia).
    set (q := sumsq (Base.centered v) / INR n).
    assert (Hq : 0 < q) by (apply Rdiv_lt_0_compat; assumption).
    pose proof (sqrt_lt_R0 q Hq) as Hs.
    pose proof (sqrt_sqrt q (Rlt_le _ _ Hq)) as Hss.
    fold q. rewrite <- Hss at 1. field. lra.
Qed.

Lemma square_wave_nonconstant : nonconstant square_wave.
Proof.
    exists 1, (-1). unfold square_wave.
    repeat split; [set_solver | set_solver | lra].
Qed.

Lemma correlate_self_zero_lag_witness :
    nonconstant square_wave
    ∧ fst <$> Base.correlate square_wave square_wave = Ok 1.
Proof.
    split; [exact square_wave_nonconstant|].
    apply (correlate_self_zero_lag square_wave). exact square_wave_nonconstant.
Defined.

Ltac rlist_eq :=
    repeat (apply (f_equal2 (@cons R)); [lra|]); reflexivity.

Lemma centered_square_wave : Base.centered square_wave = square_wave.
Proof. unfold Base.centered, Base.mean, square_wave. cbn. rlist_eq. Qed.

Lemma std_square_wave : Base.std square_wave = 1.
Proof.
    unfold Base.std. rewrite centered_square_wave.
    unfold Base.mean, square_wave; cbn.
    replace ((1 * 1 + (1 * 1 + (-1 * -1 + (-1 * -1 + 0)))) / (1 + 1 + 1 + 1))
      with 1 by lra.
    apply sqrt_1.
Qed.

  (** The normalised full autocorrelation of the square wave. *)
Lemma corr_square_wave :
    map (λ x, x / INR (length square_wave) / Base.std square_wave
              / Base.std square_wave)
        (Base.xcorr (Base.centered square_wave) (Base.centered square_wave))
    = [-1/4; -1/2; 1/4; 1; 1/4; -1/2; -1/4].
Proof.
    rewrite centered_square_wave, std_square_wave. unfold square_wave. cbn.
    rlist_eq.
Qed.

  (** C8, counterexample: for the non-constant series 1, 1, -1, -1 the
      smoothed autocorrelation is largest two positions left of the centre
      (0.15 against 1/24 at the centre), so the lag-adjusted correlation is
      1/4 and [correlate(v, v)] is (1, 1/4), not (1, 1). *)
Lemma correlate_self_lag_adjusted_not_one :
    nonconstant square_wave
    ∧ Base.correlate square_wave square_wave = Ok (1, 1/4)
    ∧ Base.correlate square_wave square_wave ≠ Ok (1, 1).
Proof.
    split; [exact square_wave_nonconstant|].
    assert (Hrun : Base.correlate square_wave square_wave = Ok (1, 1/4)).
    { unfold Base.correlate.
      destruct (decide _) as [[?|?]|_]; [discriminate..|].
      rewrite corr_square_wave. cbn.
      unfold Base.argmax. cbn. unfold Base.mean, Base.rsum; cbn.
      repeat (match goal with
              | |- context [Rlt_dec ?a ?b] =>
                  destruct (Rlt_dec a b); [try lra | try lra]
              end).
      reflexivity. }
    split; [exact Hrun|].
    rewrite Hrun. intros [= Heq]. lra.
Qed.

End CorrelateFacts.

(** * Further properties of the code *)

(** ** The discovery of the levels *)

Lemma exists_spec (p : path) (st : store) :
  FS.exists_ p st = true
  ↔ p ∈ dirs st ∨ ∃ q, q ∈ dom (files st) ∧ p `prefix_of` q.
Proof.
  unfold FS.exists_. rewrite orb_true_iff, bool_decide_eq_true, existsb_exists.
  split; (intros [H|(q & Hq & Hp)]; [left; exact H|right; exists q]).
  - apply list_elem_of_In, elem_of_elements in Hq.
    apply bool_decide_eq_true in Hp. done.
  - split; [by apply list_elem_of_In, elem_of_elements|].
    by apply bool_decide_eq_true.
Qed.

Lemma level_dir_inj (j k : nat) : DMD.level_dir j = DMD.level_dir k → j = k.
Proof.
  unfold DMD.level_dir. cbn. intros H. injection H as H.
  exact (pretty_nat_inj _ _ H).
Qed.

(** As many distinct numbers as a finite set can tag, at most. *)
Lemma tags_bounded (E : gset path) (tag : path → nat → Prop) (n : nat) :
  (∀ e j k, tag e j → tag e k → j = k) →
  (∀ k, (k < n)%nat → ∃ e, e ∈ E ∧ tag e k) →
  (n ≤ size E)%nat.
Proof.
  intros Hfun Hall.
  assert (∃ l : list path, length l = n ∧ NoDup l
            ∧ ∀ e, e ∈ l → e ∈ E ∧ ∃ k, (k < n)%nat ∧ tag e k)
    as (l & Hlen & Hnd & Hl).
  { clear -Hfun Hall. induction n as [|n IH].
    - exists []. split; [done|]. split; [constructor|]. inversion 1.
    - destruct IH as (l & Hlen & Hnd & Hl); [intros k Hk; apply Hall; lia|].
      destruct (Hall n ltac:(lia)) as (e & He & Hn).
      exists (e :: l). split; [cbn; lia|]. split.
      + constructor; [|exact Hnd]. intros Hin.
        destruct (Hl e Hin) as (_ & k & Hk & Hk').
        pose proof (Hfun e _ _ Hn Hk'). lia.
      + intros e' [->|Hin]%elem_of_cons.
        * split; [exact He|]. exists n. split; [lia|exact Hn].
        * destruct (Hl e' Hin) as (HE & k & Hk & Hk').
          split; [exact HE|]. exists k. split; [lia|exact Hk']. }
  rewrite <- Hlen, <- (size_list_to_set (C := gset path) l Hnd).
  apply subseteq_size. intros e He. apply elem_of_list_to_set in He.
  by apply Hl.
Qed.

Lemma count_levels_exist (fuel : nat) (mr : path) (n : nat) (st : store) (k : nat) :
  (n ≤ k < DMD.count_levels fuel mr n st)%nat →
  FS.exists_ (mr ++ [DMD.level_dir k]) st = true.
Proof.
  revert n. induction fuel as [|fuel IH]; intros n Hk; cbn in Hk; [lia|].
  destruct (FS.exists_ (mr ++ [DMD.level_dir n]) st) eqn:He; [|lia].
  destruct (decide (k = n)) as [->|Hne]; [exact He|].
  apply (IH (S n)). lia.
Qed.

Lemma count_levels_stop (fuel : nat) (mr : path) (n : nat) (st : store) :
  DMD.count_levels fuel mr n st = (n + fuel)%nat
  ∨ FS.exists_ (mr ++ [DMD.level_dir (DMD.count_levels fuel mr n st)]) st
    = false.
Proof.
  revert n. induction fuel as [|fuel IH]; intros n; cbn; [left; lia|].
  destruct (FS.exists_ (mr ++ [DMD.level_dir n]) st) eqn:He; [|right; exact He].
  destruct (IH (S n)) as [->|H]; [left; lia|right; exact H].
Qed.

(** The loop does not run out of iterations: the count it returns is a
    missing level. *)
Lemma discover_levels_stops (mr : path) (st : store) :
  FS.exists_ (mr ++ [DMD.level_dir (DMD.discover_levels mr st)]) st = false.
Proof.
  unfold DMD.discover_levels.
  set (fuel := S (size (files st) + size (dirs st))).
  destruct (count_levels_stop fuel mr 0 st) as [Hall|H]; [|exact H].
  exfalso.
  assert (Hle : (fuel ≤ size (dirs st ∪ dom (files st)))%nat).
  { apply (tags_bounded _
             (λ e k, e !! length mr = Some (DMD.level_dir k))).
    - intros e j k Hj Hk. apply level_dir_inj. congruence.
    - intros k Hk.
      assert (He : FS.exists_ (mr ++ [DMD.level_dir k]) st = true)
        by (apply (count_levels_exist fuel mr 0); lia).
      apply exists_spec in He as [Hd|(q & Hq & Hp)].
      + exists (mr ++ [DMD.level_dir k]). split; [set_solver|].
        rewrite lookup_app_r, Nat.sub_diag by lia. reflexivity.
      + exists q. split; [set_solver|]. destruct Hp as [t ->].
        rewrite <- app_assoc, lookup_app_r, Nat.sub_diag by lia. reflexivity. }
  rewrite size_union_alt in Hle.
  assert (Hsub : (size (dom (files st) ∖ dirs st) ≤ size (dom (files st)))%nat)
    by (apply subseteq_size; set_solver).
  rewrite size_dom in Hsub. subst fuel. lia.
Qed.

(** X4: the [while True] loop of [multires_predict] stops, and at the first
    missing level: every [level_k] below the count it returns exists and
    the [level_n] at the count does not. *)
Theorem discover_levels_first_missing (mr : path) (st : store) :
  let n := DMD.discover_levels mr st in
  (∀ k, (k < n)%nat → FS.exists_ (mr ++ [DMD.level_dir k]) st = true)
  ∧ FS.exists_ (mr ++ [DMD.level_dir n]) st = false.
Proof.
  intros n. split.
  - intros k Hk. unfold n, DMD.discover_levels in Hk.
    eapply (count_levels_exist _ mr 0 st k). split; [lia|exact Hk].
  - apply discover_levels_stops.
Qed.

(** The levels below the count exist. *)
Lemma discover_levels_exist (mr : path) (st : store) (k : nat) :
  (k < DMD.discover_levels mr st)%nat →
  FS.exists_ (mr ++ [DMD.level_dir k]) st = true.
Proof.
  intros Hk. unfold DMD.discover_levels in Hk.
  eapply (count_levels_exist _ mr 0 st k). split; [lia|exact Hk].
Qed.

Section Predict.


(** X5: without a [level_0] folder under [path_mrdmd] no level is
    discovered, [predictions] stays empty and [predictions[0]] raises
    [IndexError], whatever the variables (at least one). *)
Theorem multires_predict_without_levels (variables : list string)
    (mr : path) (st : store) :
  variables ≠ [] →
  FS.exists_ (mr ++ [DMD.level_dir 0]) st = false →
  DMD.multires_predict variables mr st = Raise IndexError.
Proof.
  intros Hv H0. destruct variables as [|var vs]; [done|].
  unfold DMD.multires_predict. cbn [for_each].
  unfold DMD.multires_predict_var.
  assert (Hn : DMD.discover_levels mr st = 0%nat).
  { pose proof (discover_levels_exist mr st 0) as Hall.
    destruct (DMD.discover_levels mr st) as [|n]; [reflexivity|].
    rewrite Hall in H0 by lia. discriminate H0. }
  rewrite Hn. reflexivity.
Qed.

Lemma multires_predict_without_levels_witness :
  DMD.multires_predict ["p"] ["mr"]
                       geometric_store = Raise IndexError.
Proof.
  apply multires_predict_without_levels;
    [discriminate | vm_compute; reflexivity].
Defined.

Lemma ensure_dir_dirs (p q : path) (st : store) :
  q ∈ dirs (utils.ensure_dir p st)
  ↔ q ∈ dirs st ∨ (q `prefix_of` p ∧ q ≠ []).
Proof.
  unfold utils.ensure_dir, FS.makedirs. cbn [dirs].
  rewrite elem_of_union, elem_of_list_to_set, list_elem_of_fmap.
  split; (intros [H|H]; [left; exact H|right]).
  - destruct H as (n & -> & Hn). apply elem_of_seq in Hn. split.
    + apply prefix_take.
    + intros Hnil. apply (f_equal length) in Hnil.
      rewrite length_take in Hnil. cbn in Hnil. lia.
  - destruct H as [[t ->] Hne]. exists (length q). split.
    + by rewrite take_app_length.
    + apply elem_of_seq. rewrite length_app.
      destruct q; [done|]. cbn. lia.
Qed.

Lemma make_level_dirs_dirs (mr : path) (levels : nat) (st : store) (q : path) :
  q ∈ dirs (DMD.make_level_dirs mr levels st)
  ↔ q ∈ dirs st
    ∨ ∃ L i, (L < levels)%nat ∧ (i < 2 ^ L)%nat ∧ q ≠ []
             ∧ q `prefix_of` (mr ++ [DMD.level_dir L; pretty i]).
Proof.
  unfold DMD.make_level_dirs, Py.range.
  induction levels as [|n IH] in st |- *.
  - cbn. split; [by left|]. intros [H|(L & i & HL & _)]; [exact H|lia].
  - rewrite seq_S, foldl_app. cbn [foldl plus].
    set (st1 := foldl _ st (seq 0 n)) in *.
    assert (Hin : ∀ m s, q ∈ dirs (foldl (λ s i, utils.ensure_dir
                                (mr ++ [DMD.level_dir n; pretty i]) s)
                              s (seq 0 m))
              ↔ q ∈ dirs s
                ∨ ∃ i, (i < m)%nat ∧ q ≠ []
                       ∧ q `prefix_of` (mr ++ [DMD.level_dir n; pretty i])).
    { clear. induction m as [|m IHm]; intros s.
      - cbn. split; [by left|]. intros [H|(i & Hi & _)]; [exact H|lia].
      - rewrite seq_S, foldl_app. cbn [foldl plus].
        rewrite ensure_dir_dirs, IHm. split.
        + intros [[H|(i & Hi & H)]|[Hp Hne]]; [by left| |].
          * right. exists i. split; [lia|exact H].
          * right. exists m. split; [lia|done].
        + intros [H|(i & Hi & Hne & Hp)]; [by left; left|].
          destruct (decide (i = m)) as [->|]; [by right|].
          left. right. exists i. split; [lia|done]. }
    rewrite Hin. unfold st1. rewrite IH. split.
    + intros [[H|(L & i & HL & H)]|(i & Hi & H)]; [by left| |].
      * right. exists L, i. split; [lia|exact H].
      * right. exists n, i. split; [lia|]. split; [exact Hi|exact H].
    + intros [H|(L & i & HL & Hi & H)]; [by left; left|].
      destruct (decide (L = n)) as [->|].
      * right. exists i. split; [exact Hi|exact H].
      * left. right. exists L, i. split; [lia|]. split; [exact Hi|exact H].
Qed.

(** X6: right after [multires] has made the folders [level_L/i] for
    [levels] levels, the discovery loop of [multires_predict] counts exactly
    [levels], provided no folder [level_<levels>] is left over from a deeper
    earlier run. *)
Theorem discover_levels_after_make_level_dirs (mr : path) (levels : nat)
    (st : store) :
  FS.exists_ (mr ++ [DMD.level_dir levels]) st = false →
  DMD.discover_levels mr (DMD.make_level_dirs mr levels st) = levels.
Proof.
  intros Hnone. set (st' := DMD.make_level_dirs mr levels st).
  pose proof (discover_levels_exist mr st') as Hall.
  pose proof (discover_levels_stops mr st') as Hstop.
  set (n := DMD.discover_levels mr st') in *.
  assert (Hex : ∀ L, (L < levels)%nat →
            FS.exists_ (mr ++ [DMD.level_dir L]) st' = true).
  { intros L HL. apply exists_spec. left. apply make_level_dirs_dirs.
    right. exists L, 0%nat. split; [exact HL|]. split.
    - pose proof (Nat.pow_nonzero 2 L). lia.
    - split; [by destruct mr|]. exists [pretty 0%nat].
      by rewrite <- app_assoc. }
  assert (Hno : FS.exists_ (mr ++ [DMD.level_dir levels]) st' = false).
  { apply not_true_iff_false. intros H. apply not_true_iff_false in Hnone.
    apply Hnone. apply exists_spec. apply exists_spec in H as [H|H].
    - apply make_level_dirs_dirs in H as [H|(L & i & HL & _ & _ & Hp)];
        [by left|].
      exfalso. destruct Hp as [t Ht].
      rewrite <- app_assoc in Ht. apply app_inv_head in Ht.
      assert (Hh : Some (DMD.level_dir L) = Some (DMD.level_dir levels))
        by exact (f_equal head Ht).
      apply (inj Some), level_dir_inj in Hh. lia.
    - right. unfold st' in H. by rewrite files_make_level_dirs in H. }
  destruct (lt_eq_lt_dec n levels) as [[Hlt|Heq]|Hgt]; [|exact Heq|].
  - rewrite (Hex n Hlt) in Hstop. discriminate Hstop.
  - rewrite (Hall levels Hgt) in Hno. discriminate Hno.
Qed.

Lemma discover_levels_after_make_level_dirs_witness :
  DMD.discover_levels ["mr"]
    (DMD.make_level_dirs ["mr"] 3 geometric_store) = 3%nat.
Proof.
  apply (discover_levels_after_make_level_dirs ["mr"] 3 geometric_store).
  vm_compute. reflexivity.
Defined.
End Predict.

(** ** The overwrite guard *)

Section Guard.
Context {ext : External}.

Lemma is_dir_spec (q : path) (st : store) :
  FS.is_dir q st = true
  ↔ q ∈ dirs st
    ∨ ∃ k a, files st !! k = Some a ∧ q `prefix_of` k
             ∧ (FS.is_table a = true ∨ k ≠ q).
Proof.
  unfold FS.is_dir. rewrite orb_true_iff, bool_decide_eq_true, existsb_exists.
  split; (intros [H|H]; [left; exact H|right]).
  - destruct H as ([k a] & Hin & H). cbn in H.
    apply list_elem_of_In, elem_of_map_to_list in Hin.
    apply andb_true_iff in H as [Hp H]. apply bool_decide_eq_true in Hp.
    apply orb_true_iff in H as [H|H].
    + exists k, a. eauto.
    + apply negb_true_iff, bool_decide_eq_false in H. exists k, a. eauto.
  - destruct H as (k & a & Hk & Hp & H). exists (k, a). split.
    + by apply list_elem_of_In, elem_of_map_to_list.
    + cbn. apply andb_true_iff. split; [by apply bool_decide_eq_true|].
      apply orb_true_iff. destruct H as [H|H]; [left; exact H|right].
      by apply negb_true_iff, bool_decide_eq_false.
Qed.

Lemma is_dir_exists (q : path) (st : store) :
  FS.is_dir q st = true → FS.exists_ q st = true.
Proof.
  intros H. apply is_dir_spec in H. unfold FS.exists_.
  apply orb_true_iff. destruct H as [H|(k & a & Hk & Hp & _)].
  - left. by apply bool_decide_eq_true.
  - right. apply existsb_exists. exists k. split.
    + apply list_elem_of_In, elem_of_elements, elem_of_dom. eauto.
    + by apply bool_decide_eq_true.
Qed.

(** Two folders of one directory have no path in common. *)
Lemma siblings_disjoint (p q : path) (v w : string) :
  (p ++ [v]) `prefix_of` q → (p ++ [w]) `prefix_of` q → v = w.
Proof.
  intros [t ->] [u Hu]. rewrite <- !app_assoc in Hu.
  apply app_inv_head in Hu. by injection Hu.
Qed.

Lemma is_dir_congr (q : path) (st st' : store) :
  (q ∈ dirs st' ↔ q ∈ dirs st) →
  (∀ k, q `prefix_of` k → files st' !! k = files st !! k) →
  FS.is_dir q st' = FS.is_dir q st.
Proof.
  intros Hd Hf. apply eq_true_iff_eq. rewrite !is_dir_spec, Hd.
  split; (intros [H|(k & a & Hk & Hp & H)]; [left; exact H|right]);
    exists k, a; (split; [|done]).
  - by rewrite <- Hf.
  - by rewrite Hf.
Qed.

Lemma not_dir_above (p : path) (v : string) (n : nat) :
  p ++ [v] ≠ take n p.
Proof.
  intros H. apply (f_equal length) in H.
  rewrite length_app, length_take in H. cbn in H. lia.
Qed.

Lemma is_dir_makedirs (p : path) (v : string) (st : store) :
  FS.is_dir (p ++ [v]) (FS.makedirs p st) = FS.is_dir (p ++ [v]) st.
Proof.
  apply is_dir_congr; [|reflexivity]. unfold FS.makedirs. cbn [dirs].
  rewrite elem_of_union, elem_of_list_to_set, list_elem_of_fmap.
  split; [|by left]. intros [H|(n & Hn & _)]; [exact H|].
  by apply not_dir_above in Hn.
Qed.

(** What [get_folderlist] leaves behind: the store, with [p] made. *)
Lemma get_folderlist_has_spec (p : path) (var : string) (st : store) :
  let r := POD.get_folderlist_has p var st in
  r.1 = FS.is_dir (p ++ [var]) st
  ∧ files r.2 = files st
  ∧ ∀ v, FS.is_dir (p ++ [v]) r.2 = FS.is_dir (p ++ [v]) st.
Proof.
  unfold POD.get_folderlist_has. destruct (FS.is_dir p st); cbn [fst snd].
  - done.
  - split; [apply is_dir_makedirs|]. split; [reflexivity|].
    intros v. apply is_dir_makedirs.
Qed.

Lemma rmtree_spec (p : path) (st : store) :
  FS.exists_ p st = true →
  ∃ st', FS.rmtree p st = Ok st'
    ∧ (∀ q, files st' !! q
            = if decide (p `prefix_of` q) then None else files st !! q)
    ∧ (∀ q, q ∈ dirs st' ↔ q ∈ dirs st ∧ ¬ p `prefix_of` q).
Proof.
  intros He. unfold FS.rmtree. rewrite He. eexists. split; [reflexivity|].
  split.
  - intros q. cbn [files]. rewrite map_lookup_filter.
    destruct (files st !! q) as [x|]; cbn; [|case_decide; reflexivity].
    case_decide; case_guard; cbn in *; done.
  - intros q. cbn [dirs]. rewrite elem_of_filter. tauto.
Qed.

Lemma is_dir_rmtree_self (p : path) (st st' : store) :
  (∀ q, files st' !! q
        = if decide (p `prefix_of` q) then None else files st !! q) →
  (∀ q, q ∈ dirs st' ↔ q ∈ dirs st ∧ ¬ p `prefix_of` q) →
  FS.is_dir p st' = false.
Proof.
  intros Hf Hd. apply not_true_iff_false. rewrite is_dir_spec.
  intros [H|(k & a & Hk & Hp & _)].
  - apply Hd in H as [_ H]. by apply H.
  - rewrite Hf, decide_True in Hk by done. discriminate Hk.
Qed.

Lemma is_dir_rmtree_sibling (p : path) (v w : string) (st st' : store) :
  v ≠ w →
  (∀ q, files st' !! q
        = if decide ((p ++ [w]) `prefix_of` q) then None else files st !! q) →
  (∀ q, q ∈ dirs st' ↔ q ∈ dirs st ∧ ¬ (p ++ [w]) `prefix_of` q) →
  FS.is_dir (p ++ [v]) st' = FS.is_dir (p ++ [v]) st.
Proof.
  intros Hne Hf Hd. apply is_dir_congr.
  - rewrite Hd. split; [tauto|]. intros H. split; [exact H|].
    intros Hp. apply Hne. by apply (siblings_disjoint p (p ++ [v])).
  - intros k Hk. rewrite Hf, decide_False; [reflexivity|].
    intros Hp. apply Hne. by apply (siblings_disjoint p k).
Qed.

Lemma guard_loop_spec (p : path) (vars acc : list string) (st : store) :
  ∃ st',
    POD.guard_loop p vars acc st
    = Ok (acc ++ filter (λ v, declined p st v = true) vars, st')
    ∧ (∀ q a, files st' !! q = Some a → files st !! q = Some a)
    ∧ (∀ var q, var ∈ vars → approved p st var = true →
                (p ++ [var]) `prefix_of` q → files st' !! q = None)
    ∧ (∀ q, (∀ var, var ∈ vars → approved p st var = true →
                    ¬ (p ++ [var]) `prefix_of` q) →
            files st' !! q = files st !! q).
Proof.
  revert acc st. induction vars as [|var vars IH]; intros acc st.
  - exists st. cbn [POD.guard_loop]. rewrite filter_nil, app_nil_r.
    split; [reflexivity|]. split; [done|]. split; [|done].
    intros var q Hin. inversion Hin.
  - cbn [POD.guard_loop].
    pose proof (get_folderlist_has_spec p var st) as (Hfound & Hfiles & Hdir).
    destruct (POD.get_folderlist_has p var st) as [found st0].
    cbn [fst snd] in Hfound, Hfiles, Hdir. subst found.
    destruct (FS.is_dir (p ++ [var]) st) eqn:Hvar;
      [destruct (overwrite p var) eqn:Hans|].
    + (* the folder exists and is removed *)
      destruct (rmtree_spec (p ++ [var]) st0) as (st1 & -> & Hf1 & Hd1).
      { apply is_dir_exists. by rewrite Hdir. }
      cbn [mbind result_bind].
      assert (Hgone : FS.is_dir (p ++ [var]) st1 = false)
        by exact (is_dir_rmtree_self _ _ _ Hf1 Hd1).
      assert (Hsib : ∀ v, v ≠ var →
                FS.is_dir (p ++ [v]) st1 = FS.is_dir (p ++ [v]) st).
      { intros v Hv. rewrite <- Hdir.
        exact (is_dir_rmtree_sibling _ _ _ _ _ Hv Hf1 Hd1). }
      destruct (IH acc st1) as (st' & -> & Hmono & Hrm & Hkeep).
      exists st'. split; [|split; [|split]].
      * f_equal. f_equal. f_equal. rewrite filter_cons_False.
        2:{ unfold declined. rewrite Hvar, Hans. cbn. discriminate. }
        apply list_filter_iff. intros v. unfold declined.
        destruct (decide (v = var)) as [->|Hv].
        -- rewrite Hgone, Hvar, Hans. cbn. done.
        -- by rewrite Hsib.
      * intros q a Hq. apply Hmono in Hq. rewrite Hf1 in Hq.
        case_decide; [discriminate Hq|]. by rewrite <- Hfiles.
      * intros v q Hin Hap Hp. apply elem_of_cons in Hin.
        destruct (decide (v = var)) as [->|Hv].
        -- destruct (files st' !! q) as [a|] eqn:Hq; [|reflexivity].
           apply Hmono in Hq. rewrite Hf1, decide_True in Hq by done.
           discriminate Hq.
        -- destruct Hin as [->|Hin]; [done|].
           apply (Hrm v q Hin); [|exact Hp].
           unfold approved in *. by rewrite Hsib.
      * intros q Hq. rewrite Hkeep.
        -- rewrite Hf1, decide_False, Hfiles; [reflexivity|].
           apply Hq; [left|]. unfold approved. by rewrite Hvar, Hans.
        -- intros v Hin Hap. apply Hq; [by right|].
           unfold approved in *. destruct (decide (v = var)) as [->|Hv].
           ++ by rewrite Hgone in Hap.
           ++ by rewrite <- Hsib.
    + (* the folder exists and is kept: the variable is dropped *)
      destruct (IH (acc ++ [var]) st0) as (st' & -> & Hmono & Hrm & Hkeep).
      exists st'. split; [|split; [|split]].
      * f_equal. f_equal. rewrite filter_cons_True.
        2:{ unfold declined. by rewrite Hvar, Hans. }
        rewrite <- app_assoc. cbn. f_equal. f_equal.
        apply list_filter_iff. intros v. unfold declined. by rewrite Hdir.
      * intros q a Hq. rewrite <- Hfiles. by apply Hmono.
      * intros v q Hin Hap Hp. apply elem_of_cons in Hin.
        destruct Hin as [->|Hin].
        { unfold approved in Hap. rewrite Hvar, Hans in Hap. discriminate. }
        apply (Hrm v q Hin); [|exact Hp]. unfold approved in *.
        by rewrite Hdir.
      * intros q Hq. rewrite Hkeep, Hfiles; [reflexivity|].
        intros v Hin Hap. apply Hq; [by right|]. unfold approved in *.
        by rewrite <- Hdir.
    + (* no such folder *)
      destruct (IH acc st0) as (st' & -> & Hmono & Hrm & Hkeep).
      exists st'. split; [|split; [|split]].
      * f_equal. f_equal. f_equal. rewrite filter_cons_False.
        2:{ unfold declined. rewrite Hvar. cbn. discriminate. }
        apply list_filter_iff. intros v. unfold declined. by rewrite Hdir.
      * intros q a Hq. rewrite <- Hfiles. by apply Hmono.
      * intros v q Hin Hap Hp. apply elem_of_cons in Hin.
        destruct Hin as [->|Hin].
        { unfold approved in Hap. rewrite Hvar in Hap. discriminate. }
        apply (Hrm v q Hin); [|exact Hp]. unfold approved in *.
        by rewrite Hdir.
      * intros q Hq. rewrite Hkeep, Hfiles; [reflexivity|].
        intros v Hin Hap. apply Hq; [by right|]. unfold approved in *.
        by rewrite <- Hdir.
Qed.

Lemma list_remove_app (x : string) (pre l : list string) :
  x ∉ pre → POD.list_remove x (pre ++ x :: l) = pre ++ l.
Proof.
  induction pre as [|y pre IH]; intros Hx; cbn.
  - by rewrite decide_True.
  - rewrite decide_False by set_solver. f_equal. apply IH. set_solver.
Qed.

Lemma remove_all (P : string → Prop) `{∀ x, Decision (P x)}
    (pre l : list string) :
  (∀ x, x ∈ pre → ¬ P x) →
  foldl (λ vs var, POD.list_remove var vs) (pre ++ l) (filter P l)
  = pre ++ filter (λ x, ¬ P x) l.
Proof.
  revert pre. induction l as [|x l IH]; intros pre Hpre.
  - by rewrite !filter_nil.
  - destruct (decide (P x)) as [Hx|Hx].
    + rewrite filter_cons_True, filter_cons_False by tauto. cbn [foldl].
      rewrite list_remove_app; [by apply IH|].
      intros Hin. by apply (Hpre x).
    + rewrite filter_cons_False, filter_cons_True by tauto.
      rewrite (cons_middle x pre l), app_assoc, IH, <- app_assoc; [done|].
      intros y [Hy| ->%list_elem_of_singleton]%elem_of_app; [by apply Hpre|done].
Qed.

(** X7: [overwrite_guard] never raises.  It returns, in order, the variables
    that have no folder under [path] or whose overwrite was approved; the
    folders approved for overwriting are emptied, and no other file is
    touched. *)
Theorem overwrite_guard_result (p : path) (variables : list string)
    (st : store) :
  ∃ st',
    POD.overwrite_guard p variables st
    = Ok (filter (λ v, declined p st v = false) variables, st')
    ∧ (∀ var q, var ∈ variables → approved p st var = true →
                (p ++ [var]) `prefix_of` q → files st' !! q = None)
    ∧ (∀ q, (∀ var, var ∈ variables → approved p st var = true →
                    ¬ (p ++ [var]) `prefix_of` q) →
            files st' !! q = files st !! q).
Proof.
  destruct (guard_loop_spec p variables [] st) as (st' & Hrun & _ & Hrm & Hkeep).
  exists st'. split; [|split; [exact Hrm|exact Hkeep]].
  unfold POD.overwrite_guard. rewrite Hrun. cbn [mbind result_bind app].
  f_equal. f_equal.
  rewrite (remove_all (λ v, declined p st v = true) [] variables) by inversion 1.
  cbn [app]. apply list_filter_iff. intros v. by destruct (declined p st v).
Qed.
End Guard.

(** ** More on the decimation *)

Section DecimateMore.

(** X8: [data_decimate] raises in two cases only, both through the stride
    [df[:, ::data_skip]]: on a dataframe (the one slice without an [.iloc]
    fallback), and on an array when [data_skip] is 0. *)
Theorem data_decimate_raises (self : Self) (df : frame) (X1 X2 : bool) :
  (∀ k m, attr_value (data_skip self) = Some k → df = DaskFrame m →
          snd (Base.data_decimate self df X1 X2) = Raise FrameIndexError)
  ∧ (∀ m, attr_value (data_skip self) = Some 0%Z → df = DaskArray m →
          snd (Base.data_decimate self df X1 X2) = Raise ValueError)
  ∧ (∀ e, snd (Base.data_decimate self df X1 X2) = Raise e →
          ∃ k, attr_value (data_skip self) = Some k
               ∧ (k = 0%Z ∨ ∃ m, df = DaskFrame m)).
Proof.
  assert (Hskip : attr_value (data_skip (Base.decimate_defaults self))
                  = attr_value (data_skip self))
    by (destruct self as [? ? [[?|]|] ? ?]; reflexivity).
  unfold Base.data_decimate. cbn [snd]. rewrite Hskip.
  split; [|split].
  - intros k m -> ->. reflexivity.
  - intros m -> ->. reflexivity.
  - intros e. destruct (attr_value (data_skip self)) as [k|]; [|discriminate].
    intros H. exists k. split; [reflexivity|].
    destruct df as [m|m]; [left|right; eauto].
    cbn [Base.stride] in H. unfold Py.slice_step in H.
    destruct (Z.eqb_spec k 0) as [->|]; [reflexivity|].
    destruct (0 <? k)%Z; discriminate H.
Qed.

Lemma every_from_sublist {A} (k w : nat) (l : list A) :
  Py.every_from k w l `sublist_of` l.
Proof.
  revert w. induction l as [|x l IH]; intros w; cbn; [constructor|].
  destruct w; [by apply sublist_skip|by apply sublist_cons].
Qed.

Lemma slice_step_submseteq {A} (k : Z) (l r : list A) :
  Py.slice_step k l = Ok r →
  r ⊆+ l ∧ ((0 < k)%Z → r `sublist_of` l).
Proof.
  unfold Py.slice_step. destruct (k =? 0)%Z; [discriminate|].
  destruct (Z.ltb_spec 0 k); intros [= <-].
  - split; [apply sublist_submseteq|intros _]; apply every_from_sublist.
  - split; [|lia]. trans (reverse l).
    + apply sublist_submseteq, every_from_sublist.
    + by rewrite reverse_Permutation.
Qed.

Lemma with_cols_cols (df : frame) (m : matrix R) : cols (with_cols df m) = m.
Proof. by destruct df. Qed.

(** The shape of a call that returns: the columns left by the percentages
    and the stride, then the two flags. *)
Lemma data_decimate_Ok (self : Self) (df d : frame) (X1 X2 : bool) :
  snd (Base.data_decimate self df X1 X2) = Ok d →
  ∃ c3, snd (Base.data_decimate self df false false) = Ok (with_cols df c3)
        ∧ d = with_cols df
                (let c4 := if X1 then Py.slice_to (-1) c3 else c3 in
                 if X2 then Py.slice_from 1 c4 else c4).
Proof.
  unfold Base.data_decimate. cbn [snd].
  destruct (match attr_value (data_skip (Base.decimate_defaults self)) with
            | Some k => _ | None => _ end) as [c3|e]; [|discriminate].
  cbn [mbind result_bind]. intros [= <-]. by exists c3.
Qed.

(** X9: [data_decimate] neither invents nor duplicates columns and keeps
    the kind of container: what it returns holds columns of the input, in
    the input's order when the stride is positive or absent. *)
Theorem data_decimate_keeps_columns (self : Self) (df d : frame) (X1 X2 : bool) :
  snd (Base.data_decimate self df X1 X2) = Ok d →
  cols d ⊆+ cols df
  ∧ ((∀ k, attr_value (data_skip self) = Some k → (0 < k)%Z) →
     cols d `sublist_of` cols df)
  ∧ d = with_cols df (cols d).
Proof.
  assert (Hskip : attr_value (data_skip (Base.decimate_defaults self))
                  = attr_value (data_skip self))
    by (destruct self as [? ? [[?|]|] ? ?]; reflexivity).
  unfold Base.data_decimate. cbn [snd]. rewrite Hskip.
  match goal with
  | |- context [Base.stride df _ ?c] => set (c2 := c)
  end.
  assert (H2 : c2 `sublist_of` cols df).
  { subst c2.
    destruct (attr_value (data_cutoff _)), (attr_value (data_cutin _));
      unfold Py.slice_to, Py.slice_from;
      repeat first [ reflexivity | apply sublist_take
                   | (etrans; [apply sublist_drop|]) ]. }
  clearbody c2.
  destruct (match attr_value (data_skip self) with
            | Some k => _ | None => _ end) as [c3|e] eqn:H3; [|discriminate].
  cbn [mbind result_bind]. intros [= <-]. rewrite with_cols_cols.
  set (c5 := if X2 then _ else _).
  assert (H5 : c5 `sublist_of` c3).
  { subst c5. trans (if X1 then Py.slice_to (-1) c3 else c3).
    - destruct X2; [apply sublist_drop|reflexivity].
    - destruct X1; [apply sublist_take|reflexivity]. }
  clearbody c5.
  assert (H : c3 ⊆+ c2 ∧ ((∀ k, attr_value (data_skip self) = Some k → (0 < k)%Z)
                          → c3 `sublist_of` c2)).
  { destruct (attr_value (data_skip self)) as [k|].
    - destruct df as [m|m]; [|discriminate H3]. cbn [Base.stride] in H3.
      destruct (slice_step_submseteq k c2 c3 H3) as [Ha Hb].
      split; [exact Ha|]. intros Hk. apply Hb. by apply Hk.
    - injection H3 as <-. done. }
  destruct H as [Ha Hb]. split; [|split; [|reflexivity]].
  - trans c3; [by apply sublist_submseteq|].
    trans c2; [exact Ha|by apply sublist_submseteq].
  - intros Hk. trans c3; [exact H5|]. trans c2; [by apply Hb|exact H2].
Qed.

Lemma data_decimate_keeps_columns_witness :
  let self := Base.set_data_cutin (Base.set_data_cutoff new_self (Some 50%Z))
                                  (Some 50%Z) in
  let d := DaskArray (columns_at (seq 25 25) (ramp 100)) in
  cols d ⊆+ ramp 100
  ∧ ((∀ k, attr_value (data_skip self) = Some k → (0 < k)%Z) →
     cols d `sublist_of` ramp 100)
  ∧ d = with_cols (DaskArray (ramp 100)) (cols d).
Proof.
  exact (data_decimate_keeps_columns
           (Base.set_data_cutin (Base.set_data_cutoff new_self (Some 50%Z))
                                (Some 50%Z))
           (DaskArray (ramp 100)) _ false false eq_refl).
Defined.

(** X10: the two matrices of the DMD, [data_decimate(df, X1=True)] and
    [data_decimate(df, X2=True)], have one column less than the decimated
    data, and their columns [i] are the consecutive columns [i] and [i + 1]
    of the decimated data. *)
Theorem data_decimate_snapshot_pairs (self : Self) (df d : frame) :
  snd (Base.data_decimate self df false false) = Ok d →
  ∃ x1 x2,
    snd (Base.data_decimate self df true false) = Ok x1
    ∧ snd (Base.data_decimate self df false true) = Ok x2
    ∧ length (cols x1) = (length (cols d) - 1)%nat
    ∧ length (cols x2) = (length (cols d) - 1)%nat
    ∧ ∀ i, (i + 1 < length (cols d))%nat →
           cols x1 !! i = cols d !! i
           ∧ cols x2 !! i = cols d !! (i + 1)%nat.
Proof.
  intros Hd. rewrite data_decimate_X1, data_decimate_X2, Hd.
  cbn [fmap result_fmap]. eexists _, _.
  split; [reflexivity|]. split; [reflexivity|].
  rewrite !with_cols_cols. unfold Py.slice_to, Py.slice_from, Py.adjust, Py.len.
  cbn [Z.ltb Z.compare].
  replace (Z.to_nat (Z.max (-1 + Z.of_nat (length (cols d))) 0))
    with (length (cols d) - 1)%nat by lia.
  replace (Z.to_nat (Z.min 1 (Z.of_nat (length (cols d)))))
    with (Nat.min 1 (length (cols d))) by lia.
  rewrite length_take, length_drop.
  split; [lia|]. split; [lia|]. intros i Hi.
  rewrite lookup_take_lt, lookup_drop by lia.
  split; [reflexivity|]. f_equal. lia.
Qed.

Lemma data_decimate_snapshot_pairs_witness :
  ∃ x1 x2,
    snd (Base.data_decimate new_self (DaskArray (ramp 4)) true false) = Ok x1
    ∧ snd (Base.data_decimate new_self (DaskArray (ramp 4)) false true) = Ok x2
    ∧ length (cols x1) = (length (ramp 4) - 1)%nat
    ∧ length (cols x2) = (length (ramp 4) - 1)%nat
    ∧ ∀ i, (i + 1 < length (ramp 4))%nat →
           cols x1 !! i = ramp 4 !! i
           ∧ cols x2 !! i = ramp 4 !! (i + 1)%nat.
Proof.
  exact (data_decimate_snapshot_pairs new_self (DaskArray (ramp 4))
           (DaskArray (ramp 4)) eq_refl).
Defined.
End DecimateMore.

(** ** More on the correlation *)

Section CorrelateMore.
Local Open Scope R_scope.

Lemma dot_cons (x y : R) (a b : list R) :
  dot (x :: a) (y :: b) = x * y + dot a b.
Proof. reflexivity. Qed.

Lemma dot_comm (a b : list R) : dot a b = dot b a.
Proof.
  revert b. induction a as [|x a IH]; intros [|y b]; try reflexivity.
  rewrite !dot_cons, IH. lra.
Qed.

Lemma cauchy_schwarz (a b : list R) :
  dot a b * dot a b <= sumsq a * sumsq b.
Proof.
  revert b. induction a as [|x a IH]; intros [|y b].
  - cbn. lra.
  - pose proof (sumsq_nonneg (y :: b)). cbn in *. nra.
  - pose proof (sumsq_nonneg (x :: a)). cbn in *. nra.
  - rewrite dot_cons, !sumsq_cons.
    pose proof (IH b) as Hab.
    pose proof (sumsq_nonneg a) as HA. pose proof (sumsq_nonneg b) as HB.
    set (A := sumsq a) in *. set (B := sumsq b) in *. set (D := dot a b) in *.
    assert (Hmix : 2 * D * (x * y) <= A * (y * y) + B * (x * x)).
    { destruct (Rle_lt_or_eq_dec 0 A HA) as [HApos|HA0].
      - set (E := A * (y * y) + B * (x * x) - 2 * D * (x * y)).
        assert (HE : 0 <= A * E).
        { replace (A * E)
            with ((A * y - D * x) * (A * y - D * x) + (A * B - D * D) * (x * x))
            by (unfold E; ring).
          pose proof (Rle_0_sqr (A * y - D * x)) as H1. unfold Rsqr in H1.
          pose proof (Rle_0_sqr x) as H2. unfold Rsqr in H2.
          assert (0 <= (A * B - D * D) * (x * x))
            by (apply Rmult_le_pos; lra).
          lra. }
        assert (0 <= E).
        { apply (Rmult_le_reg_l A); [exact HApos|]. by rewrite Rmult_0_r. }
        unfold E in *. lra.
      - rewrite <- HA0 in *.
        assert (HD : D = 0).
        { pose proof (Rle_0_sqr D) as H1. unfold Rsqr in H1.
          assert (D * D = 0) by lra.
          destruct (Rmult_integral _ _ H); assumption. }
        rewrite HD.
        assert (0 <= B * (x * x)).
        { apply Rmult_le_pos; [exact HB|].
          pose proof (Rle_0_sqr x) as H2. by unfold Rsqr in H2. }
        lra. }
    nra.
Qed.

Lemma rsum_imap_zero (f : nat → R → R) (a : list R) :
  (∀ i x, f i x = 0) → Base.rsum (imap f a) = 0.
Proof.
  revert f. induction a as [|x a IH]; intros f Hf; [reflexivity|].
  rewrite imap_cons. change (Base.rsum (?y :: ?l)) with (y + Base.rsum l).
  rewrite Hf, IH by (intros; apply Hf). lra.
Qed.

Lemma rsum_imap_dot (p a b : list R) :
  Base.rsum (imap (λ l x, x * nth (length p + l) (p ++ b) 0) a) = dot a b.
Proof.
  revert p b. induction a as [|x a IH]; intros p b; [reflexivity|].
  destruct b as [|y b].
  - rewrite rsum_imap_zero; [reflexivity|]. intros i z.
    rewrite nth_overflow by (rewrite app_nil_r; lia). lra.
  - rewrite dot_cons, <- (IH (p ++ [y]) b), imap_cons.
    change (Base.rsum (?z :: ?l)) with (z + Base.rsum l).
    rewrite Nat.add_0_r, app_nth2, Nat.sub_diag by lia. cbn [nth].
    do 2 f_equal. apply imap_ext. intros i z _. cbn.
    rewrite length_app, <- app_assoc. cbn. do 2 f_equal. lia.
Qed.

Lemma xcorr_zero_lag (a b : list R) :
  Base.xcorr_at a b (length b - 1) = dot a b.
Proof.
  unfold Base.xcorr_at. rewrite <- (rsum_imap_dot [] a b).
  f_equal. apply imap_ext. intros i x _. cbn.
  destruct (Nat.leb_spec (length b - 1) (i + (length b - 1))); [|lia].
  do 2 f_equal. lia.
Qed.

Lemma sqrt_sumsq_pos (v : list R) :
  nonconstant v →
  0 < sumsq (Base.centered v) / INR (length v) ∧ 0 < Base.std v
  ∧ Base.std v * Base.std v = sumsq (Base.centered v) / INR (length v).
Proof.
  intros Hv. pose proof (nonconstant_length v Hv) as Hlen.
  destruct (centered_nonzero v Hv) as (a & Ha & Ha0).
  pose proof (sumsq_pos _ _ Ha Ha0) as Hpos.
  assert (Hn : 0 < INR (length v)) by (apply lt_0_INR; lia).
  assert (Hq : 0 < sumsq (Base.centered v) / INR (length v))
    by (apply Rdiv_lt_0_compat; assumption).
  assert (Hstd : Base.std v = sqrt (sumsq (Base.centered v) / INR (length v))).
  { unfold Base.std, Base.mean, Base.centered. rewrite !length_map.
    reflexivity. }
  rewrite Hstd. split; [exact Hq|]. split; [by apply sqrt_lt_R0|].
  apply sqrt_sqrt. lra.
Qed.

(** The first component of [correlate] for two series of one length. *)
Lemma correlate_fst (v1 v2 : list R) :
  v1 ≠ [] → length v1 = length v2 →
  fst <$> Base.correlate v1 v2
  = Ok (dot (Base.centered v1) (Base.centered v2) / INR (length v1)
        / Base.std v1 / Base.std v2).
Proof.
  intros Hne Hlen. unfold Base.correlate.
  destruct (decide _) as [[->| ->]|_]; [done|by destruct v1|].
  cbn [fmap result_fmap fst]. f_equal.
  set (n := length v1) in *.
  assert (Hn : (1 ≤ n)%nat) by (subst n; destruct v1; [done|cbn; lia]).
  assert (Hc1 : length (Base.centered v1) = n)
    by (unfold Base.centered; apply length_map).
  assert (Hc2 : length (Base.centered v2) = n)
    by (unfold Base.centered; rewrite length_map; lia).
  unfold Base.xcorr. rewrite Hc1, Hc2.
  unfold Py.len. rewrite !length_map, length_seq.
  replace (Z.to_nat (Py.int_div (Z.of_nat (n + n - 1)) 2)) with (n - 1)%nat.
  2:{ unfold Py.int_div. rewrite Z.quot_div_nonneg by lia.
      rewrite <- (Z.div_unique (Z.of_nat (n + n - 1)) 2 (Z.of_nat n - 1) 1)
        by lia.
      lia. }
  rewrite map_map.
  erewrite nth_indep by (rewrite length_map, length_seq; lia).
  rewrite (map_nth (λ k, Base.xcorr_at _ _ k / INR n / Base.std v1 / Base.std v2)
                   _ 0%nat).
  rewrite seq_nth by lia. cbn [Nat.add].
  rewrite <- Hc2 at 1. rewrite xcorr_zero_lag. reflexivity.
Qed.

(** X11: for two non-constant series of one length the first component of
    [correlate] is Pearson's coefficient: it does not depend on the order of
    the two series and lies between -1 and 1. *)
Theorem correlate_pearson (v1 v2 : list R) :
  nonconstant v1 → nonconstant v2 → length v1 = length v2 →
  ∃ r, fst <$> Base.correlate v1 v2 = Ok r
       ∧ fst <$> Base.correlate v2 v1 = Ok r
       ∧ -1 <= r <= 1.
Proof.
  intros H1 H2 Hlen.
  pose proof (nonconstant_length v1 H1) as Hn1.
  destruct (sqrt_sumsq_pos v1 H1) as (Hq1 & Hs1 & Hss1).
  destruct (sqrt_sumsq_pos v2 H2) as (Hq2 & Hs2 & Hss2).
  rewrite <- Hlen in *.
  assert (Hn : 0 < INR (length v1)) by (apply lt_0_INR; lia).
  assert (Hne1 : v1 ≠ []) by (intros ->; cbn in Hn1; lia).
  assert (Hne2 : v2 ≠ []) by (intros ->; cbn in Hlen; lia).
  rewrite (correlate_fst v1 v2 Hne1 Hlen).
  rewrite (correlate_fst v2 v1 Hne2 (eq_sym Hlen)).
  rewrite <- Hlen, (dot_comm (Base.centered v2)).
  set (D := dot (Base.centered v1) (Base.centered v2)).
  set (n := INR (length v1)) in *.
  set (s1 := Base.std v1) in *. set (s2 := Base.std v2) in *.
  exists (D / n / s1 / s2). split; [reflexivity|]. split; [f_equal; field; lra|].
  pose proof (cauchy_schwarz (Base.centered v1) (Base.centered v2)) as HCS.
  fold D in HCS.
  set (A := sumsq (Base.centered v1)) in *.
  set (B := sumsq (Base.centered v2)) in *.
  assert (HA : A = n * (s1 * s1)) by (rewrite Hss1; field; lra).
  assert (HB : B = n * (s2 * s2)) by (rewrite Hss2; field; lra).
  set (m := n * s1 * s2).
  assert (Hm : 0 < m) by (unfold m; repeat apply Rmult_lt_0_compat; lra).
  assert (Hr : D / n / s1 / s2 = D / m) by (unfold m; field; lra).
  rewrite Hr.
  assert (HDm : D * D <= m * m).
  { replace (m * m) with (A * B) by (rewrite HA, HB; unfold m; ring).
    exact HCS. }
  assert (Habs : - m <= D <= m) by nra.
  split.
  - apply (Rmult_le_reg_r m); [exact Hm|]. unfold Rdiv.
    rewrite Rmult_assoc, Rinv_l by lra. lra.
  - apply (Rmult_le_reg_r m); [exact Hm|]. unfold Rdiv.
    rewrite Rmult_assoc, Rinv_l by lra. lra.
Qed.

Lemma rsum_shift (c : R) (v : list R) :
  Base.rsum (map (λ x, x + c) v) = Base.rsum v + INR (length v) * c.
Proof.
  induction v as [|x v IH]; [cbn; lra|].
  cbn [map length]. change (Base.rsum (?y :: ?l)) with (y + Base.rsum l).
  rewrite IH, S_INR. lra.
Qed.

Lemma centered_shift (c : R) (v : list R) :
  Base.centered (map (λ x, x + c) v) = Base.centered v.
Proof.
  destruct v as [|x0 v0]; [reflexivity|]. set (v := x0 :: v0).
  assert (Hn : 0 < INR (length v)) by (apply lt_0_INR; cbn; lia).
  unfold Base.centered. rewrite map_map. apply map_ext. intros x.
  unfold Base.mean. rewrite rsum_shift, length_map. field. lra.
Qed.

Lemma std_shift (c : R) (v : list R) :
  Base.std (map (λ x, x + c) v) = Base.std v.
Proof. unfold Base.std. by rewrite centered_shift. Qed.

(** X12: adding a constant to either series changes neither component of
    [correlate] (nor whether it raises). *)
Theorem correlate_shift_invariant (v1 v2 : list R) (c : R) :
  Base.correlate (map (λ x, x + c) v1) v2 = Base.correlate v1 v2
  ∧ Base.correlate v1 (map (λ x, x + c) v2) = Base.correlate v1 v2.
Proof.
  unfold Base.correlate.
  rewrite !centered_shift, !std_shift, !length_map.
  split; destruct v1, v2; cbn [map]; repeat case_decide;
    try reflexivity; exfalso; naive_solver.
Qed.

Lemma ramp_nonconstant : nonconstant [0; 1; 2; 4].
Proof. exists 0, 1. split; [set_solver|]. split; [set_solver|lra]. Qed.

Lemma correlate_pearson_witness :
  ∃ r, fst <$> Base.correlate square_wave [0; 1; 2; 4] = Ok r
       ∧ fst <$> Base.correlate [0; 1; 2; 4] square_wave = Ok r
       ∧ -1 <= r <= 1.
Proof.
  apply (correlate_pearson square_wave [0; 1; 2; 4]);
    [apply square_wave_nonconstant | apply ramp_nonconstant | reflexivity].
Defined.
End CorrelateMore.

(** ** The multiresolution lemmas on concrete data *)

Section MultiresWitnesses.
Local Open Scope R_scope.


Lemma level_step_persists_residual_witness :
  ∃ self' st' df' d preds,
    DMD.level_step (ext := OneMode.external) ["p"] ["data"] ["mr"] "p" 0
      (unit_self, DMD.make_level_dirs ["mr"] 1 geometric_store, [[1]; [2]])
    = Ok (self', st', df')
    ∧ level_input ["mr"] "p" 0 (DMD.make_level_dirs ["mr"] 1 geometric_store)
                  [[1]; [2]] = Ok d
    ∧ Forall2 (λ i P, files st' !! (["mr"] ++ [DMD.level_dir 0; pretty i; "p";
                                              "prediction"])
                      = Some (Table P))
              (Py.range (2 ^ 0)) preds
    ∧ length (concat preds) = length d
    ∧ df' = Mat.zip2 Rminus d (concat preds)
    ∧ length df' = length d
    ∧ files st' !! (["mr"] ++ [DMD.level_dir 0; "p"; "level_prediction"])
      = Some (Table df').
Proof.
  destruct level_loop_geometric as (self' & st1 & Hloop & _).
  change (Py.range 1) with [0%nat] in Hloop. cbn [for_each] in Hloop.
  destruct (DMD.level_step _ _ _ _ _ _) as [[[s t] r]|e] eqn:Hstep;
    [|discriminate Hloop].
  exists s, t, r.
  destruct (level_step_persists_residual (ext := OneMode.external)
              ["p"] ["data"] ["mr"] "p" 0 unit_self s
              (DMD.make_level_dirs ["mr"] 1 geometric_store) t
              [[1]; [2]] r Hstep) as (d & preds & H).
  exists d, preds. split; [reflexivity|exact H].
Defined.

Lemma multires_predict_var_sums_witness :
  ∃ st' p0 ps,
    DMD.multires_predict_var ["mr"] "p" one_level_store = Ok st'
    ∧ Forall2 (λ level P,
                 files one_level_store
                   !! (["mr"] ++ [DMD.level_dir level; "p"; "level_prediction"])
                 = Some (Table P))
              (Py.range (DMD.discover_levels ["mr"] one_level_store))
              (p0 :: ps)
    ∧ files st' !! (["mr"] ++ ["p"; "prediction"])
      = Some (Table (foldl (Mat.zip2 Rplus) p0 ps)).
Proof.
  destruct (DMD.multires_predict_var ["mr"] "p" one_level_store) as [st'|e]
    eqn:Hrun; [|vm_compute in Hrun; discriminate Hrun].
  exists st'.
  destruct (multires_predict_var_sums ["mr"] "p" one_level_store st' Hrun)
    as (p0 & ps & H).
  exists p0, ps. split; [reflexivity|exact H].
Defined.

Lemma multires_end_none_raises_witness :
  DMD.multires_var (ext := OneMode.external) ["p"] ["data"] ["mr"] 1 None "p"
                   (unit_self, geometric_store) = Raise TypeError.
Proof.
  apply (multires_end_none_raises (ext := OneMode.external) unit_self ["p"]
           ["data"] ["mr"] 1 "p" geometric_store [[1]; [2]]).
  reflexivity.
Defined.
End MultiresWitnesses.

(** ** The coordinate files *)

Section Copy.

Lemma copy_spec (src dst : path) (name : string) (st : store) :
  FS.copy (src ++ [name]) dst st
  = match files st !! (src ++ [name]) with
    | Some a => Ok (FS.write (dst ++ [name]) a st)
    | None => Raise FileNotFoundError
    end.
Proof. unfold FS.copy. by rewrite last_snoc. Qed.

Lemma snoc_ne (p q : path) (a b : string) : a ≠ b → p ++ [a] ≠ q ++ [b].
Proof. intros Hab H. apply app_inj_2 in H as [_ [= H]]; done. Qed.

(** The coordinate files are copied one after the other until one is
    missing. *)
Lemma copy_coordinates_eq (src dst : path) (st : store) :
  POD.copy_coordinates src dst st
  = match files st !! (src ++ ["x.pkl"]) with
    | None => st
    | Some ax =>
        let st1 := FS.write (dst ++ ["x.pkl"]) ax st in
        match files st !! (src ++ ["y.pkl"]) with
        | None => st1
        | Some ay =>
            let st2 := FS.write (dst ++ ["y.pkl"]) ay st1 in
            match files st !! (src ++ ["z.pkl"]) with
            | None => st2
            | Some az => FS.write (dst ++ ["z.pkl"]) az st2
            end
        end
    end.
Proof.
  unfold POD.copy_coordinates. rewrite copy_spec.
  destruct (files st !! (src ++ ["x.pkl"])) as [ax|]; [|reflexivity].
  rewrite copy_spec, files_write_ne by (by apply snoc_ne).
  destruct (files st !! (src ++ ["y.pkl"])) as [ay|]; [|reflexivity].
  rewrite copy_spec, !files_write_ne by (by apply snoc_ne).
  destruct (files st !! (src ++ ["z.pkl"])) as [az|]; reflexivity.
Qed.

(** X13: the copy of the coordinate files into an existing folder stops at
    the first missing one: [x.pkl] is copied when it exists, [y.pkl] only
    when [x.pkl] exists too, [z.pkl] only when both do; nothing else
    changes. *)
Theorem copy_coordinates_first_missing (src dst : path) (st : store) :
  FS.is_dir dst st = true →
  let st' := POD.copy_coordinates src dst st in
  let X := files st !! (src ++ ["x.pkl"]) in
  let Y := files st !! (src ++ ["y.pkl"]) in
  let Z := files st !! (src ++ ["z.pkl"]) in
  dirs st' = dirs st
  ∧ files st' !! (dst ++ ["x.pkl"])
    = match X with
      | Some a => Some a
      | None => files st !! (dst ++ ["x.pkl"])
      end
  ∧ files st' !! (dst ++ ["y.pkl"])
    = match X, Y with
      | Some _, Some a => Some a
      | _, _ => files st !! (dst ++ ["y.pkl"])
      end
  ∧ files st' !! (dst ++ ["z.pkl"])
    = match X, Y, Z with
      | Some _, Some _, Some a => Some a
      | _, _, _ => files st !! (dst ++ ["z.pkl"])
      end
  ∧ ∀ q, q ∉ [dst ++ ["x.pkl"]; dst ++ ["y.pkl"]; dst ++ ["z.pkl"]] →
         files st' !! q = files st !! q.
Proof.
  intros _ st' X Y Z. subst st'. rewrite copy_coordinates_eq. fold X Y Z.
  assert (Hxy : ∀ p : path, p ++ ["x.pkl"] ≠ p ++ ["y.pkl"])
    by (intros p; by apply snoc_ne).
  assert (Hxz : ∀ p : path, p ++ ["x.pkl"] ≠ p ++ ["z.pkl"])
    by (intros p; by apply snoc_ne).
  assert (Hyz : ∀ p : path, p ++ ["y.pkl"] ≠ p ++ ["z.pkl"])
    by (intros p; by apply snoc_ne).
  assert (Hout : ∀ q (a : artifact) (s : store) (n : string),
            q ∉ [dst ++ ["x.pkl"]; dst ++ ["y.pkl"]; dst ++ ["z.pkl"]] →
            n ∈ ["x.pkl"; "y.pkl"; "z.pkl"] →
            files (FS.write (dst ++ [n]) a s) !! q = files s !! q).
  { intros q a s n Hq Hn. apply files_write_ne. set_solver. }
  destruct X as [ax|], Y as [ay|], Z as [az|]; cbn zeta;
    (split; [reflexivity|]);
    (split; [|split; [|split]]);
    try (intros q Hq; rewrite ?Hout by (done || set_solver); reflexivity);
    rewrite ?files_write_eq;
    repeat first [ reflexivity
                 | rewrite files_write_eq
                 | rewrite files_write_ne by (done || (symmetry; done)) ].
Qed.

Lemma copy_coordinates_first_missing_witness :
  let st := FS.makedirs ["usv"] geometric_store in
  let st' := POD.copy_coordinates ["data"] ["usv"] st in
  dirs st' = dirs st
  ∧ files st' !! (["usv"] ++ ["x.pkl"])
    = match files st !! (["data"] ++ ["x.pkl"]) with
      | Some a => Some a
      | None => files st !! (["usv"] ++ ["x.pkl"])
      end
  ∧ files st' !! (["usv"] ++ ["y.pkl"])
    = match files st !! (["data"] ++ ["x.pkl"]),
            files st !! (["data"] ++ ["y.pkl"]) with
      | Some _, Some a => Some a
      | _, _ => files st !! (["usv"] ++ ["y.pkl"])
      end
  ∧ files st' !! (["usv"] ++ ["z.pkl"])
    = match files st !! (["data"] ++ ["x.pkl"]),
            files st !! (["data"] ++ ["y.pkl"]),
            files st !! (["data"] ++ ["z.pkl"]) with
      | Some _, Some _, Some a => Some a
      | _, _, _ => files st !! (["usv"] ++ ["z.pkl"])
      end
  ∧ ∀ q, q ∉ [["usv"] ++ ["x.pkl"]; ["usv"] ++ ["y.pkl"];
              ["usv"] ++ ["z.pkl"]] →
         files st' !! q = files st !! q.
Proof.
  apply (copy_coordinates_first_missing ["data"] ["usv"]
           (FS.makedirs ["usv"] geometric_store)).
  vm_compute. reflexivity.
Defined.
End Copy.

(** ** The bounds of the domain *)

Section Bounds.
Local Open Scope R_scope.






End Bounds.

(** ** The stages from disk and in sequence *)

Section Pipeline.
Context {ext : External}.

(** On a folder that holds none of the variables the guard asks nothing: it
    makes the folder if need be and returns the variables as they are. *)
Lemma guard_loop_fresh (p : path) (vars acc : list string) (st : store) :
  (∀ var, var ∈ vars → FS.is_dir (p ++ [var]) st = false) →
  ∃ st', POD.guard_loop p vars acc st = Ok (acc, st')
         ∧ files st' = files st
         ∧ ∀ q, ¬ q `prefix_of` p → (q ∈ dirs st' ↔ q ∈ dirs st).
Proof.
  revert st. induction vars as [|var vars IH]; intros st Hfresh.
  - exists st. done.
  - cbn [POD.guard_loop].
    pose proof (get_folderlist_has_spec p var st) as (Hfound & Hfiles & Hdir).
    assert (Hdirs : ∀ q, ¬ q `prefix_of` p →
              (q ∈ dirs (POD.get_folderlist_has p var st).2 ↔ q ∈ dirs st)).
    { intros q Hq. unfold POD.get_folderlist_has.
      destruct (FS.is_dir p st); cbn [snd]; [done|].
      unfold FS.makedirs. cbn [dirs].
      rewrite elem_of_union, elem_of_list_to_set, list_elem_of_fmap.
      split; [|by left]. intros [H|(n & -> & _)]; [exact H|].
      exfalso. apply Hq, prefix_take. }
    destruct (POD.get_folderlist_has p var st) as [found st0].
    cbn [fst snd] in *. subst found.
    rewrite (Hfresh var) by set_solver.
    destruct (IH st0) as (st' & -> & Hf & Hd).
    { intros v Hv. rewrite Hdir. apply Hfresh. set_solver. }
    exists st'. split; [reflexivity|]. split; [congruence|].
    intros q Hq. rewrite Hd by done. by apply Hdirs.
Qed.

Lemma overwrite_guard_fresh (p : path) (vars : list string) (st : store) :
  (∀ var, var ∈ vars → FS.is_dir (p ++ [var]) st = false) →
  ∃ st', POD.overwrite_guard p vars st = Ok (vars, st')
         ∧ files st' = files st
         ∧ ∀ q, ¬ q `prefix_of` p → (q ∈ dirs st' ↔ q ∈ dirs st).
Proof.
  intros Hfresh. destruct (guard_loop_fresh p vars [] st Hfresh)
    as (st' & Hrun & Hf & Hd).
  exists st'. unfold POD.overwrite_guard. rewrite Hrun. done.
Qed.

(** The copy of the coordinate files writes under [dst] only, and what it
    writes there is what [src] holds under the same name. *)
Lemma copy_coordinates_frame (src dst : path) (st : store) :
  dirs (POD.copy_coordinates src dst st) = dirs st
  ∧ (∀ q, (∀ c, q ≠ dst ++ [c]) →
          files (POD.copy_coordinates src dst st) !! q = files st !! q)
  ∧ ∀ v, files (POD.copy_coordinates src dst st) !! (src ++ [v])
         = files st !! (src ++ [v]).
Proof.
  rewrite copy_coordinates_eq.
  assert (Hsrc : ∀ (c v : string) (a : artifact) (s : store),
            files st !! (src ++ [c]) = Some a →
            files s !! (src ++ [v]) = files st !! (src ++ [v]) →
            files (FS.write (dst ++ [c]) a s) !! (src ++ [v])
            = files st !! (src ++ [v])).
  { intros c v a s Ha Hs. rewrite files_write. case_decide as Heq; [|exact Hs].
    apply path_snoc_inj in Heq as [-> ->]. by rewrite Ha. }
  destruct (files st !! (src ++ ["x.pkl"])) as [ax|] eqn:Hx; [|done].
  destruct (files st !! (src ++ ["y.pkl"])) as [ay|] eqn:Hy;
    [destruct (files st !! (src ++ ["z.pkl"])) as [az|] eqn:Hz|]; cbn zeta;
    (split; [reflexivity|]);
    (split; [intros q Hq; by rewrite !files_write_ne by (symmetry; apply Hq)|]);
    intros v; repeat (apply Hsrc; [done|]); reflexivity.
Qed.

Lemma for_each_preserves {A S} (P : S → Prop) (l : list A)
    (body : A → S → result S) :
  (∀ x s s', body x s = Ok s' → P s → P s') →
  ∀ s s', for_each l body s = Ok s' → P s → P s'.
Proof.
  intros Hbody. induction l as [|x l IH]; intros s s' Hrun Hs; cbn in Hrun.
  - by injection Hrun as <-.
  - apply bind_Ok in Hrun as (s1 & H1 & Hrun).
    eapply IH; [exact Hrun|]. eapply Hbody; [exact H1|exact Hs].
Qed.

Lemma decimate_defaults_dt (self : Self) :
  dt (Base.decimate_defaults self) = dt self.
Proof. reflexivity. Qed.

Lemma svd_var_dt (pq pod : path) (flag : bool) (mem : option frame)
    (var : string) (s s' : Self * store) :
  POD.svd_var pq pod flag mem var s = Ok s' → dt s'.1 = dt s.1.
Proof.
  destruct s as [self st]. unfold POD.svd_var.
  intros H. apply bind_Ok in H as (df & _ & H).
  destruct (Base.data_decimate self df flag false) as [self1 r] eqn:Hd.
  assert (self1 = Base.decimate_defaults self) as ->
    by (rewrite <- (data_decimate_fst self df flag false), Hd; reflexivity).
  apply bind_Ok in H as (df1 & _ & H). apply bind_Ok in H as (a & _ & H).
  destruct (svd a) as [[u sv] v]. by injection H as <-.
Qed.

Lemma Atilde_var_dt (pq pod dmd : path) (mem : option frame)
    (var : string) (s s' : Self * store) :
  DMD.Atilde_var pq pod dmd mem var s = Ok s' → dt s'.1 = dt s.1.
Proof.
  destruct s as [self st]. unfold DMD.Atilde_var.
  intros H. apply bind_Ok in H as (df & _ & H).
  destruct (Base.data_decimate self df false true) as [self1 r] eqn:Hd.
  assert (self1 = Base.decimate_defaults self) as ->
    by (rewrite <- (data_decimate_fst self df false true), Hd; reflexivity).
  repeat (apply bind_Ok in H as (? & _ & H)). by injection H as <-.
Qed.

Lemma modes_var_dt (pq dmd pod : path) (proj : bool) (mem : option frame)
    (var : string) (s s' : Self * store) :
  DMD.modes_var pq dmd pod proj mem var s = Ok s' → dt s'.1 = dt s.1.
Proof.
  destruct s as [self st]. unfold DMD.modes_var.
  intros H. apply bind_Ok in H as (A & _ & H).
  destruct (eig A) as [L W].
  apply bind_Ok in H as (u & _ & H). apply bind_Ok in H as (v & _ & H).
  apply bind_Ok in H as (df & _ & H).
  apply bind_Ok in H as ([self1 phi] & Hphi & H).
  apply bind_Ok in H as (init & _ & H). injection H as <-. cbn [fst].
  destruct proj.
  - by injection Hphi as <- _.
  - destruct (Base.data_decimate self df false true) as [self2 r] eqn:Hd.
    assert (self2 = Base.decimate_defaults self) as ->
      by (rewrite <- (data_decimate_fst self df false true), Hd; reflexivity).
    apply bind_Ok in Hphi as (? & _ & Hphi).
    apply bind_Ok in Hphi as (? & _ & Hphi). by injection Hphi as <- _.
Qed.

Lemma prefix_same_length (p q l1 l2 : path) :
  length p = length q → (p ++ l1) `prefix_of` (q ++ l2) → p = q.
Proof.
  intros Hlen [t Ht]. rewrite <- app_assoc in Ht. symmetry in Ht.
  by apply app_inj_1 in Ht as [-> _].
Qed.

(** Without a stride the decimation returns. *)
Lemma data_decimate_without_skip (self : Self) (df : frame) (a b : bool) :
  attr_value (data_skip self) = None →
  ∃ c, snd (Base.data_decimate self df a b) = Ok (with_cols df c).
Proof.
  intros Hskip.
  destruct (snd (Base.data_decimate self df a b)) as [d|e] eqn:Hd.
  - destruct (data_decimate_Ok self df d a b Hd) as (c3 & _ & ->). eauto.
  - exfalso. assert (Hskip' : attr_value (data_skip (Base.decimate_defaults self))
                              = None)
      by (destruct self as [? ? [[?|]|] ? ?]; done).
    unfold Base.data_decimate in Hd. cbn [snd] in Hd.
    rewrite Hskip' in Hd. discriminate Hd.
Qed.

(** [svd_save_usv] reading from disk into a folder that holds none of the
    variables. *)
Lemma svd_stage (self : Self) (variables : list string) (pq pod : path)
    (flag : bool) (st : store) (X D : string → matrix R)
    (Hfresh : ∀ var, var ∈ variables → FS.is_dir (pod ++ [var]) st = false)
    (Hnames : ∀ var, var ∈ variables → var ∉ ["u"; "v"; "s.pkl"])
    (HX : ∀ var, var ∈ variables →
            files st !! (pq ++ [var]) = Some (Table (X var)))
    (HD : ∀ var, var ∈ variables →
            snd (Base.data_decimate self (DaskFrame (X var)) flag false)
            = Ok (DaskFrame (D var))) :
  ∃ s',
    POD.svd_save_usv self variables pq pod flag None st = Ok s'
    ∧ same_decimation s'.1 self ∧ dt s'.1 = dt self
    ∧ (∀ q, ¬ q `prefix_of` pod → (q ∈ dirs s'.2 ↔ q ∈ dirs st))
    ∧ (∀ q, ¬ svd_outputs pod variables q → (∀ c, q ≠ pod ++ [c]) →
            files s'.2 !! q = files st !! q)
    ∧ (∀ var, var ∈ variables →
         files s'.2 !! (pq ++ [var]) = Some (Table (X var)))
    ∧ ∀ var, var ∈ variables →
        files s'.2 !! (pod ++ [var; "u"]) = Some (Table (svd (D var)).1.1)
        ∧ files s'.2 !! (pod ++ [var; "v"]) = Some (Table (svd (D var)).2)
        ∧ files s'.2 !! (pod ++ [var; "s.pkl"])
          = Some (PickleSeries (svd (D var)).1.2).
Proof.
  destruct (overwrite_guard_fresh pod variables st Hfresh)
    as (st1 & Hguard & Hf1 & Hd1).
  destruct (copy_coordinates_frame pq pod st1) as (Hd2 & Hf2 & Hsrc2).
  set (st2 := POD.copy_coordinates pq pod st1) in *.
  assert (HX2 : ∀ var, var ∈ variables →
            files st2 !! (pq ++ [var]) = Some (Table (X var))).
  { intros var Hvar. rewrite Hsrc2, Hf1. by apply HX. }
  destruct (svd_loop_spec self variables pq pod flag None st2 X D Hnames)
    as (s' & Hrun & (Hdec & Hdirs & Hfr) & Hpost).
  { intros var Hvar. unfold POD.load_frame, FS.read_parquet.
    by rewrite (HX2 var Hvar). }
  { exact HD. }
  exists s'. split.
  { unfold POD.svd_save_usv. rewrite Hguard. cbn [mbind result_bind].
    exact Hrun. }
  split; [exact Hdec|]. split.
  { apply (for_each_preserves (λ s, dt s.1 = dt self) _ _
             (λ x s s' H Hs, eq_trans (svd_var_dt _ _ _ _ _ _ _ H) Hs)
             _ _ Hrun). reflexivity. }
  split.
  { intros q Hq. rewrite Hdirs, Hd2. by apply Hd1. }
  split.
  { intros q Hq Hc. rewrite Hfr, Hf2, Hf1 by done. reflexivity. }
  split; [|exact Hpost].
  intros var Hvar. rewrite Hfr; [by apply HX2|].
  intros (var' & name & Hvar' & Hname & Heq).
  apply path_snoc12_last in Heq. subst name. by apply (Hnames var Hvar).
Qed.

(** [save_Atilde] reading from disk into a folder that holds none of the
    variables, next to the folder of the SVD. *)
Lemma Atilde_stage (self : Self) (variables : list string) (pq pod dmd : path)
    (st : store) (X X2 U V : string → matrix R) (S : string → vect R)
    (Hlen : length pod = length dmd)
    (Hfresh : ∀ var, var ∈ variables → FS.is_dir (dmd ++ [var]) st = false)
    (Hnames : ∀ var, var ∈ variables → var ≠ "Atilde.pkl")
    (HX : ∀ var, var ∈ variables →
            files st !! (pq ++ [var]) = Some (Table (X var)))
    (HD : ∀ var, var ∈ variables →
            snd (Base.data_decimate self (DaskArray (X var)) false true)
            = Ok (DaskArray (X2 var)))
    (HU : ∀ var, var ∈ variables →
            files st !! (pod ++ [var; "u"]) = Some (Table (U var)))
    (HS : ∀ var, var ∈ variables →
            files st !! (pod ++ [var; "s.pkl"]) = Some (PickleSeries (S var)))
    (HV : ∀ var, var ∈ variables →
            files st !! (pod ++ [var; "v"]) = Some (Table (V var))) :
  ∃ s',
    DMD.save_Atilde self variables pq pod dmd None st = Ok s'
    ∧ same_decimation s'.1 self ∧ dt s'.1 = dt self
    ∧ (∀ q, ¬ Atilde_outputs dmd variables q → (∀ c, q ≠ dmd ++ [c]) →
            files s'.2 !! q = files st !! q)
    ∧ (∀ var, var ∈ variables →
         files s'.2 !! (pq ++ [var]) = Some (Table (X var)))
    ∧ ∀ var, var ∈ variables →
        files s'.2 !! (dmd ++ [var; "Atilde.pkl"])
        = Some (PickleMatrix (DMD.Atilde_of (U var) (S var) (V var) (X2 var))).
Proof.
  destruct (overwrite_guard_fresh dmd variables st Hfresh)
    as (st1 & Hguard & Hf1 & Hd1).
  destruct (copy_coordinates_frame pq dmd st1) as (Hd2 & Hf2 & Hsrc2).
  set (st2 := POD.copy_coordinates pq dmd st1) in *.
  assert (HX2 : ∀ var, var ∈ variables →
            files st2 !! (pq ++ [var]) = Some (Table (X var))).
  { intros var Hvar. rewrite Hsrc2, Hf1. by apply HX. }
  assert (Hpod : ∀ (var name c : string), pod ++ [var; name] ≠ dmd ++ [c]).
  { intros var name c Heq. apply (f_equal length) in Heq.
    rewrite !length_app in Heq. cbn in Heq. lia. }
  destruct (Atilde_loop_spec self variables pq pod dmd None st2 X X2 U V S
              Hnames)
    as (s' & Hrun & (Hdec & Hdirs & Hfr) & Hpost).
  { intros var Hvar. unfold DMD.load_array, FS.read_parquet.
    by rewrite (HX2 var Hvar). }
  { exact HD. }
  { intros var Hvar. rewrite Hf2, Hf1 by apply Hpod. by apply HU. }
  { intros var Hvar. rewrite Hf2, Hf1 by apply Hpod. by apply HS. }
  { intros var Hvar. rewrite Hf2, Hf1 by apply Hpod. by apply HV. }
  exists s'. split.
  { unfold DMD.save_Atilde. rewrite Hguard. cbn [mbind result_bind].
    exact Hrun. }
  split; [exact Hdec|]. split.
  { apply (for_each_preserves (λ s, dt s.1 = dt self) _ _
             (λ x s s' H Hs, eq_trans (Atilde_var_dt _ _ _ _ _ _ _ H) Hs)
             _ _ Hrun). reflexivity. }
  split.
  { intros q Hq Hc. rewrite Hfr, Hf2, Hf1 by done. reflexivity. }
  split; [|exact Hpost].
  intros var Hvar. rewrite Hfr; [by apply HX2|].
  intros (var' & Hvar' & Heq).
  apply path_snoc12_last in Heq. by apply (Hnames var Hvar).
Qed.

Lemma artifact_names_cover (n : string) :
  n ∈ ["u"; "v"; "s.pkl"] ∨ n = "Atilde.pkl"
  ∨ n ∈ ["modes_real"; "modes_imag"; "b.pkl"; "lambda.pkl"]
  ∨ n = "prediction" →
  n ∈ artifact_names.
Proof.
  unfold artifact_names. intros [H|[->|[H| ->]]];
    repeat (apply elem_of_cons in H as [->|H]);
    try (by apply elem_of_nil in H);
    repeat first [apply list_elem_of_here | apply list_elem_of_further].
Qed.

(** X15: the four stages called in their order on variables read from
    disk, with two distinct sibling output folders that hold none of the
    variables yet, a timestep, no stride and a non-zero frame skip: none of
    the calls raises, the input tables are left as they were, and every
    variable's [prediction] is [Re(Phi @ (b * exp(omega t)))] built from the
    SVD of [X1], the reduced operator, its eigenpairs and the amplitudes
    fitted to the first snapshot. *)
Theorem dmd_pipeline_runs (self : Self) (variables : list string)
    (pq pod dmd : path) (proj : bool) (e f : Z) (d : R) (st : store)
    (X : string → matrix R)
    (Hlen : length pod = length dmd) (Hne : pod ≠ dmd)
    (Hnames : ∀ var, var ∈ variables → var ∉ artifact_names)
    (Hfresh1 : ∀ var, var ∈ variables → FS.is_dir (pod ++ [var]) st = false)
    (Hfresh2 : ∀ var, var ∈ variables → FS.is_dir (dmd ++ [var]) st = false)
    (HX : ∀ var, var ∈ variables →
            files st !! (pq ++ [var]) = Some (Table (X var)))
    (Hcols : ∀ var, var ∈ variables → X var ≠ [])
    (Hskip : attr_value (data_skip self) = None)
    (Hdt : dt self = Some d) (Hf : f ≠ 0%Z) :
  ∃ s1 s2 s3 st4,
    POD.svd_save_usv self variables pq pod true None st = Ok s1
    ∧ DMD.save_Atilde s1.1 variables pq pod dmd None s1.2 = Ok s2
    ∧ DMD.save_modes s2.1 variables pq dmd pod proj None s2.2 = Ok s3
    ∧ DMD.save_prediction s3.1 variables dmd (Some e) f s3.2 = Ok st4
    ∧ ∀ var, var ∈ variables →
        files st4 !! (pq ++ [var]) = Some (Table (X var))
        ∧ ∃ X1 X2,
            snd (Base.data_decimate self (DaskFrame (X var)) true false)
            = Ok (DaskFrame X1)
            ∧ snd (Base.data_decimate self (DaskArray (X var)) false true)
              = Ok (DaskArray X2)
            ∧ let U := (svd X1).1.1 in
              let S := (svd X1).1.2 in
              let V := (svd X1).2 in
              let A := DMD.Atilde_of U S V X2 in
              let Phi := modes_of proj U V X2 S A in
              let b := lstsq Phi (hd [] (X var)) in
              files st4 !! (dmd ++ [var; "prediction"])
              = Some (Table
                        (DMD.prediction_of
                           (DMD.recombine (Mat.map2 Cx.re Phi)
                                          (Mat.map2 Cx.im Phi))
                           b (DMD.omega_of d (eig A).1) (instants d e f))).
Proof.
  set (D1 := λ var, match snd (Base.data_decimate self (DaskFrame (X var))
                                                  true false) with
                    | Ok df => cols df | Raise _ => [] end).
  set (D2 := λ var, match snd (Base.data_decimate self (DaskArray (X var))
                                                  false true) with
                    | Ok df => cols df | Raise _ => [] end).
  assert (HD1 : ∀ var, snd (Base.data_decimate self (DaskFrame (X var))
                                                true false)
                       = Ok (DaskFrame (D1 var))).
  { intros var. unfold D1.
    destruct (data_decimate_without_skip self (DaskFrame (X var)) true false
                Hskip) as (c & ->). reflexivity. }
  assert (HD2 : ∀ var, snd (Base.data_decimate self (DaskArray (X var))
                                                false true)
                       = Ok (DaskArray (D2 var))).
  { intros var. unfold D2.
    destruct (data_decimate_without_skip self (DaskArray (X var)) false true
                Hskip) as (c & ->). reflexivity. }
  assert (Hname : ∀ var n, var ∈ variables → n ∈ artifact_names → var ≠ n).
  { intros var n Hvar Hn ->. by apply (Hnames n Hvar). }
  (* stage 1 *)
  destruct (svd_stage self variables pq pod true st X D1 Hfresh1)
    as (s1 & Hrun1 & Hdec1 & Hdt1 & Hdirs1 & Hfr1 & Hdata1 & Hpost1);
    [intros var Hvar Hin; apply (Hnames var Hvar), artifact_names_cover;
       by left
    |exact HX|intros; apply HD1|].
  (* stage 2 *)
  assert (Hfresh2' : ∀ var, var ∈ variables →
            FS.is_dir (dmd ++ [var]) s1.2 = false).
  { intros var Hvar. rewrite <- (Hfresh2 var Hvar). apply is_dir_congr.
    - apply Hdirs1. intros Hp. apply prefix_length in Hp.
      rewrite length_app in Hp. cbn in Hp. lia.
    - intros k Hk. apply Hfr1.
      + intros (var' & name & _ & _ & ->). apply Hne. symmetry.
        by apply (prefix_same_length dmd pod [var] [var'; name]).
      + intros c ->. apply Hne. symmetry.
        by apply (prefix_same_length dmd pod [var] [c]). }
  destruct (Atilde_stage s1.1 variables pq pod dmd s1.2 X D2
              (λ var, (svd (D1 var)).1.1) (λ var, (svd (D1 var)).2)
              (λ var, (svd (D1 var)).1.2) Hlen Hfresh2')
    as (s2 & Hrun2 & Hdec2 & Hdt2 & Hfr2 & Hdata2 & Hpost2);
    [intros var Hvar; apply Hname; [done|apply artifact_names_cover; tauto]
    |exact Hdata1
    |intros var Hvar; rewrite Hdec1; apply HD2
    |intros var Hvar; apply Hpost1, Hvar..|].
  assert (Hkeep2 : ∀ var name, var ∈ variables → name ≠ "Atilde.pkl" →
            files s2.2 !! (pod ++ [var; name])
            = files s1.2 !! (pod ++ [var; name])).
  { intros var name Hvar Hn. apply Hfr2.
    - intros (var' & _ & Heq). apply path_snoc2_inj in Heq as (_ & _ & Hn').
      by apply Hn.
    - intros c Heq. apply (f_equal length) in Heq.
      rewrite !length_app in Heq. cbn in Heq. lia. }
  (* stage 3 *)
  destruct (modes_loop_spec s2.1 variables pq dmd pod proj None s2.2
              (λ var, DMD.Atilde_of (svd (D1 var)).1.1 (svd (D1 var)).1.2
                                    (svd (D1 var)).2 (D2 var))
              (λ var, (svd (D1 var)).1.1) (λ var, (svd (D1 var)).2) D2
              (λ var, tl (X var)) (λ var, (svd (D1 var)).1.2)
              (λ var, hd [] (X var)))
    as (s3 & Hrun3 & (Hdec3 & _ & Hfr3) & Hpost3).
  { intros var Hvar Hin. apply (Hnames var Hvar), artifact_names_cover.
    tauto. }
  { intros var Hvar. unfold DMD.load_array, FS.read_parquet.
    rewrite (Hdata2 var Hvar). cbn. do 2 f_equal.
    specialize (Hcols var Hvar). by destruct (X var). }
  { intros var Hvar. apply Hpost2, Hvar. }
  { intros var Hvar. rewrite Hkeep2 by done. apply Hpost1, Hvar. }
  { intros var Hvar. rewrite Hkeep2 by done. apply Hpost1, Hvar. }
  { intros _ var Hvar. rewrite Hkeep2 by done. apply Hpost1, Hvar. }
  { intros _ var Hvar. rewrite Hdec2, Hdec1.
    replace (hd [] (X var) :: tl (X var)) with (X var)
      by (specialize (Hcols var Hvar); by destruct (X var)).
    apply HD2. }
  assert (Hdt3 : dt s3.1 = Some d).
  { rewrite <- Hdt, <- Hdt1, <- Hdt2.
    apply (for_each_preserves (λ s, dt s.1 = dt s2.1) _ _
             (λ x s s' H Hs, eq_trans (modes_var_dt _ _ _ _ _ _ _ _ H) Hs)
             _ _ Hrun3). reflexivity. }
  (* stage 4 *)
  set (Phi := λ var, modes_of proj (svd (D1 var)).1.1 (svd (D1 var)).2 (D2 var)
                       (svd (D1 var)).1.2
                       (DMD.Atilde_of (svd (D1 var)).1.1 (svd (D1 var)).1.2
                                      (svd (D1 var)).2 (D2 var))) in *.
  destruct (prediction_loop_spec s3.1 variables dmd e f d s3.2
              (λ var, lstsq (Phi var) (hd [] (X var)))
              (λ var, (eig (DMD.Atilde_of (svd (D1 var)).1.1
                              (svd (D1 var)).1.2 (svd (D1 var)).2 (D2 var))).1)
              (λ var, Mat.map2 Cx.re (Phi var))
              (λ var, Mat.map2 Cx.im (Phi var)) Hf Hdt3)
    as (st4 & Hrun4 & _ & Hfr4 & Hpost4);
    [intros var Hvar; apply (Hpost3 var Hvar)..|].
  exists s1, s2, s3, st4.
  split; [exact Hrun1|]. split; [exact Hrun2|]. split; [exact Hrun3|].
  split.
  { unfold DMD.save_prediction. rewrite Hrun4. reflexivity. }
  intros var Hvar. split.
  - rewrite Hfr4, Hfr3; [by apply Hdata2| |].
    + intros (var' & name & _ & Hn & Heq). apply path_snoc12_last in Heq.
      subst name. apply (Hnames var Hvar), artifact_names_cover. tauto.
    + intros (var' & _ & Heq). apply path_snoc12_last in Heq.
      apply (Hnames var Hvar), artifact_names_cover. tauto.
  - exists (D1 var), (D2 var). split; [apply HD1|]. split; [apply HD2|].
    cbn zeta. apply (Hpost4 var Hvar).
Qed.
End Pipeline.

(** Discharge a hypothesis about the one variable [p]. *)
Ltac only_p :=
  let var := fresh "var" in
  let Hvar := fresh "Hvar" in
  intros var Hvar; apply list_elem_of_singleton in Hvar; subst var.

Lemma dmd_pipeline_runs_witness :
  ∃ s1 s2 s3 st4,
    POD.svd_save_usv (ext := OneMode.external) unit_self ["p"] ["data"]
                     ["usv"] true None geometric_store = Ok s1
    ∧ DMD.save_Atilde (ext := OneMode.external) s1.1 ["p"] ["data"] ["usv"]
                      ["dmd"] None s1.2 = Ok s2
    ∧ DMD.save_modes (ext := OneMode.external) s2.1 ["p"] ["data"] ["dmd"]
                     ["usv"] true None s2.2 = Ok s3
    ∧ DMD.save_prediction s3.1 ["p"] ["dmd"] (Some 2%Z) 1 s3.2 = Ok st4
    ∧ ∀ var, var ∈ ["p"] →
        files st4 !! (["data"] ++ [var]) = Some (Table [[1%R]; [2%R]])
        ∧ ∃ X1 X2,
            snd (Base.data_decimate unit_self (DaskFrame [[1%R]; [2%R]])
                                    true false)
            = Ok (DaskFrame X1)
            ∧ snd (Base.data_decimate unit_self (DaskArray [[1%R]; [2%R]])
                                      false true)
              = Ok (DaskArray X2)
            ∧ let U := (OneMode.svd1 X1).1.1 in
              let S := (OneMode.svd1 X1).1.2 in
              let V := (OneMode.svd1 X1).2 in
              let A := DMD.Atilde_of U S V X2 in
              let Phi := modes_of (ext := OneMode.external) true U V X2 S A in
              let b := OneMode.lstsq1 Phi (hd [] [[1%R]; [2%R]]) in
              files st4 !! (["dmd"] ++ [var; "prediction"])
              = Some (Table
                        (DMD.prediction_of
                           (DMD.recombine (Mat.map2 Cx.re Phi)
                                          (Mat.map2 Cx.im Phi))
                           b (DMD.omega_of 1 (OneMode.eig1 A).1)
                           (instants 1 2 1))).
Proof.
  apply (dmd_pipeline_runs (ext := OneMode.external) unit_self ["p"] ["data"]
           ["usv"] ["dmd"] true 2 1 1 geometric_store (λ _, [[1%R]; [2%R]]));
    try only_p; try reflexivity; try discriminate;
    try (vm_compute; reflexivity).
  unfold artifact_names. intros H.
  repeat (apply elem_of_cons in H as [H|H]; [discriminate H|]).
  by apply elem_of_nil in H.
Defined.

Section StageErrors.
Context {ext : External}.

Lemma decimate_frame_skip (self : Self) (m : matrix R) (k : Z) (a b : bool) :
  attr_value (data_skip self) = Some k →
  snd (Base.data_decimate self (DaskFrame m) a b) = Raise FrameIndexError.
Proof.
  intros Hk.
  assert (Hskip : attr_value (data_skip (Base.decimate_defaults self)) = Some k)
    by (destruct self as [? ? [[?|]|] ? ?]; done).
  unfold Base.data_decimate. cbn [snd]. rewrite Hskip. reflexivity.
Qed.

(** X16: with [data_skip] set, [svd_save_usv] reading from disk raises at
    its first variable: the table is a dataframe and the stride
    [df[:, ::data_skip]] has no [.iloc] fallback. *)
Theorem svd_save_usv_with_skip_raises (self : Self) (var : string)
    (vs : list string) (pq pod : path) (flag : bool) (st : store)
    (m : matrix R) (k : Z) :
  attr_value (data_skip self) = Some k →
  (∀ v, v ∈ var :: vs → FS.is_dir (pod ++ [v]) st = false) →
  files st !! (pq ++ [var]) = Some (Table m) →
  POD.svd_save_usv self (var :: vs) pq pod flag None st
  = Raise FrameIndexError.
Proof.
  intros Hk Hfresh Hm.
  destruct (overwrite_guard_fresh pod (var :: vs) st Hfresh)
    as (st1 & Hguard & Hf1 & _).
  destruct (copy_coordinates_frame pq pod st1) as (_ & _ & Hsrc).
  assert (Hl : POD.load_frame pq None var (POD.copy_coordinates pq pod st1)
               = Ok (DaskFrame m)).
  { unfold POD.load_frame, FS.read_parquet. by rewrite Hsrc, Hf1, Hm. }
  assert (Hbody : POD.svd_var pq pod flag None var
                     (self, POD.copy_coordinates pq pod st1)
                   = Raise FrameIndexError).
  { unfold POD.svd_var. rewrite Hl. cbn [mbind result_bind].
    pose proof (decimate_frame_skip self m k flag false Hk) as Hd.
    destruct (Base.data_decimate self (DaskFrame m) flag false) as [self1 r].
    cbn [snd] in Hd. subst r. reflexivity. }
  unfold POD.svd_save_usv. rewrite Hguard.
  cbn [mbind result_bind for_each]. rewrite Hbody. reflexivity.
Qed.

(** X17: without a timestep ([set_time] never called) [multires] raises
    [AttributeError] at level 0, after the folders were made and before any
    decomposition. *)
Theorem multires_without_dt_raises (self : Self) (variables : list string)
    (pq mr : path) (levels : nat) (e : Z) (var : string) (st : store)
    (m : matrix R) :
  dt self = None → (0 < levels)%nat →
  files st !! (pq ++ [var]) = Some (Table m) →
  DMD.multires_var variables pq mr levels (Some e) var (self, st)
  = Raise AttributeError.
Proof.
  intros Hdt Hlev Hm. unfold DMD.multires_var, FS.read_parquet.
  rewrite files_make_level_dirs, Hm. cbn [mbind result_bind].
  destruct levels as [|n]; [lia|].
  unfold Py.range. cbn [seq for_each DMD.level_step mbind result_bind].
  unfold DMD.get_dt. rewrite Hdt. reflexivity.
Qed.

Lemma prediction_of_width (phi : matrix Cplx) (b omega : vect Cplx)
    (time : list R) :
  length (DMD.prediction_of phi b omega time) = length time.
Proof.
  unfold DMD.prediction_of, Mat.map2, Cmatmul, Mat.matmul.
  by rewrite !length_map.
Qed.

(** X18: [save_prediction] with a given [end] and a non-zero [frame_skip]
    persists, for every variable, a prediction with
    [max(0, ceil(end / frame_skip))] columns, the length of
    [np.arange(0, end, frame_skip)]. *)
Theorem save_prediction_width
    (self : Self) (variables : list string) (dmd : path) (e f : Z) (d : R)
    (st : store) (B L : string → vect Cplx) (Re Im : string → matrix R)
    (Hf : f ≠ 0%Z)
    (Hdt : dt self = Some d)
    (HB : ∀ var, var ∈ variables →
            files st !! (dmd ++ [var; "b.pkl"]) = Some (PickleComplex (B var)))
    (HL : ∀ var, var ∈ variables →
            files st !! (dmd ++ [var; "lambda.pkl"])
            = Some (PickleComplex (L var)))
    (HR : ∀ var, var ∈ variables →
            files st !! (dmd ++ [var; "modes_real"]) = Some (Table (Re var)))
    (HI : ∀ var, var ∈ variables →
            files st !! (dmd ++ [var; "modes_imag"]) = Some (Table (Im var))) :
  ∃ st', DMD.save_prediction self variables dmd (Some e) f st = Ok st'
         ∧ ∀ var, var ∈ variables →
             ∃ P, files st' !! (dmd ++ [var; "prediction"]) = Some (Table P)
                  ∧ Z.of_nat (length P) = Z.max 0 (- ((- e) `div` f)).
Proof.
  destruct (prediction_loop_spec self variables dmd e f d st B L Re Im
              Hf Hdt HB HL HR HI) as (st' & Hrun & _ & _ & Hpost).
  exists st'. split; [unfold DMD.save_prediction; by rewrite Hrun|].
  intros var Hvar. eexists. split; [apply (Hpost var Hvar)|].
  rewrite prediction_of_width. unfold instants.
  rewrite length_map, length_seq. lia.
Qed.

(** X19: with [frame_skip = 0] [save_prediction] raises
    [ZeroDivisionError] at its first variable, once the variable's
    artifacts and the timestep have been read. *)
Theorem save_prediction_zero_skip_raises
    (self : Self) (var : string) (vs : list string) (dmd : path)
    (e : option Z) (d : R) (st : store) (b l : vect Cplx) (re im : matrix R) :
  dt self = Some d →
  files st !! (dmd ++ [var; "b.pkl"]) = Some (PickleComplex b) →
  files st !! (dmd ++ [var; "lambda.pkl"]) = Some (PickleComplex l) →
  files st !! (dmd ++ [var; "modes_real"]) = Some (Table re) →
  files st !! (dmd ++ [var; "modes_imag"]) = Some (Table im) →
  DMD.save_prediction self (var :: vs) dmd e 0 st = Raise ZeroDivisionError.
Proof.
  intros Hdt Hb Hl Hr Hi.
  assert (Hbody : DMD.prediction_var self dmd 0 var (e, st)
                   = Raise ZeroDivisionError).
  { unfold DMD.prediction_var.
    unfold utils.load_complex, utils.loadit, FS.read_parquet, DMD.get_dt.
    rewrite Hb, Hl, Hr, Hi, Hdt. reflexivity. }
  unfold DMD.save_prediction. cbn [for_each]. rewrite Hbody. reflexivity.
Qed.
End StageErrors.

Lemma svd_save_usv_with_skip_raises_witness :
  POD.svd_save_usv (ext := OneMode.external)
    (Base.set_data_skip new_self (Some 2%Z)) ["p"] ["data"] ["usv"] false None
    geometric_store
  = Raise FrameIndexError.
Proof.
  apply (svd_save_usv_with_skip_raises (ext := OneMode.external)
           (Base.set_data_skip new_self (Some 2%Z)) "p" [] ["data"] ["usv"]
           false geometric_store [[1%R]; [2%R]] 2).
  - reflexivity.
  - intros v Hv. apply list_elem_of_singleton in Hv. subst v.
    vm_compute. reflexivity.
  - reflexivity.
Defined.

Lemma multires_without_dt_raises_witness :
  DMD.multires_var (ext := OneMode.external) ["p"] ["data"] ["mr"] 1
                   (Some 2%Z) "p" (new_self, geometric_store)
  = Raise AttributeError.
Proof.
  apply (multires_without_dt_raises (ext := OneMode.external) new_self ["p"]
           ["data"] ["mr"] 1 2 "p" geometric_store [[1%R]; [2%R]]);
    [reflexivity | lia | reflexivity].
Defined.

Lemma save_prediction_width_witness :
  ∃ st', DMD.save_prediction unit_self ["p"] ["dmd"] (Some 5%Z) 2
                             one_mode_store = Ok st'
         ∧ ∀ var, var ∈ ["p"] →
             ∃ P, files st' !! (["dmd"] ++ [var; "prediction"])
                  = Some (Table P)
                  ∧ Z.of_nat (length P) = Z.max 0 (- ((- 5) `div` 2)).
Proof.
  apply (save_prediction_width unit_self ["p"] ["dmd"] 5 2 1 one_mode_store
           (λ _, [Cx.of_R 1]) (λ _, [Cx.of_R 2]) (λ _, [[1%R]]) (λ _, [[0%R]]));
    [discriminate | reflexivity | ..];
    intros var Hvar; apply list_elem_of_singleton in Hvar; subst var;
    reflexivity.
Defined.

Lemma save_prediction_zero_skip_raises_witness :
  DMD.save_prediction unit_self ["p"] ["dmd"] (Some 2%Z) 0 one_mode_store
  = Raise ZeroDivisionError.
Proof.
  apply (save_prediction_zero_skip_raises unit_self "p" [] ["dmd"] (Some 2%Z)
           1 one_mode_store [Cx.of_R 1] [Cx.of_R 2] [[1%R]] [[0%R]]);
    reflexivity.
Defined.

(** ** The list of folders *)

Section FolderList.

Lemma iterdir_spec (p : path) (st : store) (f : string) :
  f ∈ iterdir p st
  ↔ ∃ q, (q ∈ dirs st ∨ q ∈ dom (files st)) ∧ (p ++ [f]) `prefix_of` q.
Proof.
  unfold iterdir. rewrite elem_of_set_omap. split.
  - intros (q & Hq & Hf). exists q. split; [set_solver|].
    case_decide as Hp; [|discriminate Hf]. destruct Hp as [t ->].
    rewrite lookup_app_r, Nat.sub_diag in Hf by lia.
    destruct t as [|g t]; [discriminate Hf|]. injection Hf as ->.
    exists t. by rewrite <- app_assoc.
  - intros (q & Hq & [t ->]). exists ((p ++ [f]) ++ t). split; [set_solver|].
    rewrite decide_True by (rewrite <- app_assoc; by eexists).
    rewrite <- app_assoc, lookup_app_r, Nat.sub_diag by lia. reflexivity.
Qed.

Lemma is_dir_listed (p : path) (st : store) (f : string) :
  FS.is_dir (p ++ [f]) st = true → f ∈ iterdir p st.
Proof.
  intros H. apply is_dir_spec in H. apply iterdir_spec.
  destruct H as [H|(k & a & Hk & Hp & _)].
  - exists (p ++ [f]). split; [by left|done].
  - exists k. split; [right; apply elem_of_dom; eauto|done].
Qed.

(** X21: [get_folderlist] lists exactly the names that [overwrite_guard]
    tests for, leaving the same store behind whatever the flags;
    [ignoreStack] drops and [onlyStack] keeps the names whose part before the
    first underscore is "stack" (as every name [stack_...] has it); with
    both flags set the list is empty, although the warning says that
    [ignoreStack] is ignored. *)
Theorem get_folderlist_flags (p : path) (st : store) (f : string) :
  let st' := (get_folderlist p false false st).2 in
  (∀ a b, (get_folderlist p a b st).2 = st')
  ∧ st' = (POD.get_folderlist_has p f st).2
  ∧ (f ∈ (get_folderlist p false false st).1
     ↔ (POD.get_folderlist_has p f st).1 = true)
  ∧ (f ∈ (get_folderlist p true false st).1
     ↔ f ∈ (get_folderlist p false false st).1
       ∧ before_underscore f ≠ "stack")
  ∧ (f ∈ (get_folderlist p false true st).1
     ↔ f ∈ (get_folderlist p false false st).1
       ∧ before_underscore f = "stack")
  ∧ (get_folderlist p true true st).1 = ∅
  ∧ ∀ s, before_underscore ("stack_" +:+ s) = "stack".
Proof.
  unfold get_folderlist, POD.get_folderlist_has. cbn [fst snd].
  set (st0 := if FS.is_dir p st then st else FS.makedirs p st).
  split; [reflexivity|]. split; [reflexivity|]. split.
  { rewrite elem_of_filter. split; [tauto|].
    intros H. split; [exact H|by apply is_dir_listed]. }
  split; [rewrite !elem_of_filter; tauto|].
  split; [rewrite !elem_of_filter; tauto|].
  split; [|reflexivity].
  apply leibniz_equiv. intros g. rewrite !elem_of_filter.
  split; [tauto|]. intros H. by apply elem_of_empty in H.
Qed.
End FolderList.

(** ** Both correlations are bounded *)

Section CorrelateBounds.
Local Open Scope R_scope.

Lemma rsum_imap_map (f : nat → R → R) (a : list R) :
  imap f a = zip_with (λ l x, f l x) (seq 0 (length a)) a.
Proof.
  revert f. induction a as [|x a IH]; intros f; [reflexivity|].
  rewrite imap_cons. cbn [length seq zip_with]. f_equal.
  rewrite IH, <- seq_shift, zip_with_fmap_l. reflexivity.
Qed.

Lemma xcorr_at_dot (a b : list R) (k : nat) :
  Base.xcorr_at a b k
  = dot a (map (λ l, if (k <=? l + (length b - 1))%nat
                     then nth (l + (length b - 1) - k) b 0 else 0)
               (seq 0 (length a))).
Proof.
  unfold Base.xcorr_at, dot. f_equal. rewrite rsum_imap_map.
  rewrite zip_with_fmap_r.
  generalize (seq 0 (length a)). intros l. revert l.
  induction a as [|x a IH]; intros [|i l]; try reflexivity.
  cbn [zip_with]. f_equal; [|apply IH].
  destruct (_ <=? _)%nat; lra.
Qed.

Lemma sumsq_zeros {A} (l : list A) : sumsq (map (λ _, 0) l) = 0.
Proof. induction l as [|x l IH]; [reflexivity|]. cbn [map]. rewrite sumsq_cons, IH. lra. Qed.

Lemma sumsq_nth_le (c : list R) (n : nat) :
  sumsq (map (λ l, nth l c 0) (seq 0 n)) <= sumsq c.
Proof.
  revert n. induction c as [|x c IH]; intros n.
  - rewrite (map_ext _ (λ _, 0)) by (by intros []). rewrite sumsq_zeros.
    cbn. lra.
  - destruct n as [|n]; [apply sumsq_nonneg|].
    cbn [seq map nth]. rewrite !sumsq_cons, <- seq_shift, map_map.
    cbn [nth]. pose proof (IH n). lra.
Qed.

Lemma sumsq_shift_left (b : list R) (s n : nat) :
  sumsq (map (λ l, nth (l + s) b 0) (seq 0 n)) <= sumsq b.
Proof.
  revert b. induction s as [|s IH]; intros b.
  - rewrite (map_ext _ (λ l, nth l b 0)) by (intros; by rewrite Nat.add_0_r).
    apply sumsq_nth_le.
  - destruct b as [|y b].
    + rewrite (map_ext _ (λ _, 0)) by (intros; by destruct (_ + _)%nat).
      rewrite sumsq_zeros. cbn. lra.
    + rewrite (map_ext _ (λ l, nth (l + s) b 0))
        by (intros; by rewrite Nat.add_succ_r).
      rewrite sumsq_cons. pose proof (IH b).
      assert (0 <= y * y) by nra. lra.
Qed.

Lemma sumsq_shift_right (b : list R) (t n : nat) :
  sumsq (map (λ l, if (t <=? l)%nat then nth (l - t) b 0 else 0) (seq 0 n))
  <= sumsq b.
Proof.
  revert n. induction t as [|t IH]; intros n.
  - rewrite (map_ext _ (λ l, nth l b 0)) by (intros; by rewrite Nat.sub_0_r).
    apply sumsq_nth_le.
  - destruct n as [|n]; [apply sumsq_nonneg|].
    cbn [seq map]. rewrite sumsq_cons, <- seq_shift, map_map.
    cbn [Nat.leb Nat.sub]. pose proof (IH n). lra.
Qed.

Lemma square_bound (x m : R) : 0 < m → x * x <= m * m → - m <= x <= m.
Proof. intros Hm Hx. split; nra. Qed.

(** Every entry of the full cross-correlation obeys the Cauchy-Schwarz
    bound. *)
Lemma xcorr_at_bound (a b : list R) (k : nat) :
  Base.xcorr_at a b k * Base.xcorr_at a b k <= sumsq a * sumsq b.
Proof.
  rewrite xcorr_at_dot.
  set (g := map _ _).
  pose proof (cauchy_schwarz a g) as HCS.
  assert (Hg : sumsq g <= sumsq b).
  { subst g. destruct (le_lt_dec k (length b - 1)) as [Hk|Hk].
    - rewrite (map_ext _ (λ l, nth (l + (length b - 1 - k)) b 0)).
      + apply sumsq_shift_left.
      + intros l. destruct (Nat.leb_spec k (l + (length b - 1))); [|lia].
        f_equal. lia.
    - rewrite (map_ext _ (λ l, if (k - (length b - 1) <=? l)%nat
                               then nth (l - (k - (length b - 1))) b 0 else 0)).
      + apply sumsq_shift_right.
      + intros l. destruct (Nat.leb_spec k (l + (length b - 1))),
          (Nat.leb_spec (k - (length b - 1)) l); try lia; [|reflexivity].
        f_equal. lia. }
  pose proof (sumsq_nonneg a). nra.
Qed.

(** X20: for two non-constant series of one length both values returned by
    [correlate], the one at the centre and the lag-adjusted one, lie between
    -1 and 1. *)
Theorem correlate_within_unit_interval (v1 v2 : list R) :
  nonconstant v1 → nonconstant v2 → length v1 = length v2 →
  ∃ r0 r1, Base.correlate v1 v2 = Ok (r0, r1)
           ∧ -1 <= r0 <= 1 ∧ -1 <= r1 <= 1.
Proof.
  intros H1 H2 Hlen.
  pose proof (nonconstant_length v1 H1) as Hn1.
  destruct (sqrt_sumsq_pos v1 H1) as (Hq1 & Hs1 & Hss1).
  destruct (sqrt_sumsq_pos v2 H2) as (Hq2 & Hs2 & Hss2).
  rewrite <- Hlen in *.
  assert (Hn : 0 < INR (length v1)) by (apply lt_0_INR; lia).
  assert (Hne1 : v1 ≠ []) by (intros ->; cbn in Hn1; lia).
  assert (Hne2 : v2 ≠ []) by (intros ->; cbn in Hlen; lia).
  set (n := INR (length v1)) in *.
  set (s1 := Base.std v1) in *. set (s2 := Base.std v2) in *.
  set (A := sumsq (Base.centered v1)) in *.
  set (B := sumsq (Base.centered v2)) in *.
  assert (HA : A = n * (s1 * s1)) by (rewrite Hss1; field; lra).
  assert (HB : B = n * (s2 * s2)) by (rewrite Hss2; field; lra).
  set (m := n * s1 * s2).
  assert (Hm : 0 < m) by (unfold m; repeat apply Rmult_lt_0_compat; lra).
  assert (Hentry : ∀ i,
            -1 <= nth i (map (λ x, x / n / s1 / s2)
                             (Base.xcorr (Base.centered v1) (Base.centered v2)))
                        0 <= 1).
  { intros i. set (corr := map _ _).
    destruct (le_lt_dec (length corr) i) as [Hi|Hi].
    - rewrite nth_overflow by exact Hi. lra.
    - unfold corr in *. rewrite length_map in Hi.
      rewrite (nth_indep _ 0 (0 / n / s1 / s2)) by (by rewrite length_map).
      rewrite (map_nth (λ x, x / n / s1 / s2)).
      unfold Base.xcorr in *. rewrite length_map, length_seq in Hi.
      rewrite (nth_indep _ 0 (Base.xcorr_at (Base.centered v1)
                                             (Base.centered v2) 0))
        by (by rewrite length_map, length_seq).
      rewrite (map_nth (Base.xcorr_at _ _)), seq_nth by exact Hi.
      cbn [Nat.add].
      pose proof (xcorr_at_bound (Base.centered v1) (Base.centered v2) i)
        as Hb.
      fold A B in Hb. set (D := Base.xcorr_at _ _ i) in *.
      assert (Hr : D / n / s1 / s2 = D / m) by (unfold m; field; lra).
      rewrite Hr.
      assert (HDm : D * D <= m * m)
        by (replace (m * m) with (A * B)
              by (rewrite HA, HB; unfold m; ring); exact Hb).
      assert (Habs : - m <= D <= m) by (by apply square_bound).
      split; apply (Rmult_le_reg_r m); try exact Hm; unfold Rdiv;
        rewrite Rmult_assoc, Rinv_l by lra; lra. }
  unfold Base.correlate.
  destruct (decide _) as [[?|?]|_]; [done..|].
  eexists _, _. split; [reflexivity|]. fold n s1 s2. split; apply Hentry.
Qed.

Lemma correlate_within_unit_interval_witness :
  ∃ r0 r1, Base.correlate square_wave [0; 1; 2; 4] = Ok (r0, r1)
           ∧ -1 <= r0 <= 1 ∧ -1 <= r1 <= 1.
Proof.
  apply (correlate_within_unit_interval square_wave [0; 1; 2; 4]);
    [apply square_wave_nonconstant | apply ramp_nonconstant | reflexivity].
Defined.
End CorrelateBounds.

(** ** What the multiresolution runs leave alone *)

Section Footprint.
Context {ext : External}.

Lemma only_under_refl (root : path) (st : store) : only_under root st st.
Proof. by intros q _. Qed.

Lemma only_under_trans (root : path) (st1 st2 st3 : store) :
  only_under root st1 st2 → only_under root st2 st3 → only_under root st1 st3.
Proof. intros H1 H2 q Hq. by rewrite H2, H1. Qed.

Lemma only_under_write (root p : path) (a : artifact) (st : store) :
  root `prefix_of` p → only_under root st (FS.write p a st).
Proof. intros Hp q Hq. apply files_write_ne. by intros ->. Qed.

Lemma only_under_rmtree (root p : path) (st st' : store) :
  root `prefix_of` p → FS.rmtree p st = Ok st' → only_under root st st'.
Proof.
  intros Hp Hrm q Hq. unfold FS.rmtree in Hrm.
  destruct (FS.exists_ p st); [|discriminate Hrm]. injection Hrm as <-.
  cbn [files]. rewrite map_lookup_filter.
  destruct (files st !! q) as [a|]; [|reflexivity]. cbn.
  rewrite option_guard_True; [reflexivity|].
  cbn. intros Hpq. apply Hq. by trans p.
Qed.

Lemma only_under_move (root src dst : path) (st st' : store) :
  root `prefix_of` src → root `prefix_of` dst →
  FS.move src dst st = Ok st' → only_under root st st'.
Proof.
  intros Hs Hd Hmv q Hq. unfold FS.move in Hmv.
  destruct (files st !! src) as [a|]; [|discriminate Hmv].
  injection Hmv as <-. cbn [files].
  rewrite lookup_insert_ne by (by intros ->).
  apply lookup_delete_ne. by intros ->.
Qed.

Lemma only_under_copy (root src dst : path) (st st' : store) :
  root `prefix_of` dst → FS.copy src dst st = Ok st' → only_under root st st'.
Proof.
  intros Hd Hcp. unfold FS.copy in Hcp.
  destruct (files st !! src) as [a|]; [|discriminate Hcp].
  destruct (last src) as [name|]; [|discriminate Hcp]. injection Hcp as <-.
  apply only_under_write. by apply prefix_app_r.
Qed.

Lemma only_under_copy_coordinates (root src dst : path) (st : store) :
  root `prefix_of` dst → only_under root st (POD.copy_coordinates src dst st).
Proof.
  intros Hd. unfold POD.copy_coordinates.
  destruct (FS.copy (src ++ ["x.pkl"]) dst st) as [st1|] eqn:H1;
    [|apply only_under_refl].
  pose proof (only_under_copy root _ _ _ _ Hd H1) as Hu1.
  destruct (FS.copy (src ++ ["y.pkl"]) dst st1) as [st2|] eqn:H2; [|exact Hu1].
  pose proof (only_under_trans _ _ _ _ Hu1 (only_under_copy root _ _ _ _ Hd H2))
    as Hu2.
  destruct (FS.copy (src ++ ["z.pkl"]) dst st2) as [st3|] eqn:H3; [|exact Hu2].
  exact (only_under_trans _ _ _ _ Hu2 (only_under_copy root _ _ _ _ Hd H3)).
Qed.

Lemma for_each_only_under {A S} (proj : S → store) (root : path) (l : list A)
    (body : A → S → result S) :
  (∀ x s s', body x s = Ok s' → only_under root (proj s) (proj s')) →
  ∀ s s', for_each l body s = Ok s' → only_under root (proj s) (proj s').
Proof.
  intros Hbody s s' Hrun.
  apply (for_each_preserves (λ t, only_under root (proj s) (proj t)) l body
           (λ x t t' Ht Hs, only_under_trans _ _ _ _ Hs (Hbody x t t' Ht))
           s s' Hrun).
  apply only_under_refl.
Qed.

Lemma under_artifact (root p : path) (l : path) :
  root `prefix_of` p → root `prefix_of` (p ++ l).
Proof. intros. by apply prefix_app_r. Qed.

Lemma svd_var_only_under (root pq pod : path) (flag : bool)
    (mem : option frame) (var : string) (s s' : Self * store) :
  root `prefix_of` pod →
  POD.svd_var pq pod flag mem var s = Ok s' → only_under root s.2 s'.2.
Proof.
  intros Hp. destruct s as [self st]. unfold POD.svd_var.
  intros H. apply bind_Ok in H as (df & _ & H).
  destruct (Base.data_decimate self df flag false) as [self1 r].
  apply bind_Ok in H as (df1 & _ & H). apply bind_Ok in H as (a & _ & H).
  destruct (svd a) as [[u sv] v]. injection H as <-. cbn [snd].
  unfold utils.saveit, FS.to_parquet.
  repeat (eapply only_under_trans;
          [|apply only_under_write, under_artifact, Hp]).
  apply only_under_refl.
Qed.

Lemma Atilde_var_only_under (root pq pod dmd : path)
    (mem : option frame) (var : string) (s s' : Self * store) :
  root `prefix_of` dmd →
  DMD.Atilde_var pq pod dmd mem var s = Ok s' → only_under root s.2 s'.2.
Proof.
  intros Hp. destruct s as [self st]. unfold DMD.Atilde_var.
  intros H. apply bind_Ok in H as (df & _ & H).
  destruct (Base.data_decimate self df false true) as [self1 r].
  repeat (apply bind_Ok in H as (? & _ & H)). injection H as <-. cbn [snd].
  apply only_under_write, under_artifact, Hp.
Qed.

Lemma modes_var_only_under (root pq dmd pod : path) (proj : bool)
    (mem : option frame) (var : string) (s s' : Self * store) :
  root `prefix_of` dmd →
  DMD.modes_var pq dmd pod proj mem var s = Ok s' → only_under root s.2 s'.2.
Proof.
  intros Hp. destruct s as [self st]. unfold DMD.modes_var.
  intros H. apply bind_Ok in H as (A & _ & H).
  destruct (eig A) as [L W].
  apply bind_Ok in H as (u & _ & H). apply bind_Ok in H as (v & _ & H).
  apply bind_Ok in H as (df & _ & H).
  apply bind_Ok in H as ([self1 phi] & _ & H).
  apply bind_Ok in H as (init & _ & H). injection H as <-. cbn [snd].
  unfold utils.saveit, FS.to_parquet.
  repeat (eapply only_under_trans;
          [|apply only_under_write, under_artifact, Hp]).
  apply only_under_refl.
Qed.

Lemma prediction_var_only_under (root : path) (self : Self) (dmd : path)
    (f : Z) (var : string) (s s' : option Z * store) :
  root `prefix_of` dmd →
  DMD.prediction_var self dmd f var s = Ok s' → only_under root s.2 s'.2.
Proof.
  intros Hp. destruct s as [e st]. unfold DMD.prediction_var.
  intros H. repeat (apply bind_Ok in H as (? & _ & H)).
  injection H as <-. cbn [snd].
  apply only_under_write, under_artifact, Hp.
Qed.

Lemma slow_filter_only_under (root : path) (self : Self) (dmd : path)
    (var : string) (n : nat) (st st' : store) :
  root `prefix_of` dmd →
  DMD.slow_filter self dmd var n st = Ok st' → only_under root st st'.
Proof.
  intros Hp. unfold DMD.slow_filter. intros H.
  apply bind_Ok in H as (eigs & _ & H). apply bind_Ok in H as (d & _ & H).
  apply bind_Ok in H as (b & _ & H). apply bind_Ok in H as (b' & _ & H).
  apply bind_Ok in H as (eigs' & _ & H).
  apply bind_Ok in H as (re & _ & H). apply bind_Ok in H as (im & _ & H).
  apply bind_Ok in H as (re' & _ & H). apply bind_Ok in H as (im' & _ & H).
  apply bind_Ok in H as (st1 & H1 & H). apply bind_Ok in H as (st2 & H2 & H).
  apply bind_Ok in H as (st3 & H3 & H).
  pose proof (under_artifact root dmd) as Hu.
  eapply only_under_trans; [|eapply only_under_move; [| |exact H]; by apply Hu].
  eapply only_under_trans; [|eapply only_under_move; [| |exact H3]; by apply Hu].
  eapply only_under_trans; [|eapply only_under_rmtree; [|exact H2]; by apply Hu].
  eapply only_under_trans; [|eapply only_under_rmtree; [|exact H1]; by apply Hu].
  unfold utils.saveit, FS.to_parquet.
  repeat (eapply only_under_trans; [|apply only_under_write, Hu, Hp]).
  apply only_under_refl.
Qed.

Lemma only_under_makedirs (root p : path) (st : store) :
  only_under root st (FS.makedirs p st).
Proof. by intros q _. Qed.

Lemma guard_loop_only_under (root p : path) (vars acc r : list string)
    (st st' : store) :
  root `prefix_of` p →
  POD.guard_loop p vars acc st = Ok (r, st') → only_under root st st'.
Proof.
  intros Hp. revert acc st.
  induction vars as [|var vars IH]; intros acc st H; cbn in H.
  - injection H as _ <-. apply only_under_refl.
  - set (st0 := if FS.is_dir p st then st else FS.makedirs p st) in H.
    assert (H0 : only_under root st st0).
    { unfold st0. destruct (FS.is_dir p st);
        [apply only_under_refl|apply only_under_makedirs]. }
    destruct (FS.is_dir (p ++ [var]) st0).
    + destruct (overwrite p var).
      * apply bind_Ok in H as (st1 & Hrm & H).
        eapply only_under_trans; [exact H0|].
        eapply only_under_trans; [|exact (IH _ _ H)].
        eapply only_under_rmtree; [|exact Hrm]. by apply under_artifact.
      * eapply only_under_trans; [exact H0|exact (IH _ _ H)].
    + eapply only_under_trans; [exact H0|exact (IH _ _ H)].
Qed.

Lemma overwrite_guard_only_under (root p : path) (vars r : list string)
    (st st' : store) :
  root `prefix_of` p →
  POD.overwrite_guard p vars st = Ok (r, st') → only_under root st st'.
Proof.
  intros Hp H. unfold POD.overwrite_guard in H.
  apply bind_Ok in H as ([r0 st0] & Hg & H). injection H as _ <-.
  exact (guard_loop_only_under _ _ _ _ _ _ _ Hp Hg).
Qed.

Lemma svd_save_usv_only_under (root : path) (self self' : Self)
    (variables : list string) (pq pod : path) (flag : bool)
    (mem : option frame) (st st' : store) :
  root `prefix_of` pod →
  POD.svd_save_usv self variables pq pod flag mem st = Ok (self', st') →
  only_under root st st'.
Proof.
  intros Hp H. unfold POD.svd_save_usv in H.
  apply bind_Ok in H as ([vs st0] & Hg & H).
  assert (H0 : only_under root st st0).
  { destruct mem; [injection Hg as _ <-; apply only_under_refl|].
    exact (overwrite_guard_only_under _ _ _ _ _ _ Hp Hg). }
  eapply only_under_trans; [exact H0|].
  eapply only_under_trans; [apply (only_under_copy_coordinates root pq pod), Hp|].
  exact (for_each_only_under snd root vs _
           (λ x s s', svd_var_only_under root pq pod flag mem x s s' Hp) _ _ H).
Qed.

Lemma save_Atilde_only_under (root : path) (self self' : Self)
    (variables : list string) (pq pod dmd : path)
    (mem : option frame) (st st' : store) :
  root `prefix_of` dmd →
  DMD.save_Atilde self variables pq pod dmd mem st = Ok (self', st') →
  only_under root st st'.
Proof.
  intros Hp H. unfold DMD.save_Atilde in H.
  apply bind_Ok in H as ([vs st0] & Hg & H).
  assert (H0 : only_under root st st0).
  { destruct mem; [injection Hg as _ <-; apply only_under_refl|].
    exact (overwrite_guard_only_under _ _ _ _ _ _ Hp Hg). }
  eapply only_under_trans; [exact H0|].
  eapply only_under_trans; [apply (only_under_copy_coordinates root pq dmd), Hp|].
  exact (for_each_only_under snd root vs _
           (λ x s s', Atilde_var_only_under root pq pod dmd mem x s s' Hp) _ _ H).
Qed.

Lemma save_modes_only_under (root : path) (self self' : Self)
    (variables : list string) (pq dmd pod : path) (proj : bool)
    (mem : option frame) (st st' : store) :
  root `prefix_of` dmd →
  DMD.save_modes self variables pq dmd pod proj mem st = Ok (self', st') →
  only_under root st st'.
Proof.
  intros Hp H. unfold DMD.save_modes in H.
  exact (for_each_only_under snd root variables _
           (λ x s s', modes_var_only_under root pq dmd pod proj mem x s s' Hp)
           _ _ H).
Qed.

Lemma save_prediction_only_under (root : path) (self : Self)
    (variables : list string) (dmd : path) (e : option Z) (f : Z)
    (st st' : store) :
  root `prefix_of` dmd →
  DMD.save_prediction self variables dmd e f st = Ok st' →
  only_under root st st'.
Proof.
  intros Hp H. unfold DMD.save_prediction in H.
  destruct (for_each _ _ _) as [[e' st1]|] eqn:Hrun; [|discriminate H].
  injection H as <-.
  exact (for_each_only_under snd root variables _
           (λ x s s', prediction_var_only_under root self dmd f x s s' Hp)
           _ _ Hrun).
Qed.

Lemma segment_step_only_under (variables : list string) (pq mr : path)
    (var : string) (level slice_size : nat) (df : matrix R) (i : nat)
    (s s' : Self * store) :
  DMD.segment_step variables pq mr var level slice_size df i s = Ok s' →
  only_under mr s.2 s'.2.
Proof.
  destruct s as [self st]. unfold DMD.segment_step. intros H.
  assert (Hp : mr `prefix_of` mr ++ [DMD.level_dir level; pretty i])
    by apply prefix_app_r, reflexivity.
  apply bind_Ok in H as ([self1 st1] & H1 & H).
  apply bind_Ok in H as ([self2 st2] & H2 & H).
  apply bind_Ok in H as ([self3 st3] & H3 & H).
  apply bind_Ok in H as (st4 & H4 & H).
  apply bind_Ok in H as (st5 & H5 & H). injection H as <-. cbn [snd].
  eapply only_under_trans; [exact (svd_save_usv_only_under _ _ _ _ _ _ _ _ _ _ Hp H1)|].
  eapply only_under_trans; [exact (save_Atilde_only_under _ _ _ _ _ _ _ _ _ _ Hp H2)|].
  eapply only_under_trans; [exact (save_modes_only_under _ _ _ _ _ _ _ _ _ _ _ Hp H3)|].
  eapply only_under_trans; [exact (slow_filter_only_under _ _ _ _ _ _ _ Hp H4)|].
  exact (save_prediction_only_under _ _ _ _ _ _ _ _ Hp H5).
Qed.

Lemma level_step_only_under (variables : list string) (pq mr : path)
    (var : string) (level : nat) (s s' : Self * store * matrix R) :
  DMD.level_step variables pq mr var level s = Ok s' →
  only_under mr s.1.2 s'.1.2.
Proof.
  destruct s as [[self st] df]. unfold DMD.level_step. intros H.
  apply bind_Ok in H as (d & _ & H). apply bind_Ok in H as (dt' & _ & H).
  apply bind_Ok in H as ([self1 st1] & Hloop & H).
  apply bind_Ok in H as (preds & _ & H).
  destruct (decide _); [|discriminate H]. injection H as <-. cbn [fst snd].
  eapply only_under_trans;
    [exact (for_each_only_under snd mr _ _
              (λ x s s', segment_step_only_under _ _ _ _ _ _ _ x s s')
              _ _ Hloop)|].
  apply only_under_write. by apply prefix_app_r.
Qed.

Lemma multires_var_only_under (variables : list string) (pq mr : path)
    (levels : nat) (e : option Z) (var : string) (s s' : Self * store) :
  DMD.multires_var variables pq mr levels e var s = Ok s' →
  only_under mr s.2 s'.2.
Proof.
  destruct s as [self st]. unfold DMD.multires_var. intros H.
  apply bind_Ok in H as (df & _ & H). apply bind_Ok in H as (e' & _ & H).
  apply bind_Ok in H as ([[self1 st1] df1] & Hloop & H). injection H as <-.
  cbn [snd].
  eapply only_under_trans;
    [|exact (for_each_only_under (λ s, s.1.2) mr _ _
               (λ x s s', level_step_only_under _ _ _ _ x s s') _ _ Hloop)].
  intros q _. cbn [fst snd]. by rewrite files_make_level_dirs.
Qed.

(** X22: a run of [multires] that returns has changed no file outside
    [path_mrdmd]: whatever the variables, levels and [end], every path that
    does not lie under [path_mrdmd] holds after the run what it held before;
    in particular the parquet input is left as it was. *)
Theorem multires_writes_under_path_mrdmd (self self' : Self)
    (variables : list string) (path_parquet path_mrdmd : path) (levels : nat)
    (end_ : option Z) (st st' : store) :
  DMD.multires self variables path_parquet path_mrdmd levels end_ st
  = Ok (self', st') →
  ∀ q, ¬ path_mrdmd `prefix_of` q → files st' !! q = files st !! q.
Proof.
  intros H. unfold DMD.multires in H.
  exact (for_each_only_under snd path_mrdmd variables _
           (λ x s s', multires_var_only_under _ _ _ _ _ x s s') _ _ H).
Qed.

Lemma multires_predict_var_only_under (mr : path) (var : string)
    (st st' : store) :
  DMD.multires_predict_var mr var st = Ok st' → only_under mr st st'.
Proof.
  unfold DMD.multires_predict_var. intros H.
  apply bind_Ok in H as (preds & _ & H). apply bind_Ok in H as (df & _ & H).
  apply bind_Ok in H as (st1 & Hloop & H). injection H as <-.
  eapply only_under_trans;
    [|apply only_under_write; by apply prefix_app_r].
  refine (for_each_only_under (λ s : store, s) mr _ _ _ _ _ Hloop).
  intros level s s' Hb. cbn.
  apply bind_Ok in Hb as (s1 & H1 & H2).
  assert (Hp : mr `prefix_of` mr ++ [DMD.level_dir level])
    by apply prefix_app_r, reflexivity.
  exact (only_under_trans _ _ _ _ (only_under_copy _ _ _ _ _ Hp H1)
           (only_under_copy _ _ _ _ _ Hp H2)).
Qed.

(** X23: a run of [multires_predict] that returns has changed no file
    outside [path_mrdmd]. *)
Theorem multires_predict_writes_under_path_mrdmd (variables : list string)
    (path_mrdmd : path) (st st' : store) :
  DMD.multires_predict variables path_mrdmd st = Ok st' →
  ∀ q, ¬ path_mrdmd `prefix_of` q → files st' !! q = files st !! q.
Proof.
  intros H. unfold DMD.multires_predict in H.
  exact (for_each_only_under (λ s : store, s) path_mrdmd variables _
           (λ x s s', multires_predict_var_only_under _ x s s') _ _ H).
Qed.
End Footprint.

Section FootprintWitnesses.
Local Open Scope R_scope.

Lemma multires_writes_under_path_mrdmd_witness :
  ∃ self' st',
    DMD.multires (ext := OneMode.external) unit_self ["p"] ["data"] ["mr"] 1
                 (Some 2%Z) geometric_store = Ok (self', st')
    ∧ ∀ q, ¬ ["mr"] `prefix_of` q →
           files st' !! q = files geometric_store !! q.
Proof.
  destruct level_loop_geometric as (self' & st1 & Hloop & _).
  assert (Hrun : DMD.multires (ext := OneMode.external) unit_self ["p"]
                   ["data"] ["mr"] 1 (Some 2%Z) geometric_store
                 = Ok (self', st1)).
  { unfold DMD.multires. cbn [for_each]. unfold DMD.multires_var.
    unfold FS.read_parquet at 1. rewrite files_make_level_dirs.
    change (files geometric_store !! (["data"] ++ ["p"]))
      with (Some (Table [[1]; [2]])).
    cbn [mbind result_bind].
    change (DMD.truncate_columns 1 2 [[1]; [2]]) with [[1]; [2]].
    rewrite Hloop. reflexivity. }
  exists self', st1. split; [exact Hrun|].
  exact (multires_writes_under_path_mrdmd (ext := OneMode.external)
           unit_self self' ["p"] ["data"] ["mr"] 1 (Some 2%Z) geometric_store
           st1 Hrun).
Defined.

Lemma multires_predict_writes_under_path_mrdmd_witness :
  ∃ st',
    DMD.multires_predict ["p"] ["mr"] one_level_store = Ok st'
    ∧ ∀ q, ¬ ["mr"] `prefix_of` q →
           files st' !! q = files one_level_store !! q.
Proof.
  destruct (DMD.multires_predict ["p"] ["mr"] one_level_store) as [st'|e]
    eqn:Hrun; [|vm_compute in Hrun; discriminate Hrun].
  exists st'. split; [reflexivity|].
  exact (multires_predict_writes_under_path_mrdmd ["p"] ["mr"]
           one_level_store st' Hrun).
Defined.
End FootprintWitnesses.
